(** * libyul/optimiser/SimplificationRules: the peephole rule matcher

    A shallow embedding of [SimplificationRules.cpp] / [SimplificationRules.h]
    (pattern matching against Yul expressions, match groups, first-match
    lookup in the rule table, reconstruction of expressions from patterns),
    followed by the properties proved about it. *)

From Stdlib Require Import ZArith NArith String Ascii List Bool Lia DecimalString.
From stdpp Require Import gmap strings list fin_maps.

Set Warnings "-register-all".

Local Open Scope string_scope.
Local Open Scope list_scope.
Local Open Scope Z_scope.

(** ** Yul AST, as far as the matcher reads it

    [libyul/AsmData.h] is not part of the slice; the node types below carry
    the fields the two source files read or write. *)

Definition YulString := string.

Record SourceLocation := mkSourceLocation { loc_start : Z; loc_end : Z }.

(** [dev::eth::Instruction] is an enum class over [uint8_t]: an opcode byte. *)
Definition Instruction := N.

Module Instr.
Definition ADD : Instruction := 1%N.
Definition MUL : Instruction := 2%N.
Definition SUB : Instruction := 3%N.
Definition MLOAD : Instruction := 81%N.
End Instr.

(** [uint8_t(instruction)], used as an index into [m_rules]. *)
Definition uint8_t (i : Instruction) : nat := N.to_nat i.

Inductive LiteralKind := Number | Boolean | String_.

Record Identifier := mkIdentifier { id_location : SourceLocation; name : YulString }.

Record Literal := mkLiteral {
  lit_location : SourceLocation;
  kind : LiteralKind;
  value : YulString;
  type : YulString
}.

(** [Expression = boost::variant<FunctionalInstruction, FunctionCall, Identifier, Literal>]. *)
Inductive Expression :=
| FunctionalInstruction (location : SourceLocation) (instruction : Instruction)
    (arguments : list Expression)
| FunctionCall (location : SourceLocation) (functionName : Identifier)
    (arguments : list Expression)
| EIdentifier (i : Identifier)
| ELiteral (l : Literal).

#[global] Instance LiteralKind_eq_dec : EqDecision LiteralKind.
Proof. solve_decision. Defined.

(** ** Dialect

    [Dialect::builtin] returns a pointer to the builtin or null;
    [dynamic_cast<EVMDialect const*>] succeeds exactly on EVM dialects, whose
    builtins carry an optional instruction. *)

Record BuiltinFunction := mkBuiltin { builtin_instruction : option Instruction }.

Record Dialect := mkDialect {
  isEVMDialect : bool;
  builtin : YulString -> option BuiltinFunction
}.

(** ** Collaborators outside the slice

    Syntactic equality, the movability analysis, the AST copier and the
    number conversions live in other translation units.  The matcher is
    embedded over any implementation of them. *)

Class Collaborators := {
  (** [SyntacticallyEqual{}(a, b)] *)
  SyntacticallyEqual : Expression -> Expression -> bool;
  (** [SideEffectsCollector(dialect, e).movable()] *)
  movable : Dialect -> Expression -> bool;
  (** [ASTCopier().translate(e)] *)
  translate : Expression -> Expression;
  (** [u256(literal.value.str())] *)
  u256_of_string : YulString -> Z;
  (** [valueOfNumberLiteral(literal)]; [None] where it throws
      [OptimizerException] instead of returning a number *)
  valueOfNumberLiteral : Literal -> option Z;
  (** its first statement asserts that the literal is of kind [Number] *)
  valueOfNumberLiteral_kind :
    forall l, kind l <> Number -> valueOfNumberLiteral l = None;
  (** [formatNumber(v)] *)
  formatNumber : Z -> string;
  (** [instructionInfo(i).name] *)
  instructionInfo_name : Instruction -> string
}.

(** [uint64_t(x)] for [x : u256]: the low 64 bits. *)
Definition uint64_t (x : Z) : Z := Z.land x (Z.ones 64).

(** ** Exceptions and the match-group table

    [assertThrow] raises; the table [m_matchGroups] is shared by every
    pattern of the engine and is mutated in place, so whatever was written
    before a throw stays written. *)

Inductive Exception :=
| OptimizerException (msg : string)
| out_of_range
| bad_get.

Inductive Result (A : Type) :=
| Ok (a : A)
| Throw (e : Exception).
Arguments Ok {A} a.
Arguments Throw {A} e.

(** [std::map<unsigned, Expression const*>]; the inner [None] is a null pointer. *)
Abbreviation MatchGroups := (gmap N (option Expression)).
(** [std::map<YulString, Expression const*>] *)
Abbreviation SSAValues := (gmap string (option Expression)).

Definition M (A : Type) : Type := MatchGroups -> Result A * MatchGroups.

Definition ret {A} (a : A) : M A := fun mg => (Ok a, mg).

Definition bind {A B} (m : M A) (k : A -> M B) : M B :=
  fun mg => match m mg with
            | (Ok a, mg') => k a mg'
            | (Throw e, mg') => (Throw e, mg')
            end.

Definition throw {A} (e : Exception) : M A := fun mg => (Throw e, mg).

Declare Scope m_scope.
Delimit Scope m_scope with M.
Notation "x <- c1 ;; c2" := (bind c1 (fun x => c2))
  (at level 100, c1 at next level, right associativity) : m_scope.
Notation "c1 ;;; c2" := (bind c1 (fun _ => c2))
  (at level 100, right associativity) : m_scope.

Definition assertThrow (cond : bool) (msg : string) : M unit :=
  if cond then ret tt else throw (OptimizerException msg).

(** [m_matchGroups->count(g)] *)
Definition count (g : N) : M bool :=
  fun mg => (Ok (bool_decide (is_Some (mg !! g))), mg).

(** The table subscripted at [g] and read as an rvalue: the subscript
    operator of [std::map] default-inserts a null pointer when the key is
    absent. *)
Definition subscript (g : N) : M (option Expression) :=
  fun mg => match mg !! g with
            | Some v => (Ok v, mg)
            | None => (Ok None, <[g := None]> mg)
            end.

(** The table subscripted at [g] and assigned [e]. *)
Definition assign (g : N) (e : Expression) : M unit :=
  fun mg => (Ok tt, <[g := Some e]> mg).

(** [m_matchGroups.clear()] *)
Definition resetMatchGroups : M unit := fun _ => (Ok tt, ∅).

Inductive PatternKind := Operation | Constant | Any.

#[global] Instance PatternKind_eq_dec : EqDecision PatternKind.
Proof. solve_decision. Defined.

(** [std::vector::empty] *)
Definition empty {A} (v : list A) : bool :=
  match v with [] => true | _ :: _ => false end.

(** [tolower] on one character, and the [std::transform] over a name. *)
Definition tolower (c : ascii) : ascii :=
  let n := N_of_ascii c in
  if ((65 <=? n) && (n <=? 90))%N then ascii_of_N (n + 32) else c.

Fixpoint lowercase (s : string) : string :=
  match s with
  | EmptyString => EmptyString
  | String c s' => String (tolower c) (lowercase s')
  end.

(** The message of the assertion on [Any] patterns: the word Any between
    double quotes, then the rest of the sentence. *)
Definition any_with_arguments : string :=
  let dquote := String "034"%char EmptyString in
  String.append dquote
    (String.append "Any" (String.append dquote " should not have arguments.")).

(** [SimplificationRules::instructionAndArguments] *)
Definition instructionAndArguments (_dialect : Dialect) (_expr : Expression)
  : option (Instruction * list Expression) :=
  match _expr with
  | FunctionalInstruction _ instruction arguments => Some (instruction, arguments)
  | FunctionCall _ functionName arguments =>
      if isEVMDialect _dialect then
        match builtin _dialect (name functionName) with
        | Some b =>
            match builtin_instruction b with
            | Some i => Some (i, arguments)
            | None => None
            end
        | None => None
        end
      else None
  | _ => None
  end.

(** Lines 208-218 and 343-353: the variable is looked through for every
    pattern kind but [Any].  The resulting pointer is [&_expr] or a non-null
    SSA value, so the [assertThrow(expr, ...)] that follows cannot fire. *)
Definition resolveVariable (m_kind : PatternKind) (_expr : Expression)
    (_ssaValues : SSAValues) : Expression :=
  if bool_decide (m_kind <> Any) then
    match _expr with
    | EIdentifier i =>
        match _ssaValues !! name i with
        | Some (Some new_expr) => new_expr
        | _ => _expr
        end
    | _ => _expr
    end
  else _expr.

(** Lines 247-277 and 387-417, identical in both pattern classes: [_expr] is
    the expression as passed in, [expr] the one after variable resolution. *)
Definition matchGroupCheck `{Collaborators} (m_kind : PatternKind) (m_matchGroup : N)
    (_expr expr : Expression) (_dialect : Dialect) : M bool :=
  (if bool_decide (m_matchGroup <> 0%N) then
     c <- count m_matchGroup ;;
     if c then
       assertThrow (bool_decide (m_kind = Any)) "Match group repetition for non-any." ;;;
       firstMatch <- subscript m_matchGroup ;;
       match firstMatch with
       | None => throw (OptimizerException "Match set but to null.")
       | Some firstMatch =>
           ret (SyntacticallyEqual firstMatch _expr && movable _dialect _expr)
       end
     else if bool_decide (m_kind = Any) then
       assign m_matchGroup _expr ;;; ret true
     else
       assertThrow (bool_decide (m_kind = Constant)) "Match group set for operation." ;;;
       assign m_matchGroup expr ;;; ret true
   else ret true)%M.

(** ** class Pattern (the 256-bit EVM domain) *)

Module Pattern.

(** The members of the class: [m_data] is a shared pointer, null when the
    pattern has no fixed value; the pointer [m_matchGroups] is not a field
    here, see [setMatchGroup]. *)
Inductive t := mk {
  m_kind : PatternKind;
  m_instruction : Instruction;
  m_data : option Z;
  m_arguments : list t;
  m_matchGroup : N
}.

(** [Pattern(PatternKind _kind = PatternKind::Any)]; [m_instruction] is
    left uninitialised by the source, any value would do here. *)
Definition ofKind (_kind : PatternKind) : t := mk _kind 0%N None [] 0%N.
(** [Pattern(u256 const& _value)] *)
Definition ofValue (_value : Z) : t := mk Constant 0%N (Some _value) [] 0%N.
(** [Pattern(Instruction _instruction, vector<Pattern> const& _arguments)] *)
Definition ofInstruction (_instruction : Instruction) (_arguments : list t) : t :=
  mk Operation _instruction None _arguments 0%N.

(** [setMatchGroup]: the pointer it stores always designates the engine's
    single table, which is the state of [M]. *)
Definition setMatchGroup (_group : N) (p : t) : t :=
  mk (m_kind p) (m_instruction p) (m_data p) (m_arguments p) _group.

Definition matchGroup (p : t) : N := m_matchGroup p.

Section Matches.
Context `{Collaborators}.

(** [Pattern::matches].  [structural] is [true] when control reaches the
    group check of line 247 and [false] when one of the [return false]
    before it is taken. *)
Fixpoint matches (p : t) (_expr : Expression) (_dialect : Dialect)
    (_ssaValues : SSAValues) {struct p} : M bool :=
  let expr := resolveVariable (m_kind p) _expr _ssaValues in
  (structural <-
     match m_kind p with
     | Constant =>
         match expr with
         | ELiteral literal =>
             if bool_decide (kind literal <> Number) then ret false
             else
               match m_data p with
               | Some data =>
                   if bool_decide (data <> u256_of_string (value literal))
                   then ret false
                   else assertThrow (empty (m_arguments p)) EmptyString ;;;
                        ret true
               | None =>
                   assertThrow (empty (m_arguments p)) EmptyString ;;;
                   ret true
               end
         | _ => ret false
         end
     | Operation =>
         match instructionAndArguments _dialect expr with
         | None => ret false
         | Some (instr, args) =>
             if bool_decide (m_instruction p <> instr) then ret false
             else
               assertThrow (length (m_arguments p) =? length args)%nat EmptyString ;;;
               (fix loop (ps : list t) (es : list Expression) : M bool :=
                  match ps with
                  | [] => ret true
                  | q :: ps' =>
                      match es with
                      | [] => throw out_of_range
                      | e :: es' =>
                          b <- matches q e _dialect _ssaValues ;;
                          if b then loop ps' es' else ret false
                      end
                  end) (m_arguments p) args
         end
     | Any =>
         assertThrow (empty (m_arguments p))
           any_with_arguments ;;;
         ret true
     end ;;
   if structural
   then matchGroupCheck (m_kind p) (m_matchGroup p) _expr expr _dialect
   else ret false)%M.

(** The loop of lines 238-240 on its own: the children against the
    arguments, in order, stopping at the first that fails.  The two vectors
    have the same size when the loop is entered, so [args->at(i)] is in
    range; [out_of_range] is what [at] would throw otherwise. *)
Definition matchesAll (_dialect : Dialect) (_ssaValues : SSAValues)
  : list t -> list Expression -> M bool :=
  fix loop (ps : list t) (es : list Expression) : M bool :=
    match ps with
    | [] => ret true
    | q :: ps' =>
        match es with
        | [] => throw out_of_range
        | e :: es' =>
            (b <- matches q e _dialect _ssaValues ;;
             if b then loop ps' es' else ret false)%M
        end
    end.

(** [matchGroupValue]: the second assertion ([!!m_matchGroups]) cannot
    fire once [m_matchGroup > 0], the pointer being stored by the same
    [setMatchGroup] call as the id; the final read of the table repeats
    the one already made. *)
Definition matchGroupValue (p : t) : M Expression :=
  (assertThrow (0 <? m_matchGroup p)%N EmptyString ;;;
   v <- subscript (m_matchGroup p) ;;
   match v with
   | None => throw (OptimizerException EmptyString)
   | Some e => ret e
   end)%M.

(** [Pattern::d]: [boost::get] throws [bad_get] on an expression that is
    no literal, [valueOfNumberLiteral] throws on a literal that is no
    number. *)
Definition d (p : t) : M Z :=
  (e <- matchGroupValue p ;;
   match e with
   | ELiteral l =>
       match valueOfNumberLiteral l with
       | Some v => ret v
       | None => throw (OptimizerException EmptyString)
       end
   | _ => throw bad_get
   end)%M.

(** [Pattern::toExpression] *)
Fixpoint toExpression (p : t) (_location : SourceLocation) {struct p} : M Expression :=
  (if bool_decide (matchGroup p <> 0%N) then
     e <- matchGroupValue p ;; ret (translate e)
   else
     match m_kind p with
     | Constant =>
         match m_data p with
         | None =>
             throw (OptimizerException "No match group and no constant value given.")
         | Some data =>
             ret (ELiteral (mkLiteral _location Number (formatNumber data) EmptyString))
         end
     | Operation =>
         arguments <-
           (fix loop (args : list t) : M (list Expression) :=
              match args with
              | [] => ret []
              | arg :: rest =>
                  a <- toExpression arg _location ;;
                  r <- loop rest ;;
                  ret (a :: r)
              end) (m_arguments p) ;;
         let name := lowercase (instructionInfo_name (m_instruction p)) in
         ret (FunctionCall _location (mkIdentifier _location name) arguments)
     | Any =>
         throw (OptimizerException "Pattern of kind 'any', but no match group.")
     end)%M.

End Matches.

(** [Pattern::instruction] *)
Definition instruction (p : t) : Result Instruction :=
  if bool_decide (m_kind p = Operation) then Ok (m_instruction p)
  else Throw (OptimizerException EmptyString).
End Pattern.

(** ** class PatternEWasm (the 64-bit builtin-call domain) *)

Module PatternEWasm.

Inductive t := mk {
  m_kind : PatternKind;
  m_instruction : YulString;
  m_data : option Z;
  m_arguments : list t;
  m_matchGroup : N
}.

(** [PatternEWasm(PatternKind _kind = PatternKind::Any)] *)
Definition ofKind (_kind : PatternKind) : t := mk _kind EmptyString None [] 0%N.
(** [PatternEWasm(uint64_t _value)] *)
Definition ofValue (_value : Z) : t := mk Constant EmptyString (Some _value) [] 0%N.
(** [PatternEWasm(YulString _builtin, vector<PatternEWasm> const& _arguments)] *)
Definition ofBuiltin (_builtin : YulString) (_arguments : list t) : t :=
  mk Operation _builtin None _arguments 0%N.

Definition setMatchGroup (_group : N) (p : t) : t :=
  mk (m_kind p) (m_instruction p) (m_data p) (m_arguments p) _group.

Definition matchGroup (p : t) : N := m_matchGroup p.

Section Matches.
Context `{Collaborators}.

(** [PatternEWasm::matches].  [structural] is [true] when control reaches
    the group check of line 387 and [false] when one of the [return false]
    before it is taken. *)
Fixpoint matches (p : t) (_expr : Expression) (_dialect : Dialect)
    (_ssaValues : SSAValues) {struct p} : M bool :=
  let expr := resolveVariable (m_kind p) _expr _ssaValues in
  (structural <-
     match m_kind p with
     | Constant =>
         match expr with
         | ELiteral literal =>
             if bool_decide (kind literal <> Number) then ret false
             else
               match m_data p with
               | Some data =>
                   if bool_decide (data <> uint64_t (u256_of_string (value literal)))
                   then ret false
                   else assertThrow (empty (m_arguments p)) EmptyString ;;;
                        ret true
               | None =>
                   assertThrow (empty (m_arguments p)) EmptyString ;;;
                   ret true
               end
         | _ => ret false
         end
     | Operation =>
         match expr with
         | FunctionCall _ functionName args =>
             match builtin _dialect (name functionName) with
             | None => ret false
             | Some _ =>
                 if bool_decide (m_instruction p <> name functionName) then ret false
                 else
                   assertThrow (length (m_arguments p) =? length args)%nat EmptyString ;;;
                   (fix loop (ps : list t) (es : list Expression) : M bool :=
                      match ps with
                      | [] => ret true
                      | q :: ps' =>
                          match es with
                          | [] => throw out_of_range
                          | e :: es' =>
                              b <- matches q e _dialect _ssaValues ;;
                              if b then loop ps' es' else ret false
                          end
                      end) (m_arguments p) args
             end
         | _ => ret false
         end
     | Any =>
         assertThrow (empty (m_arguments p))
           any_with_arguments ;;;
         ret true
     end ;;
   if structural
   then matchGroupCheck (m_kind p) (m_matchGroup p) _expr expr _dialect
   else ret false)%M.

(** The loop of lines 378-380 on its own: the children against the
    arguments, in order, stopping at the first that fails.  The two vectors
    have the same size when the loop is entered, so [args->at(i)] is in
    range; [out_of_range] is what [at] would throw otherwise. *)
Definition matchesAll (_dialect : Dialect) (_ssaValues : SSAValues)
  : list t -> list Expression -> M bool :=
  fix loop (ps : list t) (es : list Expression) : M bool :=
    match ps with
    | [] => ret true
    | q :: ps' =>
        match es with
        | [] => throw out_of_range
        | e :: es' =>
            (b <- matches q e _dialect _ssaValues ;;
             if b then loop ps' es' else ret false)%M
        end
    end.

(** [matchGroupValue]: the second assertion ([!!m_matchGroups]) cannot
    fire once [m_matchGroup > 0], the pointer being stored by the same
    [setMatchGroup] call as the id; the final read of the table repeats
    the one already made. *)
Definition matchGroupValue (p : t) : M Expression :=
  (assertThrow (0 <? m_matchGroup p)%N EmptyString ;;;
   v <- subscript (m_matchGroup p) ;;
   match v with
   | None => throw (OptimizerException EmptyString)
   | Some e => ret e
   end)%M.

(** [PatternEWasm::d]: as [Pattern::d], the number then cut to 64 bits. *)
Definition d (p : t) : M Z :=
  (e <- matchGroupValue p ;;
   match e with
   | ELiteral l =>
       match valueOfNumberLiteral l with
       | Some v => ret (uint64_t v)
       | None => throw (OptimizerException EmptyString)
       end
   | _ => throw bad_get
   end)%M.

(** [PatternEWasm::toExpression] *)
Fixpoint toExpression (p : t) (_location : SourceLocation) {struct p} : M Expression :=
  (if bool_decide (matchGroup p <> 0%N) then
     e <- matchGroupValue p ;; ret (translate e)
   else
     match m_kind p with
     | Constant =>
         match m_data p with
         | None =>
             throw (OptimizerException "No match group and no constant value given.")
         | Some data =>
             ret (ELiteral (mkLiteral _location Number (formatNumber data) EmptyString))
         end
     | Operation =>
         arguments <-
           (fix loop (args : list t) : M (list Expression) :=
              match args with
              | [] => ret []
              | arg :: rest =>
                  a <- toExpression arg _location ;;
                  r <- loop rest ;;
                  ret (a :: r)
              end) (m_arguments p) ;;
         ret (FunctionCall _location (mkIdentifier _location (m_instruction p)) arguments)
     | Any =>
         throw (OptimizerException "Pattern of kind 'any', but no match group.")
     end)%M.

End Matches.

(** [PatternEWasm::builtin] *)
Definition builtin (p : t) : Result YulString :=
  if bool_decide (m_kind p = Operation) then Ok (m_instruction p)
  else Throw (OptimizerException EmptyString).
End PatternEWasm.

(** ** Rules

    Modelled from the spec: [dev::eth::SimplificationRule] is declared in
    [libevmasm/SimplificationRule.h], outside the slice: a pattern, an
    optional feasibility predicate and a replacement-producing action
    ([removesNonConstants] is the third member the constructor below
    initialises).  The closures read the match groups through the patterns
    they captured, hence they run in [M]; an empty [std::function] is [None]. *)

Record SimplificationRule (P : Type) := mkRule {
  pattern : P;
  action : M P;
  removesNonConstants : bool;
  feasible : option (M bool)
}.
Arguments mkRule {P} _ _ _ _.
Arguments pattern {P} _.
Arguments action {P} _.
Arguments removesNonConstants {P} _.
Arguments feasible {P} _.

(** [struct EWasmBuiltins] *)
Module EWasmBuiltins.
Definition ADD := "i64.add".
Definition SUB := "i64.sub".
Definition MUL := "i64.mul".
Definition DIV := "i64.div_u".
Definition MOD := "i64.rem_u".
Definition AND := "i64.and".
Definition OR := "i64.or".
Definition XOR := "i64.xor".
Definition SHL := "i64.shl".
Definition SHR := "i64.shr_u".
Definition ISZERO := "i64.eqz".
Definition EQ := "i64.eq".
Definition LT := "i64.lt_u".
Definition GT := "i64.gt_u".

Definition SDIV := EmptyString.


End EWasmBuiltins.

(** ** class SimplificationRules *)

Module SimplificationRules.

Abbreviation Rule := (SimplificationRule Pattern.t).
Abbreviation RuleEWasm := (SimplificationRule PatternEWasm.t).

Record t := mk {
  m_matchGroups : MatchGroups;
  (** [std::vector<...> m_rules[256]] *)
  m_rules : list (list Rule);
  (** [std::map<YulString, std::vector<...>> m_rulesEWasm] *)
  m_rulesEWasm : gmap string (list RuleEWasm)
}.

(** Every member default-initialised. *)
Definition initial : t := mk ∅ (replicate 256 []) ∅.

(** [m_rules[i]] *)
Definition bucket (rules : t) (i : nat) : list Rule := m_rules rules !!! i.

(** [m_rulesEWasm[k]] read without the insertion. *)
Definition bucketEWasm (rules : t) (k : YulString) : list RuleEWasm :=
  default [] (m_rulesEWasm rules !! k).

(** [isInitialized] *)
Definition isInitialized (rules : t) : bool :=
  negb (empty (bucket rules (uint8_t Instr.ADD))).

(** [addRule(SimplificationRule<Pattern> const&)]; an opcode is a byte, so
    the index is below 256 (beyond the array the list update would do
    nothing). *)
Definition addRule (_rule : Rule) (rules : t) : Result t :=
  match Pattern.instruction (pattern _rule) with
  | Throw e => Throw e
  | Ok i =>
      Ok (mk (m_matchGroups rules)
            (<[uint8_t i := bucket rules (uint8_t i) ++ [_rule]]> (m_rules rules))
            (m_rulesEWasm rules))
  end.

(** [addRules] *)
Fixpoint addRules (_rules : list Rule) (rules : t) : Result t :=
  match _rules with
  | [] => Ok rules
  | r :: rest =>
      match addRule r rules with
      | Throw e => Throw e
      | Ok rules' => addRules rest rules'
      end
  end.

(** [addRule(SimplificationRule<PatternEWasm> const&)] *)
Definition addRuleEWasm (_rule : RuleEWasm) (rules : t) : Result t :=
  match PatternEWasm.builtin (pattern _rule) with
  | Throw e => Throw e
  | Ok b =>
      if negb (bool_decide (b = EmptyString)) then
        Ok (mk (m_matchGroups rules) (m_rules rules)
              (<[b := bucketEWasm rules b ++ [_rule]]> (m_rulesEWasm rules)))
      else Ok rules
  end.

(** The [for (auto const& r: ...) addRule(r);] of the constructor. *)
Fixpoint addRulesEWasm (_rules : list RuleEWasm) (rules : t) : Result t :=
  match _rules with
  | [] => Ok rules
  | r :: rest =>
      match addRuleEWasm r rules with
      | Throw e => Throw e
      | Ok rules' => addRulesEWasm rest rules'
      end
  end.

Section Engine.
Context `{Collaborators}.

(** The rule list of [libevmasm/RuleList.h], instantiated at each
    pattern class: a function of the seven group patterns. *)
Variable simplificationRuleList :
  Pattern.t -> Pattern.t -> Pattern.t -> Pattern.t -> Pattern.t ->
  Pattern.t -> Pattern.t -> list Rule.
Variable simplificationRuleListEWasm :
  PatternEWasm.t -> PatternEWasm.t -> PatternEWasm.t -> PatternEWasm.t ->
  PatternEWasm.t -> PatternEWasm.t -> PatternEWasm.t -> list RuleEWasm.

(** The seven rules the constructor states itself. *)
Definition ownRulesEWasm (A B X : PatternEWasm.t) : list RuleEWasm :=
  let R := @mkRule PatternEWasm.t in
  let P := PatternEWasm.ofBuiltin in
  let V := PatternEWasm.ofValue in
  let dA := PatternEWasm.d A in
  let dB := PatternEWasm.d B in
  [ R (P "i64.ne" [X; X]) (ret (V 0)) true None;
    R (P "i64.ne" [A; B])
      (a <- dA ;; b <- dB ;; ret (V (if bool_decide (a <> b) then 1 else 0)))%M
      false None;
    R (P "i64.ne" [X; V 0]) (ret X) false None;
    R (P "i64.ne" [V 0; X]) (ret X) false None;
    R (P "i64.ge_u" [A; B])
      (a <- dA ;; b <- dB ;; ret (V (if (b <=? a) then 1 else 0)))%M
      false None;
    R (P "i64.shl" [A; B])
      (b <- dB ;;
       if (64 <=? b) then ret (V 0)
       else a <- dA ;; b' <- dB ;; ret (V (uint64_t (Z.shiftl a b'))))%M
      false None;
    R (P "i64.shr_u" [A; B])
      (b <- dB ;;
       if (64 <=? b) then ret (V 0)
       else a <- dA ;; b' <- dB ;; ret (V (Z.shiftr a b')))%M
      false None ].

(** [SimplificationRules::SimplificationRules()] *)
Definition construct : Result t :=
  let rules := initial in
  let r1 :=
    let A := Pattern.setMatchGroup 1 (Pattern.ofKind Constant) in
    let B := Pattern.setMatchGroup 2 (Pattern.ofKind Constant) in
    let C := Pattern.setMatchGroup 3 (Pattern.ofKind Constant) in
    let W := Pattern.setMatchGroup 4 (Pattern.ofKind Any) in
    let X := Pattern.setMatchGroup 5 (Pattern.ofKind Any) in
    let Y := Pattern.setMatchGroup 6 (Pattern.ofKind Any) in
    let Z := Pattern.setMatchGroup 7 (Pattern.ofKind Any) in
    addRules (simplificationRuleList A B C W X Y Z) rules in
  match r1 with
  | Throw e => Throw e
  | Ok rules =>
      let r2 :=
        let A := PatternEWasm.setMatchGroup 1 (PatternEWasm.ofKind Constant) in
        let B := PatternEWasm.setMatchGroup 2 (PatternEWasm.ofKind Constant) in
        let C := PatternEWasm.setMatchGroup 3 (PatternEWasm.ofKind Constant) in
        let W := PatternEWasm.setMatchGroup 4 (PatternEWasm.ofKind Any) in
        let X := PatternEWasm.setMatchGroup 5 (PatternEWasm.ofKind Any) in
        let Y := PatternEWasm.setMatchGroup 6 (PatternEWasm.ofKind Any) in
        let Z := PatternEWasm.setMatchGroup 7 (PatternEWasm.ofKind Any) in
        addRulesEWasm
          (ownRulesEWasm A B X ++ simplificationRuleListEWasm A B C W X Y Z) rules in
      match r2 with
      | Throw e => Throw e
      | Ok rules =>
          if isInitialized rules then Ok rules
          else Throw (OptimizerException "Rule list not properly initialized.")
      end
  end.

(** The [for] loop of [findFirstMatch]. *)
Fixpoint findFirstMatch_loop (bucket : list Rule) (_expr : Expression)
    (_dialect : Dialect) (_ssaValues : SSAValues) : M (option Rule) :=
  match bucket with
  | [] => ret None
  | rule :: rest =>
      (resetMatchGroups ;;;
       b <- Pattern.matches (pattern rule) _expr _dialect _ssaValues ;;
       if b then
         match feasible rule with
         | None => ret (Some rule)
         | Some f =>
             ok <- f ;;
             if ok then ret (Some rule)
             else findFirstMatch_loop rest _expr _dialect _ssaValues
         end
       else findFirstMatch_loop rest _expr _dialect _ssaValues)%M
  end.

(** [findFirstMatch]; [rules] is the function's static engine object. *)
Definition findFirstMatch (rules : t) (_expr : Expression) (_dialect : Dialect)
    (_ssaValues : SSAValues) : Result (option Rule) * t :=
  if negb (isInitialized rules) then
    (Throw (OptimizerException "Rule list not properly initialized."), rules)
  else
    match instructionAndArguments _dialect _expr with
    | None => (Ok None, rules)
    | Some (instruction, _) =>
        let '(r, mg) :=
          findFirstMatch_loop (bucket rules (uint8_t instruction))
            _expr _dialect _ssaValues (m_matchGroups rules) in
        (r, mk mg (m_rules rules) (m_rulesEWasm rules))
    end.

(** The [for] loop of [findFirstMatchEWasm]. *)
Fixpoint findFirstMatchEWasm_loop (bucket : list RuleEWasm) (_expr : Expression)
    (_dialect : Dialect) (_ssaValues : SSAValues) : M (option RuleEWasm) :=
  match bucket with
  | [] => ret None
  | rule :: rest =>
      (resetMatchGroups ;;;
       b <- PatternEWasm.matches (pattern rule) _expr _dialect _ssaValues ;;
       if b then
         match feasible rule with
         | None => ret (Some rule)
         | Some f =>
             ok <- f ;;
             if ok then ret (Some rule)
             else findFirstMatchEWasm_loop rest _expr _dialect _ssaValues
         end
       else findFirstMatchEWasm_loop rest _expr _dialect _ssaValues)%M
  end.

(** [findFirstMatchEWasm]; indexing [m_rulesEWasm] with a name it does
    not hold yet creates the (empty) bucket. *)
Definition findFirstMatchEWasm (rules : t) (_expr : Expression) (_dialect : Dialect)
    (_ssaValues : SSAValues) : Result (option RuleEWasm) * t :=
  if negb (isInitialized rules) then
    (Throw (OptimizerException "Rule list not properly initialized."), rules)
  else
    match _expr with
    | FunctionCall _ functionName _ =>
        match builtin _dialect (name functionName) with
        | Some _ =>
            let funName := name functionName in
            let table :=
              match m_rulesEWasm rules !! funName with
              | Some _ => m_rulesEWasm rules
              | None => <[funName := []]> (m_rulesEWasm rules)
              end in
            let '(r, mg) :=
              findFirstMatchEWasm_loop (bucketEWasm rules funName)
                _expr _dialect _ssaValues (m_matchGroups rules) in
            (r, mk mg (m_rules rules) table)
        | None => (Ok None, rules)
        end
    | _ => (Ok None, rules)
    end.

End Engine.
End SimplificationRules.

(** ** A reference implementation of the collaborators

    Used to run the matcher on concrete inputs. *)

Module Reference.

(** Two argument vectors compared element by element. *)
Section All2.
Context {A : Type}.
Variable f : A -> A -> bool.
Fixpoint all2 (l1 l2 : list A) : bool :=
  match l1, l2 with
  | [], [] => true
  | x :: l1', y :: l2' => f x y && all2 l1' l2'
  | _, _ => false
  end.
End All2.

(** Modelled from the spec: [SyntacticallyEqual] (SyntacticalEquality.cpp is
    outside the slice) decides structural identity of two expression
    nodes; source locations play no part. *)
Fixpoint syntacticallyEqual (a b : Expression) {struct a} : bool :=
  match a, b with
  | FunctionalInstruction _ i1 args1, FunctionalInstruction _ i2 args2 =>
      bool_decide (i1 = i2) && all2 syntacticallyEqual args1 args2
  | FunctionCall _ f1 args1, FunctionCall _ f2 args2 =>
      bool_decide (name f1 = name f2) && all2 syntacticallyEqual args1 args2
  | EIdentifier i1, EIdentifier i2 => bool_decide (name i1 = name i2)
  | ELiteral l1, ELiteral l2 =>
      bool_decide (kind l1 = kind l2) && bool_decide (value l1 = value l2) &&
      bool_decide (type l1 = type l2)
  | _, _ => false
  end.

(** Modelled from the spec: the movability analysis (Semantics.cpp is
    outside the slice) decides whether evaluating an expression twice is
    safe.  Here: literals and variables are, an operation is when its
    opcode is below [0x20] (arithmetic, comparison, bitwise) and its
    arguments are, a call is when it is such a builtin of the dialect. *)
Fixpoint isMovable (d : Dialect) (e : Expression) {struct e} : bool :=
  match e with
  | FunctionalInstruction _ i args =>
      (i <? 32)%N && forallb (isMovable d) args
  | FunctionCall _ f args =>
      match builtin d (name f) with
      | Some (mkBuiltin (Some i)) => (i <? 32)%N && forallb (isMovable d) args
      | _ => false
      end
  | EIdentifier _ => true
  | ELiteral _ => true
  end.

(** Modelled from the spec: the AST copier (ASTCopier.cpp is outside the
    slice) produces an independent copy of the subtree, node by node. *)
Fixpoint copy (e : Expression) : Expression :=
  match e with
  | FunctionalInstruction l i args => FunctionalInstruction l i (map copy args)
  | FunctionCall l f args =>
      FunctionCall l (mkIdentifier (id_location f) (name f)) (map copy args)
  | EIdentifier i => EIdentifier (mkIdentifier (id_location i) (name i))
  | ELiteral l => ELiteral (mkLiteral (lit_location l) (kind l) (value l) (type l))
  end.

(** Modelled from the spec: the decoded value of a numeric literal; decimal
    digit strings only, anything else decodes to 0. *)
Definition parseNumber (s : string) : Z :=
  match NilZero.uint_of_string s with
  | Some u => Z.of_uint u
  | None => 0
  end.

(** Modelled from the spec: [valueOfNumberLiteral] (Utilities.cpp is outside
    the slice) gives the decoded value of a literal of kind [Number] and
    throws on every other literal. *)
Definition numberValue (l : Literal) : option Z :=
  match kind l with
  | Number => Some (parseNumber (value l))
  | _ => None
  end.

Definition printNumber (v : Z) : string := NilZero.string_of_uint (N.to_uint (Z.to_N v)).

Definition opcodeName (i : Instruction) : string :=
  if bool_decide (i = Instr.ADD) then "ADD"
  else if bool_decide (i = Instr.MUL) then "MUL"
  else if bool_decide (i = Instr.SUB) then "SUB"
  else "INVALID".

#[global] Instance collaborators : Collaborators := {|
  SyntacticallyEqual := syntacticallyEqual;
  movable := isMovable;
  translate := copy;
  u256_of_string := parseNumber;
  valueOfNumberLiteral := numberValue;
  valueOfNumberLiteral_kind := fun l =>
    match kind l as k
      return k <> Number ->
             match k with Number => Some (parseNumber (value l)) | _ => None end = None
    with
    | Number => fun N => False_ind _ (N eq_refl)
    | _ => fun _ => eq_refl
    end;
  formatNumber := printNumber;
  instructionInfo_name := opcodeName
|}.

Definition here : SourceLocation := mkSourceLocation 0 0.
Definition there : SourceLocation := mkSourceLocation 7 9.

Definition var (x : string) : Expression := EIdentifier (mkIdentifier here x).
Definition num (s : string) : Expression := ELiteral (mkLiteral here Number s EmptyString).

(** An EVM dialect whose only builtins are [add] and [mload]. *)
Definition evm : Dialect :=
  mkDialect true (fun n =>
    if bool_decide (n = "add") then Some (mkBuiltin (Some Instr.ADD))
    else if bool_decide (n = "mload") then Some (mkBuiltin (Some Instr.MLOAD))
    else None).

(** A wasm dialect with three builtins. *)
Definition wasm : Dialect :=
  mkDialect false (fun n =>
    if bool_decide (n = "i64.add") then Some (mkBuiltin None)
    else if bool_decide (n = "i64.ne") then Some (mkBuiltin None)
    else if bool_decide (n = "i64.load") then Some (mkBuiltin None)
    else None).

End Reference.

(** ** Which records are patterns

    The fields of a pattern are private; an object of the class is built by
    one of its constructors and changed by [setMatchGroup] only. *)

Module Constructible.

Inductive pattern : Pattern.t -> Prop :=
| ofKind k : pattern (Pattern.ofKind k)
| ofValue v : pattern (Pattern.ofValue v)
| ofInstruction i args :
    Forall pattern args -> pattern (Pattern.ofInstruction i args)
| setMatchGroup g p : pattern p -> pattern (Pattern.setMatchGroup g p).

Inductive patternEWasm : PatternEWasm.t -> Prop :=
| ofKindEWasm k : patternEWasm (PatternEWasm.ofKind k)
| ofValueEWasm v : patternEWasm (PatternEWasm.ofValue v)
| ofBuiltin b args :
    Forall patternEWasm args -> patternEWasm (PatternEWasm.ofBuiltin b args)
| setMatchGroupEWasm g p :
    patternEWasm p -> patternEWasm (PatternEWasm.setMatchGroup g p).

End Constructible.

(** ** Example patterns and expressions *)

Module Examples.
Import Reference.

(** The group patterns of the constructor: [A] is a constant, [X] anything. *)
Definition A := Pattern.setMatchGroup 1 (Pattern.ofKind Constant).
Definition X := Pattern.setMatchGroup 5 (Pattern.ofKind Any).
Definition AW := PatternEWasm.setMatchGroup 1 (PatternEWasm.ofKind Constant).
Definition XW := PatternEWasm.setMatchGroup 5 (PatternEWasm.ofKind Any).

Definition add (a b : Expression) : Expression :=
  FunctionCall here (mkIdentifier here "add") [a; b].
Definition i64add (a b : Expression) : Expression :=
  FunctionCall here (mkIdentifier here "i64.add") [a; b].

(** 2^64 + 5 *)
Definition big : string := "18446744073709551621".
End Examples.

(** ** What first-match promises, in the words of the specification

    A rule accepts an expression when its pattern matches it from a freshly
    reset table and its feasibility predicate, if it has one, then returns
    true; [mg'] is the table this leaves.  A rule rejects the expression
    when the pattern returns false, or matches and the predicate returns
    false.  [matches] is the matcher of the rule's pattern class. *)

Module FirstMatch.
Section Spec.
Context {P : Type}.
Variable matches : P -> Expression -> Dialect -> SSAValues -> M bool.

Definition accepts (rule : SimplificationRule P) (e : Expression) (d : Dialect)
    (ssa : SSAValues) (mg' : MatchGroups) : Prop :=
  exists mg1,
    matches (pattern rule) e d ssa ∅ = (Ok true, mg1) /\
    match feasible rule with
    | None => mg' = mg1
    | Some f => f mg1 = (Ok true, mg')
    end.

Definition rejects (rule : SimplificationRule P) (e : Expression) (d : Dialect)
    (ssa : SSAValues) : Prop :=
  exists mg1,
    matches (pattern rule) e d ssa ∅ = (Ok false, mg1) \/
    (matches (pattern rule) e d ssa ∅ = (Ok true, mg1) /\
     exists f mg2, feasible rule = Some f /\ f mg1 = (Ok false, mg2)).
End Spec.
End FirstMatch.

(** ** An example engine

    Modelled from the spec: [libevmasm/RuleList.h] is outside the slice; the
    lists below stand for a few of its identities (x + 0 = x, constant
    folding of an addition, x - x = 0, and one rooted at [SDIV]), written
    once per pattern class with the operator names of [EWasmBuiltins]. *)

Module ExampleEngine.
Import Reference.

Definition ruleList (A B C W X Y Z : Pattern.t) : list SimplificationRules.Rule :=
  [ mkRule (Pattern.ofInstruction Instr.ADD [X; Pattern.ofValue 0]) (ret X) false None;
    mkRule (Pattern.ofInstruction Instr.ADD [A; B])
      (a <- Pattern.d A ;; b <- Pattern.d B ;;
       ret (Pattern.ofValue ((a + b) mod 2 ^ 256)))%M false None;
    mkRule (Pattern.ofInstruction Instr.SUB [X; X]) (ret (Pattern.ofValue 0)) true None ].

Definition ruleListEWasm (A B C W X Y Z : PatternEWasm.t)
  : list SimplificationRules.RuleEWasm :=
  [ mkRule (PatternEWasm.ofBuiltin EWasmBuiltins.ADD [X; PatternEWasm.ofValue 0])
      (ret X) false None;
    mkRule (PatternEWasm.ofBuiltin EWasmBuiltins.SDIV [X; PatternEWasm.ofValue 1])
      (ret X) false None;
    mkRule (PatternEWasm.ofBuiltin EWasmBuiltins.SUB [X; X])
      (ret (PatternEWasm.ofValue 0)) true None ].

(** The engine the constructor builds from them. *)
Definition rules : SimplificationRules.t :=
  match SimplificationRules.construct ruleList ruleListEWasm with
  | Ok r => r
  | Throw _ => SimplificationRules.initial
  end.

(** A rule list in which a later rule would also match x + 0. *)
Definition first : SimplificationRules.Rule :=
  mkRule (Pattern.ofInstruction Instr.ADD [Examples.X; Pattern.ofValue 0])
    (ret Examples.X) false None.
Definition second : SimplificationRules.Rule :=
  mkRule (Pattern.ofInstruction Instr.ADD [Examples.X; Examples.A])
    (ret Examples.X) false (Some (ret true)).
Definition never : SimplificationRules.Rule :=
  mkRule (Pattern.ofInstruction Instr.ADD [Examples.A; Examples.X])
    (ret Examples.X) false None.
Definition firstW : SimplificationRules.RuleEWasm :=
  mkRule (PatternEWasm.ofBuiltin "i64.add" [Examples.XW; PatternEWasm.ofValue 0])
    (ret Examples.XW) false None.
Definition neverW : SimplificationRules.RuleEWasm :=
  mkRule (PatternEWasm.ofBuiltin "i64.add" [Examples.AW; Examples.XW])
    (ret Examples.XW) false None.

Definition ordered : SimplificationRules.t :=
  SimplificationRules.mk ∅
    (<[uint8_t Instr.ADD := [never; first; second]]> (replicate 256 []))
    {[ "i64.add" := [neverW; firstW] ]}.
End ExampleEngine.

(** ** Invariants of the match-group table

    A table holds no null pointer; a computation grows the table when it
    only adds bindings to it and adds no null pointer. *)

Definition noNullGroup (mg : MatchGroups) : Prop :=
  forall g, mg !! g <> Some None.

Definition extends (mg mg' : MatchGroups) : Prop :=
  mg ⊆ mg' /\ (noNullGroup mg -> noNullGroup mg').

Definition grows {A} (m : M A) : Prop :=
  forall mg r mg', m mg = (r, mg') -> extends mg mg'.

(** The expressions a match can reach from the expression it is given: the
    expression itself, the arguments of an operation or call, and the SSA
    value of a variable. *)
Inductive subexpression (ssa : SSAValues) : Expression -> Expression -> Prop :=
| sub_here e : subexpression ssa e e
| sub_instruction l i args a v :
    In a args -> subexpression ssa a v ->
    subexpression ssa (FunctionalInstruction l i args) v
| sub_call l f args a v :
    In a args -> subexpression ssa a v ->
    subexpression ssa (FunctionCall l f args) v
| sub_ssa i w v :
    ssa !! name i = Some (Some w) -> subexpression ssa w v ->
    subexpression ssa (EIdentifier i) v.

(** A computation binds within [S] when every expression the table holds
    after it was there before or satisfies [S]. *)
Definition bindsWithin {A} (S : Expression -> Prop) (m : M A) : Prop :=
  forall mg r mg', m mg = (r, mg') ->
  forall g v, mg' !! g = Some (Some v) -> mg !! g = Some (Some v) \/ S v.

(** The same with a set of expressions for each group id. *)
Definition bindsAt {A} (S : N -> Expression -> Prop) (m : M A) : Prop :=
  forall mg r mg', m mg = (r, mg') ->
  forall g v, mg' !! g = Some (Some v) -> mg !! g = Some (Some v) \/ S g v.

(** What group [g] captures when pattern [p] is matched against [e]: the
    group sits on a pattern of the tree that is no operation, and what is
    stored for it is the expression standing at that position, as it is for
    an [Any] pattern and with the variable looked through for a [Constant]
    pattern; the positions below an operation are those of its children,
    each against the argument of the same index. *)
Section Captured.
Variables (d : Dialect) (ssa : SSAValues) (g : N).

Inductive captured : Pattern.t -> Expression -> Expression -> Prop :=
| captured_here p e :
    Pattern.m_kind p <> Operation -> Pattern.m_matchGroup p = g ->
    captured p e (resolveVariable (Pattern.m_kind p) e ssa)
| captured_below p e args q a v :
    Pattern.m_kind p = Operation ->
    instructionAndArguments d (resolveVariable Operation e ssa)
      = Some (Pattern.m_instruction p, args) ->
    In (q, a) (combine (Pattern.m_arguments p) args) ->
    captured q a v -> captured p e v.
End Captured.


(** ** Induction principles for the nested trees *)

Section ExpressionInduction.
Variable P : Expression -> Prop.
Hypothesis onInstruction : forall l i args, Forall P args -> P (FunctionalInstruction l i args).
Hypothesis onCall : forall l f args, Forall P args -> P (FunctionCall l f args).
Hypothesis onIdentifier : forall i, P (EIdentifier i).
Hypothesis onLiteral : forall l, P (ELiteral l).

Fixpoint expression_induction (e : Expression) : P e :=
  let all :=
    fix all (l : list Expression) : Forall P l :=
      match l with
      | [] => @List.Forall_nil _ P
      | x :: l' => @List.Forall_cons _ P x l' (expression_induction x) (all l')
      end in
  match e with
  | FunctionalInstruction l i args => onInstruction l i args (all args)
  | FunctionCall l f args => onCall l f args (all args)
  | EIdentifier i => onIdentifier i
  | ELiteral l => onLiteral l
  end.
End ExpressionInduction.

(** Induction over a pattern and its children. *)
Section PatternInduction.
Variable P : Pattern.t -> Prop.
Hypothesis step : forall p, Forall P (Pattern.m_arguments p) -> P p.

Fixpoint pattern_induction (p : Pattern.t) : P p :=
  step p
    (match p as p0 return Forall P (Pattern.m_arguments p0) with
     | Pattern.mk _ _ _ args _ =>
         (fix all (l : list Pattern.t) : Forall P l :=
            match l with
            | [] => @List.Forall_nil _ P
            | q :: l' => @List.Forall_cons _ P q l' (pattern_induction q) (all l')
            end) args
     end).
End PatternInduction.

Section PatternEWasmInduction.
Variable P : PatternEWasm.t -> Prop.
Hypothesis step : forall p, Forall P (PatternEWasm.m_arguments p) -> P p.

Fixpoint patternEWasm_induction (p : PatternEWasm.t) : P p :=
  step p
    (match p as p0 return Forall P (PatternEWasm.m_arguments p0) with
     | PatternEWasm.mk _ _ _ args _ =>
         (fix all (l : list PatternEWasm.t) : Forall P l :=
            match l with
            | [] => @List.Forall_nil _ P
            | q :: l' => @List.Forall_cons _ P q l' (patternEWasm_induction q) (all l')
            end) args
     end).
End PatternEWasmInduction.

(** ** The shape a pattern describes

    A pattern without regard to its groups: [Any] describes every
    expression, [Constant] a numeric literal (of the fixed value, if there
    is one), [Operation] an expression whose operator resolves to the
    pattern's and whose arguments the children describe one by one; the
    variable is looked through as [matches] does it. *)

Section Shape.
Context `{Collaborators}.
Variables (d : Dialect) (ssa : SSAValues).

Inductive shape : Pattern.t -> Expression -> Prop :=
| shape_Any p e : Pattern.m_kind p = Any -> shape p e
| shape_Constant p e l :
    Pattern.m_kind p = Constant ->
    resolveVariable Constant e ssa = ELiteral l -> kind l = Number ->
    (forall v, Pattern.m_data p = Some v -> v = u256_of_string (value l)) ->
    shape p e
| shape_Operation p e args :
    Pattern.m_kind p = Operation ->
    instructionAndArguments d (resolveVariable Operation e ssa)
      = Some (Pattern.m_instruction p, args) ->
    Forall2 shape (Pattern.m_arguments p) args ->
    shape p e.
End Shape.

(** No pattern of the tree carries a group id. *)
Inductive groupFree : Pattern.t -> Prop :=
| groupFree_node p :
    Pattern.m_matchGroup p = 0%N -> Forall groupFree (Pattern.m_arguments p) ->
    groupFree p.

(** A computation that leaves the table as it found it, whatever it returns. *)
Definition readsOnly {A} (m : M A) : Prop :=
  forall mg r mg', m mg = (r, mg') -> mg' = mg.

(** ** Patterns that can be turned into expressions *)

(** The loop of lines 299-300 on its own: the children reconstructed in
    order. *)
Definition toExpressionAll `{Collaborators} (_location : SourceLocation)
  : list Pattern.t -> M (list Expression) :=
  fix loop (args : list Pattern.t) : M (list Expression) :=
    match args with
    | [] => ret []
    | arg :: rest =>
        (a <- Pattern.toExpression arg _location ;;
         r <- loop rest ;;
         ret (a :: r))%M
    end.

(** A pattern is grounded in a table when its group is bound to an
    expression or, without a group, when it is a constant with a fixed value
    or an operation whose children are grounded. *)
Inductive grounded (mg : MatchGroups) : Pattern.t -> Prop :=
| grounded_group q v :
    Pattern.m_matchGroup q <> 0%N -> mg !! Pattern.m_matchGroup q = Some (Some v) ->
    grounded mg q
| grounded_constant q v :
    Pattern.m_matchGroup q = 0%N -> Pattern.m_kind q = Constant ->
    Pattern.m_data q = Some v -> grounded mg q
| grounded_operation q :
    Pattern.m_matchGroup q = 0%N -> Pattern.m_kind q = Operation ->
    Forall (grounded mg) (Pattern.m_arguments q) -> grounded mg q.

(** The loop of lines 439-440 on its own: the children reconstructed in
    order. *)
Definition toExpressionAllEWasm `{Collaborators} (_location : SourceLocation)
  : list PatternEWasm.t -> M (list Expression) :=
  fix loop (args : list PatternEWasm.t) : M (list Expression) :=
    match args with
    | [] => ret []
    | arg :: rest =>
        (a <- PatternEWasm.toExpression arg _location ;;
         r <- loop rest ;;
         ret (a :: r))%M
    end.

(** The same for the patterns of the eWasm class. *)
Inductive groundedEWasm (mg : MatchGroups) : PatternEWasm.t -> Prop :=
| groundedEWasm_group q v :
    PatternEWasm.m_matchGroup q <> 0%N -> mg !! PatternEWasm.m_matchGroup q = Some (Some v) ->
    groundedEWasm mg q
| groundedEWasm_constant q v :
    PatternEWasm.m_matchGroup q = 0%N -> PatternEWasm.m_kind q = Constant ->
    PatternEWasm.m_data q = Some v -> groundedEWasm mg q
| groundedEWasm_operation q :
    PatternEWasm.m_matchGroup q = 0%N -> PatternEWasm.m_kind q = Operation ->
    Forall (groundedEWasm mg) (PatternEWasm.m_arguments q) -> groundedEWasm mg q.

(** * Properties *)

(** ** The monad on a given table *)

Lemma bind_ok {A B} (m : M A) (k : A -> M B) mg a mg' :
  m mg = (Ok a, mg') -> bind m k mg = k a mg'.
Proof. intros E. unfold bind. now rewrite E. Qed.

Lemma bind_throw {A B} (m : M A) (k : A -> M B) mg e mg' :
  m mg = (Throw e, mg') -> bind m k mg = (Throw e, mg').
Proof. intros E. unfold bind. now rewrite E. Qed.

Lemma bind_inv_ok {A B} (m : M A) (k : A -> M B) mg b mg' :
  bind m k mg = (Ok b, mg') ->
  exists a mg1, m mg = (Ok a, mg1) /\ k a mg1 = (Ok b, mg').
Proof.
  unfold bind. destruct (m mg) as [[a|e] mg1]; intros E; [eauto | discriminate].
Qed.

Lemma empty_nil {A} (l : list A) : empty l = true <-> l = [].
Proof. destruct l; simpl; split; congruence. Qed.

(** ** Constructed patterns *)

Lemma constructible_arguments p :
  Constructible.pattern p -> Pattern.m_kind p <> Operation -> Pattern.m_arguments p = [].
Proof. induction 1; simpl; auto; congruence. Qed.

Lemma constructible_argumentsEWasm p :
  Constructible.patternEWasm p ->
  PatternEWasm.m_kind p <> Operation -> PatternEWasm.m_arguments p = [].
Proof. induction 1; simpl; auto; congruence. Qed.

(** ** Unfolding the matcher *)

Section MatcherFacts.
Context `{Collaborators}.

Lemma matches_Any p e d ssa mg :
  Pattern.m_kind p = Any -> Pattern.m_arguments p = [] ->
  Pattern.matches p e d ssa mg =
  matchGroupCheck Any (Pattern.m_matchGroup p) e e d mg.
Proof.
  destruct p as [k i dt args g]; simpl; intros -> ->. reflexivity.
Qed.

Lemma matches_Constant p e d ssa mg :
  Pattern.m_kind p = Constant -> Pattern.m_arguments p = [] ->
  Pattern.matches p e d ssa mg =
  match resolveVariable Constant e ssa with
  | ELiteral l =>
      if bool_decide (kind l <> Number) then (Ok false, mg)
      else
        match Pattern.m_data p with
        | Some data =>
            if bool_decide (data <> u256_of_string (value l)) then (Ok false, mg)
            else matchGroupCheck Constant (Pattern.m_matchGroup p) e
                   (resolveVariable Constant e ssa) d mg
        | None => matchGroupCheck Constant (Pattern.m_matchGroup p) e
                    (resolveVariable Constant e ssa) d mg
        end
  | _ => (Ok false, mg)
  end.
Proof.
  destruct p as [k i dt args g]; simpl; intros -> ->.
  destruct (resolveVariable Constant e ssa) as [| | |l]; try reflexivity.
  unfold bind. destruct (bool_decide (kind l <> Number)); [reflexivity|].
  destruct dt as [v|]; [|reflexivity].
  destruct (bool_decide (v <> u256_of_string (value l))); reflexivity.
Qed.

Lemma matches_unfold p e d ssa :
  Pattern.matches p e d ssa =
  (let expr := resolveVariable (Pattern.m_kind p) e ssa in
   structural <-
     match Pattern.m_kind p with
     | Constant =>
         match expr with
         | ELiteral literal =>
             if bool_decide (kind literal <> Number) then ret false
             else
               match Pattern.m_data p with
               | Some data =>
                   if bool_decide (data <> u256_of_string (value literal))
                   then ret false
                   else assertThrow (empty (Pattern.m_arguments p)) EmptyString ;;;
                        ret true
               | None =>
                   assertThrow (empty (Pattern.m_arguments p)) EmptyString ;;;
                   ret true
               end
         | _ => ret false
         end
     | Operation =>
         match instructionAndArguments d expr with
         | None => ret false
         | Some (instr, args) =>
             if bool_decide (Pattern.m_instruction p <> instr) then ret false
             else
               assertThrow (length (Pattern.m_arguments p) =? length args)%nat
                 EmptyString ;;;
               Pattern.matchesAll d ssa (Pattern.m_arguments p) args
         end
     | Any =>
         assertThrow (empty (Pattern.m_arguments p)) any_with_arguments ;;;
         ret true
     end ;;
   if structural
   then matchGroupCheck (Pattern.m_kind p) (Pattern.m_matchGroup p) e expr d
   else ret false)%M.
Proof. destruct p; reflexivity. Qed.

Lemma matches_Operation p e d ssa mg :
  Pattern.m_kind p = Operation ->
  Pattern.matches p e d ssa mg =
  match instructionAndArguments d (resolveVariable Operation e ssa) with
  | None => (Ok false, mg)
  | Some (instr, args) =>
      if bool_decide (Pattern.m_instruction p <> instr) then (Ok false, mg)
      else if (length (Pattern.m_arguments p) =? length args)%nat then
        match Pattern.matchesAll d ssa (Pattern.m_arguments p) args mg with
        | (Ok true, mg1) =>
            matchGroupCheck Operation (Pattern.m_matchGroup p) e
              (resolveVariable Operation e ssa) d mg1
        | (Ok false, mg1) => (Ok false, mg1)
        | (Throw x, mg1) => (Throw x, mg1)
        end
      else (Throw (OptimizerException EmptyString), mg)
  end.
Proof.
  intros K. rewrite matches_unfold, K. cbv zeta.
  destruct (instructionAndArguments d (resolveVariable Operation e ssa))
    as [[instr es]|]; [|reflexivity].
  unfold bind at 1.
  destruct (bool_decide (Pattern.m_instruction p <> instr)); [reflexivity|].
  unfold bind at 1.
  destruct (length (Pattern.m_arguments p) =? length es)%nat; [|reflexivity].
  simpl.
  destruct (Pattern.matchesAll d ssa (Pattern.m_arguments p) es mg)
    as [[[|]|x] mg1]; reflexivity.
Qed.

End MatcherFacts.

(** ** The match-group check *)

Section GroupCheck.
Context `{Collaborators}.

Lemma groupCheck_none k _e e d mg :
  matchGroupCheck k 0%N _e e d mg = (Ok true, mg).
Proof. reflexivity. Qed.

Lemma groupCheck_bound_Any g first _e e d (mg : MatchGroups) :
  g <> 0%N -> mg !! g = Some (Some first) ->
  matchGroupCheck Any g _e e d mg =
  (Ok (SyntacticallyEqual first _e && movable d _e), mg).
Proof.
  intros G L. unfold matchGroupCheck.
  rewrite (bool_decide_eq_true_2 _ G).
  unfold bind, count, subscript. rewrite L.
  rewrite bool_decide_eq_true_2 by eauto. simpl. rewrite L. reflexivity.
Qed.

Lemma groupCheck_bound_other k g _e e d (mg : MatchGroups) :
  g <> 0%N -> is_Some (mg !! g) -> k <> Any ->
  matchGroupCheck k g _e e d mg =
  (Throw (OptimizerException "Match group repetition for non-any."), mg).
Proof.
  intros G L K. unfold matchGroupCheck.
  rewrite (bool_decide_eq_true_2 _ G).
  unfold bind, count. rewrite (bool_decide_eq_true_2 _ L).
  rewrite (bool_decide_eq_false_2 _ K). reflexivity.
Qed.

Lemma groupCheck_unbound_Any g _e e d (mg : MatchGroups) :
  g <> 0%N -> mg !! g = None ->
  matchGroupCheck Any g _e e d mg = (Ok true, <[g := Some _e]> mg).
Proof.
  intros G L. unfold matchGroupCheck.
  rewrite (bool_decide_eq_true_2 _ G).
  unfold bind, count. rewrite L.
  rewrite bool_decide_eq_false_2 by (intros [? ?]; discriminate).
  reflexivity.
Qed.

Lemma groupCheck_unbound_Constant g _e e d (mg : MatchGroups) :
  g <> 0%N -> mg !! g = None ->
  matchGroupCheck Constant g _e e d mg = (Ok true, <[g := Some e]> mg).
Proof.
  intros G L. unfold matchGroupCheck.
  rewrite (bool_decide_eq_true_2 _ G).
  unfold bind, count. rewrite L.
  rewrite bool_decide_eq_false_2 by (intros [? ?]; discriminate).
  reflexivity.
Qed.

Lemma groupCheck_unbound_Operation g _e e d (mg : MatchGroups) :
  g <> 0%N -> mg !! g = None ->
  matchGroupCheck Operation g _e e d mg =
  (Throw (OptimizerException "Match group set for operation."), mg).
Proof.
  intros G L. unfold matchGroupCheck.
  rewrite (bool_decide_eq_true_2 _ G).
  unfold bind, count. rewrite L.
  rewrite bool_decide_eq_false_2 by (intros [? ?]; discriminate).
  reflexivity.
Qed.

End GroupCheck.

(** ** Unfolding the eWasm matcher *)

Section MatcherFactsEWasm.
Context `{Collaborators}.

Lemma matchesEWasm_Any p e d ssa mg :
  PatternEWasm.m_kind p = Any -> PatternEWasm.m_arguments p = [] ->
  PatternEWasm.matches p e d ssa mg =
  matchGroupCheck Any (PatternEWasm.m_matchGroup p) e e d mg.
Proof.
  destruct p as [k i dt args g]; simpl; intros -> ->. reflexivity.
Qed.

Lemma matchesEWasm_Constant p e d ssa mg :
  PatternEWasm.m_kind p = Constant -> PatternEWasm.m_arguments p = [] ->
  PatternEWasm.matches p e d ssa mg =
  match resolveVariable Constant e ssa with
  | ELiteral l =>
      if bool_decide (kind l <> Number) then (Ok false, mg)
      else
        match PatternEWasm.m_data p with
        | Some data =>
            if bool_decide (data <> uint64_t (u256_of_string (value l)))
            then (Ok false, mg)
            else matchGroupCheck Constant (PatternEWasm.m_matchGroup p) e
                   (resolveVariable Constant e ssa) d mg
        | None => matchGroupCheck Constant (PatternEWasm.m_matchGroup p) e
                    (resolveVariable Constant e ssa) d mg
        end
  | _ => (Ok false, mg)
  end.
Proof.
  destruct p as [k i dt args g]; simpl; intros -> ->.
  destruct (resolveVariable Constant e ssa) as [| | |l]; try reflexivity.
  unfold bind. destruct (bool_decide (kind l <> Number)); [reflexivity|].
  destruct dt as [v|]; [|reflexivity].
  destruct (bool_decide (v <> uint64_t (u256_of_string (value l)))); reflexivity.
Qed.

Lemma matchesEWasm_unfold p e d ssa :
  PatternEWasm.matches p e d ssa =
  (let expr := resolveVariable (PatternEWasm.m_kind p) e ssa in
   structural <-
     match PatternEWasm.m_kind p with
     | Constant =>
         match expr with
         | ELiteral literal =>
             if bool_decide (kind literal <> Number) then ret false
             else
               match PatternEWasm.m_data p with
               | Some data =>
                   if bool_decide (data <> uint64_t (u256_of_string (value literal)))
                   then ret false
                   else assertThrow (empty (PatternEWasm.m_arguments p)) EmptyString ;;;
                        ret true
               | None =>
                   assertThrow (empty (PatternEWasm.m_arguments p)) EmptyString ;;;
                   ret true
               end
         | _ => ret false
         end
     | Operation =>
         match expr with
         | FunctionCall _ functionName args =>
             match builtin d (name functionName) with
             | None => ret false
             | Some _ =>
                 if bool_decide (PatternEWasm.m_instruction p <> name functionName)
                 then ret false
                 else
                   assertThrow (length (PatternEWasm.m_arguments p) =? length args)%nat
                     EmptyString ;;;
                   PatternEWasm.matchesAll d ssa (PatternEWasm.m_arguments p) args
             end
         | _ => ret false
         end
     | Any =>
         assertThrow (empty (PatternEWasm.m_arguments p)) any_with_arguments ;;;
         ret true
     end ;;
   if structural
   then matchGroupCheck (PatternEWasm.m_kind p) (PatternEWasm.m_matchGroup p) e expr d
   else ret false)%M.
Proof. destruct p; reflexivity. Qed.

Lemma matchesEWasm_Operation p e d ssa mg l f args :
  PatternEWasm.m_kind p = Operation ->
  resolveVariable Operation e ssa = FunctionCall l f args ->
  is_Some (builtin d (name f)) ->
  PatternEWasm.m_instruction p = name f ->
  PatternEWasm.matches p e d ssa mg =
  if (length (PatternEWasm.m_arguments p) =? length args)%nat then
    match PatternEWasm.matchesAll d ssa (PatternEWasm.m_arguments p) args mg with
    | (Ok true, mg1) =>
        matchGroupCheck Operation (PatternEWasm.m_matchGroup p) e
          (FunctionCall l f args) d mg1
    | (Ok false, mg1) => (Ok false, mg1)
    | (Throw x, mg1) => (Throw x, mg1)
    end
  else (Throw (OptimizerException EmptyString), mg).
Proof.
  intros K R [b B] I. rewrite matchesEWasm_unfold, K. cbv zeta. rewrite R, B.
  unfold bind at 1.
  rewrite bool_decide_eq_false_2 by (intros N; apply N, I).
  unfold bind at 1.
  destruct (length (PatternEWasm.m_arguments p) =? length args)%nat; [|reflexivity].
  simpl.
  destruct (PatternEWasm.matchesAll d ssa (PatternEWasm.m_arguments p) args mg)
    as [[[|]|x] mg1]; reflexivity.
Qed.

End MatcherFactsEWasm.

(** ** Wildcards without a group *)

(** C8: a pattern of kind [Any] that carries no match-group id matches every
    expression, under every dialect and SSA map, and leaves the match-group
    table exactly as it was; in both pattern classes. *)
Theorem any_without_group_matches_everything `{Collaborators}
    (e : Expression) (d : Dialect) (ssa : SSAValues) (mg : MatchGroups) :
  (forall p, Constructible.pattern p ->
     Pattern.m_kind p = Any -> Pattern.m_matchGroup p = 0%N ->
     Pattern.matches p e d ssa mg = (Ok true, mg)) /\
  (forall p, Constructible.patternEWasm p ->
     PatternEWasm.m_kind p = Any -> PatternEWasm.m_matchGroup p = 0%N ->
     PatternEWasm.matches p e d ssa mg = (Ok true, mg)).
Proof.
  split; intros p C K G.
  - rewrite matches_Any, G by (auto; apply constructible_arguments; congruence).
    apply groupCheck_none.
  - rewrite matchesEWasm_Any, G
      by (auto; apply constructible_argumentsEWasm; congruence).
    apply groupCheck_none.
Qed.

Lemma any_without_group_witness :
  Pattern.matches (Pattern.ofKind Any) (Reference.var "y") Reference.evm
    {[ "y" := Some (Reference.num "1") ]} {[ 5%N := Some (Reference.var "z") ]}
  = (Ok true, {[ 5%N := Some (Reference.var "z") ]}) /\
  PatternEWasm.matches (PatternEWasm.ofKind Any) (Reference.num "7") Reference.wasm
    ∅ ∅ = (Ok true, ∅).
Proof.
  split.
  - apply (proj1 (any_without_group_matches_everything _ _ _ _));
      [constructor | reflexivity | reflexivity].
  - apply (proj2 (any_without_group_matches_everything _ _ _ _));
      [constructor | reflexivity | reflexivity].
Defined.

(** ** Arity *)

(** C5: when an [Operation] pattern meets an expression that resolves to the
    pattern's own operator, a difference between the number of child
    patterns and the number of arguments makes [matches] throw
    [OptimizerException]; it does not return [false].  The table is not
    touched on the way. *)
Theorem arity_mismatch_throws `{Collaborators}
    (e : Expression) (d : Dialect) (ssa : SSAValues) (mg : MatchGroups) :
  (forall p args,
     Pattern.m_kind p = Operation ->
     instructionAndArguments d (resolveVariable Operation e ssa)
       = Some (Pattern.m_instruction p, args) ->
     length (Pattern.m_arguments p) <> length args ->
     Pattern.matches p e d ssa mg = (Throw (OptimizerException EmptyString), mg)) /\
  (forall p l f args,
     PatternEWasm.m_kind p = Operation ->
     resolveVariable Operation e ssa = FunctionCall l f args ->
     is_Some (builtin d (name f)) ->
     PatternEWasm.m_instruction p = name f ->
     length (PatternEWasm.m_arguments p) <> length args ->
     PatternEWasm.matches p e d ssa mg = (Throw (OptimizerException EmptyString), mg)).
Proof.
  split.
  - intros p args K R L. rewrite matches_Operation, R by assumption.
    rewrite bool_decide_eq_false_2 by (intros N; now apply N).
    apply Nat.eqb_neq in L. now rewrite L.
  - intros p l f args K R B I L.
    rewrite (matchesEWasm_Operation p e d ssa mg l f args) by assumption.
    apply Nat.eqb_neq in L. now rewrite L.
Qed.

Lemma arity_mismatch_witness :
  Pattern.matches (Pattern.ofInstruction Instr.ADD [Examples.X])
    (Examples.add (Reference.var "a") (Reference.var "b")) Reference.evm ∅ ∅
  = (Throw (OptimizerException EmptyString), ∅) /\
  PatternEWasm.matches (PatternEWasm.ofBuiltin "i64.add" [Examples.XW])
    (Examples.i64add (Reference.var "a") (Reference.var "b")) Reference.wasm ∅ ∅
  = (Throw (OptimizerException EmptyString), ∅).
Proof.
  split.
  - apply (proj1 (arity_mismatch_throws _ _ _ _) _
             [Reference.var "a"; Reference.var "b"]);
      [reflexivity | reflexivity | simpl; lia].
  - apply (proj2 (arity_mismatch_throws _ _ _ _) _ Reference.here
             (mkIdentifier Reference.here "i64.add")
             [Reference.var "a"; Reference.var "b"]);
      [reflexivity | reflexivity | vm_compute; eauto | reflexivity | simpl; lia].
Defined.

(** ** Constants *)

Lemma uint64_t_mod x : uint64_t x = x mod 2 ^ 64.
Proof. unfold uint64_t. now rewrite Z.land_ones by lia. Qed.

Lemma uint64_t_range x : 0 <= uint64_t x < 2 ^ 64.
Proof. rewrite uint64_t_mod. apply Z.mod_pos_bound. lia. Qed.

(** C3: a [Constant] pattern fails unless the expression, after the variable
    is looked through, is a literal of kind [Number]; with a fixed value it
    fails unless the decoded literal equals it, the 256-bit class comparing
    the decoded value itself and the 64-bit class the decoded value reduced
    modulo 2^64.  Where these tests pass and no group is set the pattern
    matches.  So against a number literal of decoded value n the 64-bit
    fixed constant c matches exactly when c = n mod 2^64 and the 256-bit
    fixed constant c exactly when c = n: a literal that decodes to
    k * 2^64 + c, with c below 2^64, matches the 64-bit constant c, and the
    256-bit constant c only for k = 0; 2^64 + 5 matches the 64-bit constant
    5 and fails against the 256-bit constant 5. *)
Theorem constant_pattern_compares_in_its_domain `{Collaborators}
    (e : Expression) (d : Dialect) (ssa : SSAValues) (mg : MatchGroups) :
  (forall p, Constructible.pattern p -> Pattern.m_kind p = Constant ->
     ((forall l, resolveVariable Constant e ssa = ELiteral l -> kind l <> Number) ->
      Pattern.matches p e d ssa mg = (Ok false, mg)) /\
     (forall l v, resolveVariable Constant e ssa = ELiteral l ->
        Pattern.m_data p = Some v -> v <> u256_of_string (value l) ->
        Pattern.matches p e d ssa mg = (Ok false, mg)) /\
     (forall l, resolveVariable Constant e ssa = ELiteral l -> kind l = Number ->
        (forall v, Pattern.m_data p = Some v -> v = u256_of_string (value l)) ->
        Pattern.m_matchGroup p = 0%N ->
        Pattern.matches p e d ssa mg = (Ok true, mg))) /\
  (forall p, Constructible.patternEWasm p -> PatternEWasm.m_kind p = Constant ->
     ((forall l, resolveVariable Constant e ssa = ELiteral l -> kind l <> Number) ->
      PatternEWasm.matches p e d ssa mg = (Ok false, mg)) /\
     (forall l v, resolveVariable Constant e ssa = ELiteral l ->
        PatternEWasm.m_data p = Some v -> v <> u256_of_string (value l) mod 2 ^ 64 ->
        PatternEWasm.matches p e d ssa mg = (Ok false, mg)) /\
     (forall l, resolveVariable Constant e ssa = ELiteral l -> kind l = Number ->
        (forall v, PatternEWasm.m_data p = Some v ->
                   v = u256_of_string (value l) mod 2 ^ 64) ->
        PatternEWasm.m_matchGroup p = 0%N ->
        PatternEWasm.matches p e d ssa mg = (Ok true, mg))) /\
  (forall l c, resolveVariable Constant e ssa = ELiteral l -> kind l = Number ->
     PatternEWasm.matches (PatternEWasm.ofValue c) e d ssa mg =
       (Ok (bool_decide (c = u256_of_string (value l) mod 2 ^ 64)), mg) /\
     Pattern.matches (Pattern.ofValue c) e d ssa mg =
       (Ok (bool_decide (c = u256_of_string (value l))), mg)) /\
  (forall l c k, resolveVariable Constant e ssa = ELiteral l -> kind l = Number ->
     0 <= c < 2 ^ 64 -> u256_of_string (value l) = k * 2 ^ 64 + c ->
     PatternEWasm.matches (PatternEWasm.ofValue c) e d ssa mg = (Ok true, mg) /\
     Pattern.matches (Pattern.ofValue c) e d ssa mg = (Ok (bool_decide (k = 0)), mg)) /\
  (forall l, resolveVariable Constant e ssa = ELiteral l -> kind l = Number ->
     u256_of_string (value l) = 2 ^ 64 + 5 ->
     PatternEWasm.matches (PatternEWasm.ofValue 5) e d ssa mg = (Ok true, mg) /\
     Pattern.matches (Pattern.ofValue 5) e d ssa mg = (Ok false, mg)).
Proof.
  assert (W : forall p, Constructible.pattern p -> Pattern.m_kind p = Constant ->
     ((forall l, resolveVariable Constant e ssa = ELiteral l -> kind l <> Number) ->
      Pattern.matches p e d ssa mg = (Ok false, mg)) /\
     (forall l v, resolveVariable Constant e ssa = ELiteral l ->
        Pattern.m_data p = Some v -> v <> u256_of_string (value l) ->
        Pattern.matches p e d ssa mg = (Ok false, mg)) /\
     (forall l, resolveVariable Constant e ssa = ELiteral l -> kind l = Number ->
        (forall v, Pattern.m_data p = Some v -> v = u256_of_string (value l)) ->
        Pattern.m_matchGroup p = 0%N ->
        Pattern.matches p e d ssa mg = (Ok true, mg))).
  { intros p C K.
    assert (A : Pattern.m_arguments p = [])
      by (apply constructible_arguments; congruence).
    repeat split.
    - intros NL. rewrite matches_Constant by assumption.
      destruct (resolveVariable Constant e ssa) as [| | |l]; try reflexivity.
      now rewrite (bool_decide_eq_true_2 _ (NL l eq_refl)).
    - intros l v R D NE. rewrite matches_Constant, R, D by assumption.
      destruct (bool_decide (kind l <> Number)); [reflexivity|].
      now rewrite (bool_decide_eq_true_2 _ NE).
    - intros l R KN D G. rewrite matches_Constant, R, G by assumption.
      rewrite bool_decide_eq_false_2 by (intros N; now apply N).
      destruct (Pattern.m_data p) as [v|]; [|reflexivity].
      rewrite bool_decide_eq_false_2 by (intros N; apply N; now apply D).
      reflexivity. }
  assert (E : forall p, Constructible.patternEWasm p ->
     PatternEWasm.m_kind p = Constant ->
     ((forall l, resolveVariable Constant e ssa = ELiteral l -> kind l <> Number) ->
      PatternEWasm.matches p e d ssa mg = (Ok false, mg)) /\
     (forall l v, resolveVariable Constant e ssa = ELiteral l ->
        PatternEWasm.m_data p = Some v -> v <> u256_of_string (value l) mod 2 ^ 64 ->
        PatternEWasm.matches p e d ssa mg = (Ok false, mg)) /\
     (forall l, resolveVariable Constant e ssa = ELiteral l -> kind l = Number ->
        (forall v, PatternEWasm.m_data p = Some v ->
                   v = u256_of_string (value l) mod 2 ^ 64) ->
        PatternEWasm.m_matchGroup p = 0%N ->
        PatternEWasm.matches p e d ssa mg = (Ok true, mg))).
  { intros p C K.
    assert (A : PatternEWasm.m_arguments p = [])
      by (apply constructible_argumentsEWasm; congruence).
    repeat split.
    - intros NL. rewrite matchesEWasm_Constant by assumption.
      destruct (resolveVariable Constant e ssa) as [| | |l]; try reflexivity.
      now rewrite (bool_decide_eq_true_2 _ (NL l eq_refl)).
    - intros l v R D NE. rewrite matchesEWasm_Constant, R, D by assumption.
      destruct (bool_decide (kind l <> Number)); [reflexivity|].
      rewrite uint64_t_mod. now rewrite (bool_decide_eq_true_2 _ NE).
    - intros l R KN D G. rewrite matchesEWasm_Constant, R, G by assumption.
      rewrite bool_decide_eq_false_2 by (intros N; now apply N).
      destruct (PatternEWasm.m_data p) as [v|]; [|reflexivity].
      rewrite uint64_t_mod.
      rewrite bool_decide_eq_false_2 by (intros N; apply N; now apply D).
      reflexivity. }
  assert (B : forall l c, resolveVariable Constant e ssa = ELiteral l -> kind l = Number ->
     PatternEWasm.matches (PatternEWasm.ofValue c) e d ssa mg =
       (Ok (bool_decide (c = u256_of_string (value l) mod 2 ^ 64)), mg) /\
     Pattern.matches (Pattern.ofValue c) e d ssa mg =
       (Ok (bool_decide (c = u256_of_string (value l))), mg)).
  { intros l c R KN. split.
    - destruct (E (PatternEWasm.ofValue c) (Constructible.ofValueEWasm c) eq_refl)
        as (_ & F & T).
      destruct (decide (c = u256_of_string (value l) mod 2 ^ 64)) as [Q|Q].
      + rewrite (bool_decide_eq_true_2 _ Q).
        apply (T l R KN); [|reflexivity]. simpl. now intros v [= <-].
      + rewrite (bool_decide_eq_false_2 _ Q). now apply (F l c R).
    - destruct (W (Pattern.ofValue c) (Constructible.ofValue c) eq_refl)
        as (_ & F & T).
      destruct (decide (c = u256_of_string (value l))) as [Q|Q].
      + rewrite (bool_decide_eq_true_2 _ Q).
        apply (T l R KN); [|reflexivity]. simpl. now intros v [= <-].
      + rewrite (bool_decide_eq_false_2 _ Q). now apply (F l c R). }
  assert (G : forall l c k, resolveVariable Constant e ssa = ELiteral l ->
     kind l = Number ->
     0 <= c < 2 ^ 64 -> u256_of_string (value l) = k * 2 ^ 64 + c ->
     PatternEWasm.matches (PatternEWasm.ofValue c) e d ssa mg = (Ok true, mg) /\
     Pattern.matches (Pattern.ofValue c) e d ssa mg = (Ok (bool_decide (k = 0)), mg)).
  { intros l c k R KN Rc V. destruct (B l c R KN) as [B1 B2]. split.
    - rewrite B1, V. rewrite bool_decide_eq_true_2; [reflexivity|].
      rewrite Z.add_comm, Z.mod_add by lia. symmetry. now apply Z.mod_small.
    - rewrite B2, V. f_equal. f_equal.
      destruct (decide (k = 0)) as [->|K].
      + now rewrite !bool_decide_eq_true_2 by lia.
      + rewrite !bool_decide_eq_false_2; [reflexivity | exact K | nia]. }
  split; [exact W|]. split; [exact E|]. split; [exact B|]. split; [exact G|].
  intros l R KN V. exact (G l 5 1 R KN ltac:(lia) V).
Qed.

Lemma constant_pattern_witness :
  (PatternEWasm.matches (PatternEWasm.ofValue 5) (Reference.var "x") Reference.wasm
     {[ "x" := Some (Reference.num Examples.big) ]} ∅ = (Ok true, ∅) /\
   Pattern.matches (Pattern.ofValue 5) (Reference.var "x") Reference.wasm
     {[ "x" := Some (Reference.num Examples.big) ]} ∅ = (Ok false, ∅)) /\
  (PatternEWasm.matches (PatternEWasm.ofValue 6) (Reference.var "x") Reference.wasm
     {[ "x" := Some (Reference.num Examples.big) ]} ∅ = (Ok false, ∅) /\
   Pattern.matches (Pattern.ofValue (2 ^ 64 + 5)) (Reference.var "x") Reference.wasm
     {[ "x" := Some (Reference.num Examples.big) ]} ∅ = (Ok true, ∅)).
Proof.
  pose (ssa := ({[ "x" := Some (Reference.num Examples.big) ]} : SSAValues)).
  assert (R : resolveVariable Constant (Reference.var "x") ssa =
              ELiteral (mkLiteral Reference.here Number Examples.big EmptyString))
    by (vm_compute; reflexivity).
  pose proof (constant_pattern_compares_in_its_domain
                (Reference.var "x") Reference.wasm ssa ∅) as (_ & _ & B & _ & G).
  split.
  - apply (G _ R eq_refl). vm_compute. reflexivity.
  - split.
    + exact (proj1 (B _ 6 R eq_refl)).
    + exact (proj2 (B _ (2 ^ 64 + 5) R eq_refl)).
Defined.

(** ** The rule engine *)

(** C7: when the leading operator of the expression does not resolve,
    [findFirstMatch] and [findFirstMatchEWasm] return null without throwing
    and without trying a rule: the engine, its match-group table included,
    is left as it was.  A literal, a variable reference and a call of a name
    the dialect does not know are such expressions. *)
Theorem unresolved_operator_finds_nothing `{Collaborators}
    (rules : SimplificationRules.t) (e : Expression) (d : Dialect) (ssa : SSAValues) :
  SimplificationRules.isInitialized rules = true ->
  (instructionAndArguments d e = None ->
   SimplificationRules.findFirstMatch rules e d ssa = (Ok None, rules)) /\
  ((forall l f args, e = FunctionCall l f args -> builtin d (name f) = None) ->
   SimplificationRules.findFirstMatchEWasm rules e d ssa = (Ok None, rules)) /\
  ((exists l, e = ELiteral l) \/ (exists i, e = EIdentifier i) \/
   (exists l f args, e = FunctionCall l f args /\ builtin d (name f) = None) ->
   SimplificationRules.findFirstMatch rules e d ssa = (Ok None, rules) /\
   SimplificationRules.findFirstMatchEWasm rules e d ssa = (Ok None, rules)).
Proof.
  intros I.
  assert (A : instructionAndArguments d e = None ->
              SimplificationRules.findFirstMatch rules e d ssa = (Ok None, rules)).
  { intros R. unfold SimplificationRules.findFirstMatch. now rewrite I, R. }
  assert (B : (forall l f args, e = FunctionCall l f args -> builtin d (name f) = None) ->
              SimplificationRules.findFirstMatchEWasm rules e d ssa = (Ok None, rules)).
  { intros R. unfold SimplificationRules.findFirstMatchEWasm. rewrite I. simpl.
    destruct e as [l i args|l f args|i|l]; try reflexivity.
    now rewrite (R l f args eq_refl). }
  split; [exact A|]. split; [exact B|].
  intros [[l ->]|[[i ->]|(l & f & args & -> & N)]]; split;
    try (apply A; simpl; try rewrite N; try destruct (isEVMDialect d); reflexivity);
    apply B; intros l' f' args' E; try discriminate E.
  now injection E as <- <- <-.
Qed.

Lemma unresolved_operator_witness :
  SimplificationRules.findFirstMatch ExampleEngine.rules
    (FunctionCall Reference.here (mkIdentifier Reference.here "f") [Reference.num "1"])
    Reference.evm ∅ = (Ok None, ExampleEngine.rules) /\
  SimplificationRules.findFirstMatchEWasm ExampleEngine.rules
    (FunctionCall Reference.here (mkIdentifier Reference.here "f") [Reference.num "1"])
    Reference.evm ∅ = (Ok None, ExampleEngine.rules).
Proof.
  apply (proj2 (proj2 (unresolved_operator_finds_nothing ExampleEngine.rules
                         (FunctionCall Reference.here
                            (mkIdentifier Reference.here "f") [Reference.num "1"])
                         Reference.evm ∅ eq_refl))).
  right. right.
  exists Reference.here, (mkIdentifier Reference.here "f"), [Reference.num "1"].
  split; reflexivity.
Defined.

Section FirstMatchFacts.
Context `{Collaborators}.
Variables (e : Expression) (d : Dialect) (ssa : SSAValues).

Lemma loop_skips q rest mg0 :
  FirstMatch.rejects Pattern.matches q e d ssa ->
  exists mg1,
    SimplificationRules.findFirstMatch_loop (q :: rest) e d ssa mg0 =
    SimplificationRules.findFirstMatch_loop rest e d ssa mg1.
Proof.
  intros [mg1 [R|[R (f & mg2 & F & FR)]]]; simpl; unfold bind; simpl; rewrite R.
  - now exists mg1.
  - rewrite F, FR. now exists mg2.
Qed.

Lemma loop_takes r rest mg0 mg' :
  FirstMatch.accepts Pattern.matches r e d ssa mg' ->
  SimplificationRules.findFirstMatch_loop (r :: rest) e d ssa mg0 = (Ok (Some r), mg').
Proof.
  intros (mg1 & R & F); simpl; unfold bind; simpl; rewrite R.
  destruct (feasible r) as [f|]; [now rewrite F | now subst].
Qed.

Lemma loop_first pre r post mg0 mg' :
  Forall (fun q => FirstMatch.rejects Pattern.matches q e d ssa) pre ->
  FirstMatch.accepts Pattern.matches r e d ssa mg' ->
  SimplificationRules.findFirstMatch_loop (pre ++ r :: post) e d ssa mg0 =
  (Ok (Some r), mg').
Proof.
  intros Hpre Hr. revert mg0.
  induction Hpre as [|q pre Hq _ IH]; intros mg0.
  - now apply loop_takes.
  - rewrite <- app_comm_cons.
    destruct (loop_skips q (pre ++ r :: post) mg0 Hq) as [mg1 ->]. apply IH.
Qed.

Lemma loop_none bucket mg0 :
  Forall (fun q => FirstMatch.rejects Pattern.matches q e d ssa) bucket ->
  fst (SimplificationRules.findFirstMatch_loop bucket e d ssa mg0) = Ok None.
Proof.
  intros Hb. revert mg0. induction Hb as [|q rest Hq _ IH]; intros mg0.
  - reflexivity.
  - destruct (loop_skips q rest mg0 Hq) as [mg1 ->]. apply IH.
Qed.

Lemma loopEWasm_skips q rest mg0 :
  FirstMatch.rejects PatternEWasm.matches q e d ssa ->
  exists mg1,
    SimplificationRules.findFirstMatchEWasm_loop (q :: rest) e d ssa mg0 =
    SimplificationRules.findFirstMatchEWasm_loop rest e d ssa mg1.
Proof.
  intros [mg1 [R|[R (f & mg2 & F & FR)]]]; simpl; unfold bind; simpl; rewrite R.
  - now exists mg1.
  - rewrite F, FR. now exists mg2.
Qed.

Lemma loopEWasm_takes r rest mg0 mg' :
  FirstMatch.accepts PatternEWasm.matches r e d ssa mg' ->
  SimplificationRules.findFirstMatchEWasm_loop (r :: rest) e d ssa mg0 =
  (Ok (Some r), mg').
Proof.
  intros (mg1 & R & F); simpl; unfold bind; simpl; rewrite R.
  destruct (feasible r) as [f|]; [now rewrite F | now subst].
Qed.

Lemma loopEWasm_first pre r post mg0 mg' :
  Forall (fun q => FirstMatch.rejects PatternEWasm.matches q e d ssa) pre ->
  FirstMatch.accepts PatternEWasm.matches r e d ssa mg' ->
  SimplificationRules.findFirstMatchEWasm_loop (pre ++ r :: post) e d ssa mg0 =
  (Ok (Some r), mg').
Proof.
  intros Hpre Hr. revert mg0.
  induction Hpre as [|q pre Hq _ IH]; intros mg0.
  - now apply loopEWasm_takes.
  - rewrite <- app_comm_cons.
    destruct (loopEWasm_skips q (pre ++ r :: post) mg0 Hq) as [mg1 ->]. apply IH.
Qed.

Lemma loopEWasm_none bucket mg0 :
  Forall (fun q => FirstMatch.rejects PatternEWasm.matches q e d ssa) bucket ->
  fst (SimplificationRules.findFirstMatchEWasm_loop bucket e d ssa mg0) = Ok None.
Proof.
  intros Hb. revert mg0. induction Hb as [|q rest Hq _ IH]; intros mg0.
  - reflexivity.
  - destruct (loopEWasm_skips q rest mg0 Hq) as [mg1 ->]. apply IH.
Qed.

End FirstMatchFacts.

(** C1: for an expression whose leading operator resolves, [findFirstMatch]
    walks the bucket of that operator in insertion order; every rule is
    tried from a reset table, whatever the table held before; the rule
    returned is the first that matches and whose feasibility predicate, when
    there is one, returns true, a rule without predicate being taken on the
    match alone.  Rules after it play no part, so of two acceptable rules
    the one registered first is returned; when every rule of the bucket
    rejects the expression the result is null.  The same holds of
    [findFirstMatchEWasm] and the bucket of the builtin's name. *)
Theorem findFirstMatch_returns_first_acceptable_rule `{Collaborators}
    (rules : SimplificationRules.t) (e : Expression) (d : Dialect) (ssa : SSAValues) :
  SimplificationRules.isInitialized rules = true ->
  (forall instr args,
     instructionAndArguments d e = Some (instr, args) ->
     (forall pre r post mg',
        SimplificationRules.bucket rules (uint8_t instr) = pre ++ r :: post ->
        Forall (fun q => FirstMatch.rejects Pattern.matches q e d ssa) pre ->
        FirstMatch.accepts Pattern.matches r e d ssa mg' ->
        SimplificationRules.findFirstMatch rules e d ssa =
        (Ok (Some r),
         SimplificationRules.mk mg' (SimplificationRules.m_rules rules)
           (SimplificationRules.m_rulesEWasm rules))) /\
     (Forall (fun q => FirstMatch.rejects Pattern.matches q e d ssa)
        (SimplificationRules.bucket rules (uint8_t instr)) ->
      fst (SimplificationRules.findFirstMatch rules e d ssa) = Ok None)) /\
  (forall l f args,
     e = FunctionCall l f args -> is_Some (builtin d (name f)) ->
     (forall pre r post mg',
        SimplificationRules.bucketEWasm rules (name f) = pre ++ r :: post ->
        Forall (fun q => FirstMatch.rejects PatternEWasm.matches q e d ssa) pre ->
        FirstMatch.accepts PatternEWasm.matches r e d ssa mg' ->
        SimplificationRules.findFirstMatchEWasm rules e d ssa =
        (Ok (Some r),
         SimplificationRules.mk mg' (SimplificationRules.m_rules rules)
           (SimplificationRules.m_rulesEWasm rules))) /\
     (Forall (fun q => FirstMatch.rejects PatternEWasm.matches q e d ssa)
        (SimplificationRules.bucketEWasm rules (name f)) ->
      fst (SimplificationRules.findFirstMatchEWasm rules e d ssa) = Ok None)).
Proof.
  intros I. split.
  - intros instr args R. unfold SimplificationRules.findFirstMatch.
    rewrite I, R. simpl. split.
    + intros pre r post mg' B Hpre Hr.
      now rewrite B, (loop_first e d ssa pre r post _ mg' Hpre Hr).
    + intros Hb.
      pose proof (loop_none e d ssa _ (SimplificationRules.m_matchGroups rules) Hb) as N.
      destruct (SimplificationRules.findFirstMatch_loop _ e d ssa _) as [r mg].
      exact N.
  - intros l f args -> [b B]. unfold SimplificationRules.findFirstMatchEWasm.
    rewrite I, B. simpl. split.
    + intros pre r post mg' Bk Hpre Hr.
      rewrite Bk, (loopEWasm_first _ d ssa pre r post _ mg' Hpre Hr).
      unfold SimplificationRules.bucketEWasm in Bk.
      destruct (SimplificationRules.m_rulesEWasm rules !! name f); [reflexivity|].
      destruct pre; discriminate Bk.
    + intros Hb.
      pose proof (loopEWasm_none _ d ssa _
                    (SimplificationRules.m_matchGroups rules) Hb) as N.
      destruct (SimplificationRules.findFirstMatchEWasm_loop _ _ d ssa _) as [r mg].
      exact N.
Qed.

Lemma findFirstMatch_witness :
  SimplificationRules.findFirstMatch ExampleEngine.ordered
    (Examples.add (Reference.var "y") (Reference.num "0")) Reference.evm ∅ =
  (Ok (Some ExampleEngine.first),
   SimplificationRules.mk {[ 5%N := Some (Reference.var "y") ]}
     (SimplificationRules.m_rules ExampleEngine.ordered)
     (SimplificationRules.m_rulesEWasm ExampleEngine.ordered)) /\
  SimplificationRules.findFirstMatchEWasm ExampleEngine.ordered
    (Examples.i64add (Reference.var "y") (Reference.num "0")) Reference.wasm ∅ =
  (Ok (Some ExampleEngine.firstW),
   SimplificationRules.mk {[ 5%N := Some (Reference.var "y") ]}
     (SimplificationRules.m_rules ExampleEngine.ordered)
     (SimplificationRules.m_rulesEWasm ExampleEngine.ordered)).
Proof.
  split.
  - apply (proj1 (proj1 (findFirstMatch_returns_first_acceptable_rule
                           ExampleEngine.ordered
                           (Examples.add (Reference.var "y") (Reference.num "0"))
                           Reference.evm ∅ eq_refl)
                    Instr.ADD [Reference.var "y"; Reference.num "0"] eq_refl)
             [ExampleEngine.never] ExampleEngine.first [ExampleEngine.second]).
    + reflexivity.
    + constructor; [|constructor]. exists ∅. left. vm_compute. reflexivity.
    + exists {[ 5%N := Some (Reference.var "y") ]}. split; vm_compute; reflexivity.
  - apply (proj1 (proj2 (findFirstMatch_returns_first_acceptable_rule
                           ExampleEngine.ordered
                           (Examples.i64add (Reference.var "y") (Reference.num "0"))
                           Reference.wasm ∅ eq_refl)
                    Reference.here (mkIdentifier Reference.here "i64.add")
                    [Reference.var "y"; Reference.num "0"] eq_refl
                    (ex_intro _ (mkBuiltin None) eq_refl))
             [ExampleEngine.neverW] ExampleEngine.firstW []).
    + reflexivity.
    + constructor; [|constructor]. exists ∅. left. vm_compute. reflexivity.
    + exists {[ 5%N := Some (Reference.var "y") ]}. split; vm_compute; reflexivity.
Defined.

(** ** The table only grows *)

Lemma extends_refl mg : extends mg mg.
Proof. split; [reflexivity | auto]. Qed.

Lemma extends_trans mg1 mg2 mg3 : extends mg1 mg2 -> extends mg2 mg3 -> extends mg1 mg3.
Proof. intros [S1 N1] [S2 N2]. split; [etransitivity; eassumption | auto]. Qed.

Lemma extends_insert (mg : MatchGroups) g e :
  mg !! g = None -> extends mg (<[g := Some e]> mg).
Proof.
  intros L. split; [now apply insert_subseteq|].
  intros N g'. destruct (decide (g = g')) as [<-|NE].
  - rewrite lookup_insert_eq. congruence.
  - rewrite lookup_insert_ne by assumption. apply N.
Qed.

Lemma extends_bound (mg mg' : MatchGroups) g :
  extends mg mg' -> is_Some (mg !! g) -> is_Some (mg' !! g).
Proof. intros [S _] [v L]. exists v. eapply lookup_weaken; eassumption. Qed.

Lemma grows_ret {A} (a : A) : grows (ret a).
Proof. intros mg r mg' [= <- <-]. apply extends_refl. Qed.

Lemma grows_throw {A} x : grows (@throw A x).
Proof. intros mg r mg' [= <- <-]. apply extends_refl. Qed.

Lemma grows_assertThrow c msg : grows (assertThrow c msg).
Proof. destruct c; [apply grows_ret | apply grows_throw]. Qed.

Lemma grows_bind {A B} (m : M A) (k : A -> M B) :
  grows m -> (forall a, grows (k a)) -> grows (bind m k).
Proof.
  intros Gm Gk mg r mg'. unfold bind.
  destruct (m mg) as [[a|x] mg1] eqn:E; intros R.
  - eapply extends_trans; [eapply Gm, E | eapply Gk, R].
  - injection R as <- <-. eapply Gm, E.
Qed.

Lemma grows_if {A} (b : bool) (m1 m2 : M A) :
  grows m1 -> grows m2 -> grows (if b then m1 else m2).
Proof. now destruct b. Qed.

Lemma grows_matchGroupCheck `{Collaborators} k g _e e d :
  grows (matchGroupCheck k g _e e d).
Proof.
  intros mg r mg'. unfold matchGroupCheck.
  destruct (bool_decide (g <> 0%N)); [|intros [= <- <-]; apply extends_refl].
  unfold bind, count, subscript, assign, assertThrow, ret, throw.
  destruct (mg !! g) as [v|] eqn:L.
  - rewrite bool_decide_eq_true_2 by eauto.
    destruct (bool_decide (k = Any)); [|intros [= <- <-]; apply extends_refl].
    rewrite L. destruct v; intros [= <- <-]; apply extends_refl.
  - rewrite bool_decide_eq_false_2 by (intros [? ?]; discriminate).
    destruct (bool_decide (k = Any)); [intros [= <- <-]; now apply extends_insert|].
    destruct (bool_decide (k = Constant)); intros [= <- <-];
      [now apply extends_insert | apply extends_refl].
Qed.


Section TableGrowth.
Context `{Collaborators}.

Lemma grows_matchesAll d ssa ps :
  Forall (fun q => forall e, grows (Pattern.matches q e d ssa)) ps ->
  forall es, grows (Pattern.matchesAll d ssa ps es).
Proof.
  induction 1 as [|q ps Hq _ IH]; intros es; simpl.
  - apply grows_ret.
  - destruct es as [|e es]; [apply grows_throw|].
    apply grows_bind; [apply Hq|]. intros b. apply grows_if; [apply IH | apply grows_ret].
Qed.

Lemma grows_matches p : forall e d ssa, grows (Pattern.matches p e d ssa).
Proof.
  induction p as [p IH] using pattern_induction. intros e d ssa.
  rewrite matches_unfold. cbv zeta.
  apply grows_bind;
    [|intros b; apply grows_if; [apply grows_matchGroupCheck | apply grows_ret]].
  destruct (Pattern.m_kind p).
  - destruct (instructionAndArguments d _) as [[instr args]|]; [|apply grows_ret].
    apply grows_if; [apply grows_ret|].
    apply grows_bind; [apply grows_assertThrow|]. intros _.
    apply grows_matchesAll.
    eapply Forall_impl; [exact IH|]. intros q Hq e'. apply Hq.
  - destruct (resolveVariable _ e ssa); try apply grows_ret.
    apply grows_if; [apply grows_ret|].
    destruct (Pattern.m_data p).
    + apply grows_if; [apply grows_ret|].
      apply grows_bind; [apply grows_assertThrow | intros _; apply grows_ret].
    + apply grows_bind; [apply grows_assertThrow | intros _; apply grows_ret].
  - apply grows_bind; [apply grows_assertThrow | intros _; apply grows_ret].
Qed.

Lemma grows_matchesAllEWasm d ssa ps :
  Forall (fun q => forall e, grows (PatternEWasm.matches q e d ssa)) ps ->
  forall es, grows (PatternEWasm.matchesAll d ssa ps es).
Proof.
  induction 1 as [|q ps Hq _ IH]; intros es; simpl.
  - apply grows_ret.
  - destruct es as [|e es]; [apply grows_throw|].
    apply grows_bind; [apply Hq|]. intros b. apply grows_if; [apply IH | apply grows_ret].
Qed.

Lemma grows_matchesEWasm p : forall e d ssa, grows (PatternEWasm.matches p e d ssa).
Proof.
  induction p as [p IH] using patternEWasm_induction. intros e d ssa.
  rewrite matchesEWasm_unfold. cbv zeta.
  apply grows_bind;
    [|intros b; apply grows_if; [apply grows_matchGroupCheck | apply grows_ret]].
  destruct (PatternEWasm.m_kind p).
  - destruct (resolveVariable _ e ssa) as [|l f args| |]; try apply grows_ret.
    destruct (builtin d (name f)); [|apply grows_ret].
    apply grows_if; [apply grows_ret|].
    apply grows_bind; [apply grows_assertThrow|]. intros _.
    apply grows_matchesAllEWasm.
    eapply Forall_impl; [exact IH|]. intros q Hq e'. apply Hq.
  - destruct (resolveVariable _ e ssa); try apply grows_ret.
    apply grows_if; [apply grows_ret|].
    destruct (PatternEWasm.m_data p).
    + apply grows_if; [apply grows_ret|].
      apply grows_bind; [apply grows_assertThrow | intros _; apply grows_ret].
    + apply grows_bind; [apply grows_assertThrow | intros _; apply grows_ret].
  - apply grows_bind; [apply grows_assertThrow | intros _; apply grows_ret].
Qed.

End TableGrowth.

(** ** A pattern and the same pattern without its group *)

Section GroupSplit.
Context `{Collaborators}.

Lemma matches_split p e d ssa mg :
  Pattern.matches p e d ssa mg =
  match Pattern.matches (Pattern.setMatchGroup 0 p) e d ssa mg with
  | (Ok true, mg1) =>
      matchGroupCheck (Pattern.m_kind p) (Pattern.m_matchGroup p) e
        (resolveVariable (Pattern.m_kind p) e ssa) d mg1
  | other => other
  end.
Proof.
  rewrite !matches_unfold. cbv zeta. unfold Pattern.setMatchGroup. simpl.
  unfold bind at 1. unfold bind at 5.
  match goal with |- context [match ?S mg with _ => _ end] =>
    destruct (S mg) as [[[|]|x] mg1] end; reflexivity.
Qed.

Lemma matchesEWasm_split p e d ssa mg :
  PatternEWasm.matches p e d ssa mg =
  match PatternEWasm.matches (PatternEWasm.setMatchGroup 0 p) e d ssa mg with
  | (Ok true, mg1) =>
      matchGroupCheck (PatternEWasm.m_kind p) (PatternEWasm.m_matchGroup p) e
        (resolveVariable (PatternEWasm.m_kind p) e ssa) d mg1
  | other => other
  end.
Proof.
  rewrite !matchesEWasm_unfold. cbv zeta. unfold PatternEWasm.setMatchGroup. simpl.
  unfold bind at 1. unfold bind at 5.
  match goal with |- context [match ?S mg with _ => _ end] =>
    destruct (S mg) as [[[|]|x] mg1] end; reflexivity.
Qed.

End GroupSplit.

(** ** A group id met again *)

Section BoundNonAny.
Context `{Collaborators}.

Lemma matches_bound_non_any p e d ssa (mg : MatchGroups) :
  Pattern.m_kind p <> Any -> Pattern.m_matchGroup p <> 0%N ->
  is_Some (mg !! Pattern.m_matchGroup p) ->
  Pattern.matches p e d ssa mg =
  match Pattern.matches (Pattern.setMatchGroup 0 p) e d ssa mg with
  | (Ok true, mg1) =>
      (Throw (OptimizerException "Match group repetition for non-any."), mg1)
  | other => other
  end.
Proof.
  intros K G B. rewrite matches_split.
  destruct (Pattern.matches (Pattern.setMatchGroup 0 p) e d ssa mg)
    as [[[|]|x] mg1] eqn:S; try reflexivity.
  apply groupCheck_bound_other; auto.
  eapply extends_bound; [eapply grows_matches, S | exact B].
Qed.

Lemma matchesEWasm_bound_non_any p e d ssa (mg : MatchGroups) :
  PatternEWasm.m_kind p <> Any -> PatternEWasm.m_matchGroup p <> 0%N ->
  is_Some (mg !! PatternEWasm.m_matchGroup p) ->
  PatternEWasm.matches p e d ssa mg =
  match PatternEWasm.matches (PatternEWasm.setMatchGroup 0 p) e d ssa mg with
  | (Ok true, mg1) =>
      (Throw (OptimizerException "Match group repetition for non-any."), mg1)
  | other => other
  end.
Proof.
  intros K G B. rewrite matchesEWasm_split.
  destruct (PatternEWasm.matches (PatternEWasm.setMatchGroup 0 p) e d ssa mg)
    as [[[|]|x] mg1] eqn:S; try reflexivity.
  apply groupCheck_bound_other; auto.
  eapply extends_bound; [eapply grows_matchesEWasm, S | exact B].
Qed.

Lemma matches_arity p e d ssa (mg : MatchGroups) args :
  Pattern.m_kind p = Operation ->
  instructionAndArguments d (resolveVariable Operation e ssa)
    = Some (Pattern.m_instruction p, args) ->
  length (Pattern.m_arguments p) <> length args ->
  Pattern.matches p e d ssa mg = (Throw (OptimizerException EmptyString), mg).
Proof.
  intros K R L. rewrite matches_Operation, R by assumption.
  rewrite bool_decide_eq_false_2 by (intros N; now apply N).
  now rewrite (proj2 (Nat.eqb_neq _ _) L).
Qed.

Lemma matchesEWasm_arity p e d ssa (mg : MatchGroups) l f args :
  PatternEWasm.m_kind p = Operation ->
  resolveVariable Operation e ssa = FunctionCall l f args ->
  is_Some (builtin d (name f)) ->
  PatternEWasm.m_instruction p = name f ->
  length (PatternEWasm.m_arguments p) <> length args ->
  PatternEWasm.matches p e d ssa mg = (Throw (OptimizerException EmptyString), mg).
Proof.
  intros K R B I L. rewrite (matchesEWasm_Operation p e d ssa mg l f args) by assumption.
  now rewrite (proj2 (Nat.eqb_neq _ _) L).
Qed.

Lemma matches_bound_Constant p e d ssa (mg : MatchGroups) l :
  Constructible.pattern p -> Pattern.m_kind p = Constant ->
  Pattern.m_matchGroup p <> 0%N -> is_Some (mg !! Pattern.m_matchGroup p) ->
  resolveVariable Constant e ssa = ELiteral l -> kind l = Number ->
  (forall v, Pattern.m_data p = Some v -> v = u256_of_string (value l)) ->
  Pattern.matches p e d ssa mg =
  (Throw (OptimizerException "Match group repetition for non-any."), mg).
Proof.
  intros C K G B R KN D.
  rewrite matches_Constant, R by (auto; apply constructible_arguments; congruence).
  rewrite bool_decide_eq_false_2 by (intros N; now apply N).
  destruct (Pattern.m_data p) as [v|].
  - rewrite bool_decide_eq_false_2 by (intros N; apply N; now apply D).
    apply groupCheck_bound_other; auto; discriminate.
  - apply groupCheck_bound_other; auto; discriminate.
Qed.

Lemma matchesEWasm_bound_Constant p e d ssa (mg : MatchGroups) l :
  Constructible.patternEWasm p -> PatternEWasm.m_kind p = Constant ->
  PatternEWasm.m_matchGroup p <> 0%N -> is_Some (mg !! PatternEWasm.m_matchGroup p) ->
  resolveVariable Constant e ssa = ELiteral l -> kind l = Number ->
  (forall v, PatternEWasm.m_data p = Some v ->
             v = u256_of_string (value l) mod 2 ^ 64) ->
  PatternEWasm.matches p e d ssa mg =
  (Throw (OptimizerException "Match group repetition for non-any."), mg).
Proof.
  intros C K G B R KN D.
  rewrite matchesEWasm_Constant, R
    by (auto; apply constructible_argumentsEWasm; congruence).
  rewrite bool_decide_eq_false_2 by (intros N; now apply N).
  destruct (PatternEWasm.m_data p) as [v|].
  - rewrite uint64_t_mod.
    rewrite bool_decide_eq_false_2 by (intros N; apply N; now apply D).
    apply groupCheck_bound_other; auto; discriminate.
  - apply groupCheck_bound_other; auto; discriminate.
Qed.

End BoundNonAny.

(** C6, as the code has it: let a pattern of kind [Operation] or [Constant]
    carry a group id that the table already binds.  What [matches] does is
    fixed by the structural part of the pattern, which runs first and is
    what the same pattern without its group id does.  Where that part
    returns true, [matches] throws [OptimizerException] (Match group
    repetition for non-any) and leaves the table as the structural part left
    it; where it returns the ordinary [false], so does [matches]; where it
    throws, [matches] throws the same exception; so [matches] never returns
    [true].  In particular an [Operation] pattern whose operator is the
    expression's but whose arity is not throws [OptimizerException] with an
    empty message, and a [Constant] pattern met with a number literal of its
    value throws the repetition fault, both with the table untouched.  Both
    pattern classes. *)
Theorem repeated_group_on_non_any `{Collaborators}
    (e : Expression) (d : Dialect) (ssa : SSAValues) (mg : MatchGroups) :
  (forall p,
     Pattern.m_kind p <> Any -> Pattern.m_matchGroup p <> 0%N ->
     is_Some (mg !! Pattern.m_matchGroup p) ->
     (forall mg1,
        Pattern.matches (Pattern.setMatchGroup 0 p) e d ssa mg = (Ok true, mg1) ->
        Pattern.matches p e d ssa mg =
        (Throw (OptimizerException "Match group repetition for non-any."), mg1)) /\
     (forall mg1,
        Pattern.matches (Pattern.setMatchGroup 0 p) e d ssa mg = (Ok false, mg1) ->
        Pattern.matches p e d ssa mg = (Ok false, mg1)) /\
     (forall x mg1,
        Pattern.matches (Pattern.setMatchGroup 0 p) e d ssa mg = (Throw x, mg1) ->
        Pattern.matches p e d ssa mg = (Throw x, mg1)) /\
     (forall mg1, Pattern.matches p e d ssa mg <> (Ok true, mg1)) /\
     (forall args,
        Pattern.m_kind p = Operation ->
        instructionAndArguments d (resolveVariable Operation e ssa)
          = Some (Pattern.m_instruction p, args) ->
        length (Pattern.m_arguments p) <> length args ->
        Pattern.matches p e d ssa mg = (Throw (OptimizerException EmptyString), mg)) /\
     (forall l,
        Constructible.pattern p -> Pattern.m_kind p = Constant ->
        resolveVariable Constant e ssa = ELiteral l -> kind l = Number ->
        (forall v, Pattern.m_data p = Some v -> v = u256_of_string (value l)) ->
        Pattern.matches p e d ssa mg =
        (Throw (OptimizerException "Match group repetition for non-any."), mg))) /\
  (forall p,
     PatternEWasm.m_kind p <> Any -> PatternEWasm.m_matchGroup p <> 0%N ->
     is_Some (mg !! PatternEWasm.m_matchGroup p) ->
     (forall mg1,
        PatternEWasm.matches (PatternEWasm.setMatchGroup 0 p) e d ssa mg = (Ok true, mg1) ->
        PatternEWasm.matches p e d ssa mg =
        (Throw (OptimizerException "Match group repetition for non-any."), mg1)) /\
     (forall mg1,
        PatternEWasm.matches (PatternEWasm.setMatchGroup 0 p) e d ssa mg = (Ok false, mg1) ->
        PatternEWasm.matches p e d ssa mg = (Ok false, mg1)) /\
     (forall x mg1,
        PatternEWasm.matches (PatternEWasm.setMatchGroup 0 p) e d ssa mg = (Throw x, mg1) ->
        PatternEWasm.matches p e d ssa mg = (Throw x, mg1)) /\
     (forall mg1, PatternEWasm.matches p e d ssa mg <> (Ok true, mg1)) /\
     (forall l f args,
        PatternEWasm.m_kind p = Operation ->
        resolveVariable Operation e ssa = FunctionCall l f args ->
        is_Some (builtin d (name f)) ->
        PatternEWasm.m_instruction p = name f ->
        length (PatternEWasm.m_arguments p) <> length args ->
        PatternEWasm.matches p e d ssa mg = (Throw (OptimizerException EmptyString), mg)) /\
     (forall l,
        Constructible.patternEWasm p -> PatternEWasm.m_kind p = Constant ->
        resolveVariable Constant e ssa = ELiteral l -> kind l = Number ->
        (forall v, PatternEWasm.m_data p = Some v ->
                   v = u256_of_string (value l) mod 2 ^ 64) ->
        PatternEWasm.matches p e d ssa mg =
        (Throw (OptimizerException "Match group repetition for non-any."), mg))).
Proof.
  split; intros p K G B.
  - pose proof (matches_bound_non_any p e d ssa mg K G B) as Q.
    split; [|split; [|split; [|split; [|split]]]].
    + intros mg1 S. now rewrite Q, S.
    + intros mg1 S. now rewrite Q, S.
    + intros x mg1 S. now rewrite Q, S.
    + intros mg1 E. rewrite Q in E.
      destruct (Pattern.matches (Pattern.setMatchGroup 0 p) e d ssa mg)
        as [[[|]|x] mg2]; discriminate E.
    + intros args KO R L. now apply (matches_arity p e d ssa mg args).
    + intros l C KC R KN D. now apply (matches_bound_Constant p e d ssa mg l).
  - pose proof (matchesEWasm_bound_non_any p e d ssa mg K G B) as Q.
    split; [|split; [|split; [|split; [|split]]]].
    + intros mg1 S. now rewrite Q, S.
    + intros mg1 S. now rewrite Q, S.
    + intros x mg1 S. now rewrite Q, S.
    + intros mg1 E. rewrite Q in E.
      destruct (PatternEWasm.matches (PatternEWasm.setMatchGroup 0 p) e d ssa mg)
        as [[[|]|x] mg2]; discriminate E.
    + intros l f args KO R Bi I L. now apply (matchesEWasm_arity p e d ssa mg l f args).
    + intros l C KC R KN D. now apply (matchesEWasm_bound_Constant p e d ssa mg l).
Qed.

Lemma repeated_group_witness :
  Pattern.matches Examples.A (Reference.num "3") Reference.evm ∅
    {[ 1%N := Some (Reference.num "3") ]} =
  (Throw (OptimizerException "Match group repetition for non-any."),
   {[ 1%N := Some (Reference.num "3") ]}) /\
  PatternEWasm.matches Examples.AW (Reference.var "x") Reference.wasm ∅
    {[ 1%N := Some (Reference.num "3") ]} =
  (Ok false, {[ 1%N := Some (Reference.num "3") ]}) /\
  Pattern.matches
    (Pattern.setMatchGroup 3 (Pattern.ofInstruction Instr.ADD [Examples.X]))
    (Examples.add (Reference.var "a") (Reference.var "b")) Reference.evm ∅
    {[ 3%N := Some (Reference.var "z") ]} =
  (Throw (OptimizerException EmptyString), {[ 3%N := Some (Reference.var "z") ]}).
Proof.
  split; [|split].
  - apply (proj1 (proj1 (repeated_group_on_non_any (Reference.num "3")
                           Reference.evm ∅ {[ 1%N := Some (Reference.num "3") ]})
                    Examples.A ltac:(discriminate) ltac:(discriminate)
                    ltac:(vm_compute; eauto))).
    vm_compute. reflexivity.
  - apply (proj1 (proj2 (proj2 (repeated_group_on_non_any (Reference.var "x")
                           Reference.wasm ∅ {[ 1%N := Some (Reference.num "3") ]})
                    Examples.AW ltac:(discriminate) ltac:(discriminate)
                    ltac:(vm_compute; eauto)))).
    vm_compute. reflexivity.
  - apply (proj1 (proj2 (proj2 (proj2 (proj2
             (proj1 (repeated_group_on_non_any
                       (Examples.add (Reference.var "a") (Reference.var "b"))
                       Reference.evm ∅ {[ 3%N := Some (Reference.var "z") ]})
                (Pattern.setMatchGroup 3 (Pattern.ofInstruction Instr.ADD [Examples.X]))
                ltac:(discriminate) ltac:(discriminate) ltac:(vm_compute; eauto))))))
             [Reference.var "a"; Reference.var "b"]);
      [reflexivity | reflexivity | simpl; lia].
Defined.

(** The attempt ADD(A, A) against add(3, x): when the second [A] is reached
    group 1 is bound, [x] is no literal, and the result is an ordinary
    [false], not a fault. *)
Lemma repeated_group_plain_non_match :
  Pattern.matches (Pattern.ofInstruction Instr.ADD [Examples.A; Examples.A])
    (Examples.add (Reference.num "3") (Reference.var "x")) Reference.evm ∅ ∅ =
  (Ok false, {[ 1%N := Some (Reference.num "3") ]}) /\
  Pattern.m_kind Examples.A = Constant /\
  is_Some (({[ 1%N := Some (Reference.num "3") ]} : MatchGroups)
             !! Pattern.m_matchGroup Examples.A) /\
  Pattern.matches Examples.A (Reference.var "x") Reference.evm ∅
    {[ 1%N := Some (Reference.num "3") ]} =
  (Ok false, {[ 1%N := Some (Reference.num "3") ]}).
Proof.
  repeat split; try (vm_compute; reflexivity). vm_compute. eauto.
Qed.

(** ** A bound group met by a wildcard *)

Section SameGroupTwice.
Context `{Collaborators}.

Lemma matches_X_unbound g e d ssa (mg : MatchGroups) :
  g <> 0%N -> mg !! g = None ->
  Pattern.matches (Pattern.setMatchGroup g (Pattern.ofKind Any)) e d ssa mg =
  (Ok true, <[g := Some e]> mg).
Proof.
  intros G L. rewrite matches_Any by reflexivity. now apply groupCheck_unbound_Any.
Qed.

Lemma matches_X_bound g first e d ssa (mg : MatchGroups) :
  g <> 0%N -> mg !! g = Some (Some first) ->
  Pattern.matches (Pattern.setMatchGroup g (Pattern.ofKind Any)) e d ssa mg =
  (Ok (SyntacticallyEqual first e && movable d e), mg).
Proof.
  intros G L. rewrite matches_Any by reflexivity. now apply groupCheck_bound_Any.
Qed.

Lemma matches_X_op_X g i e a b d ssa (mg : MatchGroups) :
  g <> 0%N -> mg !! g = None ->
  instructionAndArguments d (resolveVariable Operation e ssa) = Some (i, [a; b]) ->
  Pattern.matches
    (Pattern.ofInstruction i
       [Pattern.setMatchGroup g (Pattern.ofKind Any);
        Pattern.setMatchGroup g (Pattern.ofKind Any)]) e d ssa mg =
  (Ok (SyntacticallyEqual a b && movable d b), <[g := Some a]> mg).
Proof.
  intros G L R. rewrite matches_Operation, R by reflexivity.
  unfold Pattern.ofInstruction.
  cbn [Pattern.m_instruction Pattern.m_arguments Pattern.m_matchGroup Pattern.m_kind
       length Nat.eqb Pattern.matchesAll].
  rewrite bool_decide_eq_false_2 by (intros N; now apply N).
  unfold bind at 1. rewrite (matches_X_unbound g a d ssa mg G L).
  unfold bind at 1.
  rewrite (matches_X_bound g a b d ssa _ G (lookup_insert_eq mg g (Some a))).
  destruct (SyntacticallyEqual a b && movable d b); reflexivity.
Qed.

Lemma matchesEWasm_X_unbound g e d ssa (mg : MatchGroups) :
  g <> 0%N -> mg !! g = None ->
  PatternEWasm.matches (PatternEWasm.setMatchGroup g (PatternEWasm.ofKind Any)) e d ssa mg =
  (Ok true, <[g := Some e]> mg).
Proof.
  intros G L. rewrite matchesEWasm_Any by reflexivity. now apply groupCheck_unbound_Any.
Qed.

Lemma matchesEWasm_X_bound g first e d ssa (mg : MatchGroups) :
  g <> 0%N -> mg !! g = Some (Some first) ->
  PatternEWasm.matches (PatternEWasm.setMatchGroup g (PatternEWasm.ofKind Any)) e d ssa mg =
  (Ok (SyntacticallyEqual first e && movable d e), mg).
Proof.
  intros G L. rewrite matchesEWasm_Any by reflexivity. now apply groupCheck_bound_Any.
Qed.

Lemma matchesEWasm_X_op_X g e l f a b d ssa (mg : MatchGroups) :
  g <> 0%N -> mg !! g = None ->
  resolveVariable Operation e ssa = FunctionCall l f [a; b] ->
  is_Some (builtin d (name f)) ->
  PatternEWasm.matches
    (PatternEWasm.ofBuiltin (name f)
       [PatternEWasm.setMatchGroup g (PatternEWasm.ofKind Any);
        PatternEWasm.setMatchGroup g (PatternEWasm.ofKind Any)]) e d ssa mg =
  (Ok (SyntacticallyEqual a b && movable d b), <[g := Some a]> mg).
Proof.
  intros G L R B.
  rewrite (matchesEWasm_Operation _ e d ssa mg l f [a; b]) by (auto; reflexivity).
  unfold PatternEWasm.ofBuiltin.
  cbn [PatternEWasm.m_instruction PatternEWasm.m_arguments PatternEWasm.m_matchGroup
       PatternEWasm.m_kind length Nat.eqb PatternEWasm.matchesAll].
  unfold bind at 1. rewrite (matchesEWasm_X_unbound g a d ssa mg G L).
  unfold bind at 1.
  rewrite (matchesEWasm_X_bound g a b d ssa _ G (lookup_insert_eq mg g (Some a))).
  destruct (SyntacticallyEqual a b && movable d b); reflexivity.
Qed.

End SameGroupTwice.

(** ** The reference collaborators *)


Lemma reference_all2_copy (args : list Expression) :
  Forall (fun e => Reference.syntacticallyEqual (Reference.copy e) e = true) args ->
  Reference.all2 Reference.syntacticallyEqual (map Reference.copy args) args = true.
Proof. induction 1 as [|x l Hx _ IH]; simpl; [reflexivity | now rewrite Hx, IH]. Qed.

Lemma reference_copy_equal (e : Expression) :
  Reference.syntacticallyEqual (Reference.copy e) e = true.
Proof.
  induction e as [l i args IH|l f args IH|i|l] using expression_induction; simpl.
  - rewrite bool_decide_eq_true_2 by reflexivity. now apply reference_all2_copy.
  - rewrite bool_decide_eq_true_2 by reflexivity. now apply reference_all2_copy.
  - now apply bool_decide_eq_true_2.
  - now rewrite !bool_decide_eq_true_2 by reflexivity.
Qed.

Lemma reference_all2_movable (d : Dialect) (args1 : list Expression) :
  Forall (fun x => forall y, Reference.syntacticallyEqual x y = true ->
                             Reference.isMovable d x = Reference.isMovable d y) args1 ->
  forall args2, Reference.all2 Reference.syntacticallyEqual args1 args2 = true ->
  forallb (Reference.isMovable d) args1 = forallb (Reference.isMovable d) args2.
Proof.
  induction 1 as [|x l Hx _ IH]; intros [|y l2]; simpl; try discriminate; auto.
  intros E. apply andb_true_iff in E as [E1 E2]. now rewrite (Hx y E1), (IH l2 E2).
Qed.

Lemma reference_movable_respects (d : Dialect) (x : Expression) :
  forall y, Reference.syntacticallyEqual x y = true ->
            Reference.isMovable d x = Reference.isMovable d y.
Proof.
  induction x as [l i args IH|l f args IH|i|l] using expression_induction;
    intros [l2 i2 args2|l2 f2 args2|i2|l2]; simpl; try discriminate; auto.
  - intros E. apply andb_true_iff in E as [E1 E2].
    apply bool_decide_eq_true_1 in E1 as <-.
    now rewrite (reference_all2_movable d args IH args2 E2).
  - intros E. apply andb_true_iff in E as [E1 E2].
    apply bool_decide_eq_true_1 in E1 as <-.
    destruct (builtin d (name f)) as [[[j|]]|]; auto.
    now rewrite (reference_all2_movable d args IH args2 E2).
Qed.

(** C2, as the code has it: a pattern of kind [Any] whose group id is
    already bound returns exactly: the expression now seen is syntactically
    equal to the one stored for the group, and the expression now seen is
    movable; the table is left as it was.  So a pattern X op X, met with the
    group of X unbound, binds X to the first argument and returns whether
    the second argument is syntactically equal to the first and movable; and
    when movability is the same for syntactically equal expressions, X op X
    matches exactly when the two arguments are syntactically equal and both
    movable.  A pattern of kind [Constant] or [Operation] whose group id is
    already bound never returns true: it does what the same pattern without
    its group id does, except that it throws (Match group repetition for
    non-any) where that one returns true.  Both pattern classes. *)
Theorem bound_group_needs_equal_and_movable `{Collaborators}
    (d : Dialect) (ssa : SSAValues) (mg : MatchGroups) :
  (forall p e first,
     Constructible.pattern p -> Pattern.m_kind p = Any ->
     Pattern.m_matchGroup p <> 0%N ->
     mg !! Pattern.m_matchGroup p = Some (Some first) ->
     Pattern.matches p e d ssa mg =
     (Ok (SyntacticallyEqual first e && movable d e), mg)) /\
  (forall p e first,
     Constructible.patternEWasm p -> PatternEWasm.m_kind p = Any ->
     PatternEWasm.m_matchGroup p <> 0%N ->
     mg !! PatternEWasm.m_matchGroup p = Some (Some first) ->
     PatternEWasm.matches p e d ssa mg =
     (Ok (SyntacticallyEqual first e && movable d e), mg)) /\
  (forall g i e a b,
     g <> 0%N -> mg !! g = None ->
     instructionAndArguments d (resolveVariable Operation e ssa) = Some (i, [a; b]) ->
     let X := Pattern.setMatchGroup g (Pattern.ofKind Any) in
     Pattern.matches (Pattern.ofInstruction i [X; X]) e d ssa mg =
     (Ok (SyntacticallyEqual a b && movable d b), <[g := Some a]> mg) /\
     ((forall x y, SyntacticallyEqual x y = true -> movable d x = movable d y) ->
      (fst (Pattern.matches (Pattern.ofInstruction i [X; X]) e d ssa mg) = Ok true <->
       SyntacticallyEqual a b = true /\ movable d a = true /\ movable d b = true))) /\
  (forall g e l f a b,
     g <> 0%N -> mg !! g = None ->
     resolveVariable Operation e ssa = FunctionCall l f [a; b] ->
     is_Some (builtin d (name f)) ->
     let X := PatternEWasm.setMatchGroup g (PatternEWasm.ofKind Any) in
     PatternEWasm.matches (PatternEWasm.ofBuiltin (name f) [X; X]) e d ssa mg =
     (Ok (SyntacticallyEqual a b && movable d b), <[g := Some a]> mg) /\
     ((forall x y, SyntacticallyEqual x y = true -> movable d x = movable d y) ->
      (fst (PatternEWasm.matches (PatternEWasm.ofBuiltin (name f) [X; X]) e d ssa mg)
         = Ok true <->
       SyntacticallyEqual a b = true /\ movable d a = true /\ movable d b = true))) /\
  (forall p e,
     Pattern.m_kind p <> Any -> Pattern.m_matchGroup p <> 0%N ->
     is_Some (mg !! Pattern.m_matchGroup p) ->
     Pattern.matches p e d ssa mg =
       match Pattern.matches (Pattern.setMatchGroup 0 p) e d ssa mg with
       | (Ok true, mg1) =>
           (Throw (OptimizerException "Match group repetition for non-any."), mg1)
       | other => other
       end /\
     forall mg1, Pattern.matches p e d ssa mg <> (Ok true, mg1)) /\
  (forall p e,
     PatternEWasm.m_kind p <> Any -> PatternEWasm.m_matchGroup p <> 0%N ->
     is_Some (mg !! PatternEWasm.m_matchGroup p) ->
     PatternEWasm.matches p e d ssa mg =
       match PatternEWasm.matches (PatternEWasm.setMatchGroup 0 p) e d ssa mg with
       | (Ok true, mg1) =>
           (Throw (OptimizerException "Match group repetition for non-any."), mg1)
       | other => other
       end /\
     forall mg1, PatternEWasm.matches p e d ssa mg <> (Ok true, mg1)).
Proof.
  assert (Q : forall a b,
    (forall x y, SyntacticallyEqual x y = true -> movable d x = movable d y) ->
    (Ok (SyntacticallyEqual a b && movable d b) = Ok true <->
     SyntacticallyEqual a b = true /\ movable d a = true /\ movable d b = true)).
  { intros a b C. split.
    - intros [= E]. apply andb_true_iff in E as [E1 E2].
      rewrite (C a b E1). auto.
    - intros (E1 & _ & E2). now rewrite E1, E2. }
  split; [|split; [|split; [|split; [|split]]]].
  - intros p e first C K G L.
    rewrite matches_Any by (auto; apply constructible_arguments; congruence).
    now apply groupCheck_bound_Any.
  - intros p e first C K G L.
    rewrite matchesEWasm_Any by (auto; apply constructible_argumentsEWasm; congruence).
    now apply groupCheck_bound_Any.
  - intros g i e a b G L R X. subst X.
    rewrite (matches_X_op_X g i e a b d ssa mg) by assumption.
    split; [reflexivity|]. simpl. now apply Q.
  - intros g e l f a b G L R B X. subst X.
    rewrite (matchesEWasm_X_op_X g e l f a b d ssa mg) by assumption.
    split; [reflexivity|]. simpl. now apply Q.
  - intros p e K G B.
    pose proof (matches_bound_non_any p e d ssa mg K G B) as S.
    split; [exact S|]. intros mg1 E. rewrite S in E.
    destruct (Pattern.matches (Pattern.setMatchGroup 0 p) e d ssa mg)
      as [[[|]|x] mg2]; discriminate E.
  - intros p e K G B.
    pose proof (matchesEWasm_bound_non_any p e d ssa mg K G B) as S.
    split; [exact S|]. intros mg1 E. rewrite S in E.
    destruct (PatternEWasm.matches (PatternEWasm.setMatchGroup 0 p) e d ssa mg)
      as [[[|]|x] mg2]; discriminate E.
Qed.

Lemma bound_group_witness :
  Pattern.matches Examples.X (Reference.var "b") Reference.evm ∅
    {[ 5%N := Some (Reference.var "a") ]} =
  (Ok false, {[ 5%N := Some (Reference.var "a") ]}) /\
  (fst (Pattern.matches (Pattern.ofInstruction Instr.ADD [Examples.X; Examples.X])
          (Examples.add (Reference.var "a") (Reference.var "a")) Reference.evm ∅ ∅)
   = Ok true <->
   SyntacticallyEqual (Reference.var "a") (Reference.var "a") = true /\
   movable Reference.evm (Reference.var "a") = true /\
   movable Reference.evm (Reference.var "a") = true) /\
  Pattern.matches Examples.A (Reference.num "3") Reference.evm ∅
    {[ 1%N := Some (Reference.num "3") ]} <>
  (Ok true, {[ 1%N := Some (Reference.num "3") ]}).
Proof.
  split; [|split].
  - exact (proj1 (bound_group_needs_equal_and_movable Reference.evm ∅
                    {[ 5%N := Some (Reference.var "a") ]})
             Examples.X (Reference.var "b") (Reference.var "a")
             (Constructible.setMatchGroup 5 _ (Constructible.ofKind Any))
             eq_refl ltac:(discriminate) eq_refl).
  - apply (proj2 (proj1 (proj2 (proj2 (bound_group_needs_equal_and_movable
                                         Reference.evm ∅ ∅)))
                    5%N Instr.ADD
                    (Examples.add (Reference.var "a") (Reference.var "a"))
                    (Reference.var "a") (Reference.var "a")
                    ltac:(discriminate) ltac:(reflexivity) ltac:(reflexivity))).
    intros x y. apply reference_movable_respects.
  - apply (proj2 (proj1 (proj2 (proj2 (proj2 (proj2
             (bound_group_needs_equal_and_movable Reference.evm ∅
                {[ 1%N := Some (Reference.num "3") ]})))))
             Examples.A (Reference.num "3")
             ltac:(discriminate) ltac:(discriminate) ltac:(vm_compute; eauto))).
Defined.

(** The constant pattern [A] with group 1 bound to the literal 3, against
    the literal 3: the stored and the new expression are syntactically equal
    and the new one is movable, yet [matches] throws. *)
Lemma bound_group_on_constant_throws :
  Pattern.m_matchGroup Examples.A = 1%N /\
  ({[ 1%N := Some (Reference.num "3") ]} : MatchGroups) !! 1%N
    = Some (Some (Reference.num "3")) /\
  SyntacticallyEqual (Reference.num "3") (Reference.num "3")
    && movable Reference.evm (Reference.num "3") = true /\
  Pattern.matches Examples.A (Reference.num "3") Reference.evm ∅
    {[ 1%N := Some (Reference.num "3") ]} =
  (Throw (OptimizerException "Match group repetition for non-any."),
   {[ 1%N := Some (Reference.num "3") ]}).
Proof. repeat split; vm_compute; reflexivity. Qed.

(** ** Variables and their SSA values *)

Section Substitution.
Context `{Collaborators}.

Lemma resolveVariable_known k i v (ssa : SSAValues) :
  k <> Any -> ssa !! name i = Some (Some v) ->
  resolveVariable k (EIdentifier i) ssa = v.
Proof.
  intros K L. unfold resolveVariable. now rewrite (bool_decide_eq_true_2 _ K), L.
Qed.

Lemma resolveVariable_Any e (ssa : SSAValues) : resolveVariable Any e ssa = e.
Proof. reflexivity. Qed.

Lemma groupCheck_ignores_original k g _e _e' e d mg :
  k <> Any ->
  matchGroupCheck k g _e e d mg = matchGroupCheck k g _e' e d mg.
Proof.
  intros K. unfold matchGroupCheck.
  destruct (bool_decide (g <> 0%N)); [|reflexivity].
  unfold bind, count. destruct (bool_decide (is_Some (mg !! g)));
    rewrite (bool_decide_eq_false_2 _ K); reflexivity.
Qed.

Lemma matches_same_resolution p e e' d ssa mg :
  Pattern.m_kind p <> Any ->
  resolveVariable (Pattern.m_kind p) e ssa = resolveVariable (Pattern.m_kind p) e' ssa ->
  Pattern.matches p e d ssa mg = Pattern.matches p e' d ssa mg.
Proof.
  intros K R. rewrite !matches_unfold. cbv zeta. rewrite R.
  unfold bind at 1. unfold bind at 5.
  match goal with |- context [match ?S mg with _ => _ end] =>
    destruct (S mg) as [[[|]|x] mg1] end; try reflexivity.
  now apply groupCheck_ignores_original.
Qed.

End Substitution.

(** C4: a pattern that is not [Any], met with a variable the SSA map gives
    a value, is matched against that value: the result is that of matching
    the value itself, and where the value is in turn a variable it is not
    looked through a second time, so the pattern fails.  An [Any] pattern
    never reads the SSA map.  When an unbound group is bound, an [Any]
    pattern stores the expression it was given, a variable included, and a
    [Constant] pattern stores the literal the variable stands for. *)
Theorem variables_are_looked_through `{Collaborators}
    (d : Dialect) (ssa : SSAValues) (mg : MatchGroups) :
  (forall p i v,
     Pattern.m_kind p <> Any -> ssa !! name i = Some (Some v) ->
     resolveVariable (Pattern.m_kind p) v ssa = v ->
     Pattern.matches p (EIdentifier i) d ssa mg = Pattern.matches p v d ssa mg) /\
  (forall p i j,
     Pattern.m_kind p <> Any -> ssa !! name i = Some (Some (EIdentifier j)) ->
     Pattern.matches p (EIdentifier i) d ssa mg = (Ok false, mg)) /\
  (forall p e ssa',
     Pattern.m_kind p = Any ->
     Pattern.matches p e d ssa mg = Pattern.matches p e d ssa' mg) /\
  (forall p e,
     Constructible.pattern p -> Pattern.m_kind p = Any ->
     Pattern.m_matchGroup p <> 0%N -> mg !! Pattern.m_matchGroup p = None ->
     Pattern.matches p e d ssa mg = (Ok true, <[Pattern.m_matchGroup p := Some e]> mg)) /\
  (forall p i l,
     Constructible.pattern p -> Pattern.m_kind p = Constant ->
     Pattern.m_matchGroup p <> 0%N -> mg !! Pattern.m_matchGroup p = None ->
     ssa !! name i = Some (Some (ELiteral l)) -> kind l = Number ->
     (forall v, Pattern.m_data p = Some v -> v = u256_of_string (value l)) ->
     Pattern.matches p (EIdentifier i) d ssa mg =
     (Ok true, <[Pattern.m_matchGroup p := Some (ELiteral l)]> mg)).
Proof.
  split; [|split; [|split; [|split]]].
  - intros p i v K L R. apply matches_same_resolution; [assumption|].
    now rewrite R, (resolveVariable_known _ i v ssa K L).
  - intros p i j K L. rewrite matches_unfold. cbv zeta.
    rewrite (resolveVariable_known _ i _ ssa K L).
    destruct (Pattern.m_kind p); [reflexivity | reflexivity | congruence].
  - intros p e ssa' K. rewrite !matches_unfold. cbv zeta. now rewrite K.
  - intros p e C K G L.
    rewrite matches_Any by (auto; apply constructible_arguments; congruence).
    now apply groupCheck_unbound_Any.
  - intros p i l C K G L S KN D.
    rewrite matches_Constant by (auto; apply constructible_arguments; congruence).
    rewrite (resolveVariable_known Constant i _ ssa ltac:(discriminate) S).
    rewrite bool_decide_eq_false_2 by (intros N; now apply N).
    destruct (Pattern.m_data p) as [v|].
    + rewrite bool_decide_eq_false_2 by (intros N; apply N; now apply D).
      now apply groupCheck_unbound_Constant.
    + now apply groupCheck_unbound_Constant.
Qed.

Lemma variables_witness :
  Pattern.matches (Pattern.ofInstruction Instr.ADD [Examples.X; Examples.A])
    (Reference.var "s") Reference.evm
    {[ "s" := Some (Examples.add (Reference.var "y") (Reference.num "2")) ]} ∅ =
  Pattern.matches (Pattern.ofInstruction Instr.ADD [Examples.X; Examples.A])
    (Examples.add (Reference.var "y") (Reference.num "2")) Reference.evm
    {[ "s" := Some (Examples.add (Reference.var "y") (Reference.num "2")) ]} ∅ /\
  Pattern.matches Examples.X (Reference.var "x") Reference.evm
    {[ "x" := Some (Reference.num "4") ]} ∅ =
  (Ok true, {[ 5%N := Some (Reference.var "x") ]}) /\
  Pattern.matches Examples.A (Reference.var "x") Reference.evm
    {[ "x" := Some (Reference.num "4") ]} ∅ =
  (Ok true, {[ 1%N := Some (Reference.num "4") ]}).
Proof.
  split; [|split].
  - apply (proj1 (variables_are_looked_through Reference.evm
                    {[ "s" := Some (Examples.add (Reference.var "y") (Reference.num "2")) ]}
                    ∅));
      [discriminate | reflexivity | reflexivity].
  - exact (proj1 (proj2 (proj2 (proj2 (variables_are_looked_through Reference.evm
                    {[ "x" := Some (Reference.num "4") ]} ∅))))
             Examples.X (Reference.var "x")
             (Constructible.setMatchGroup 5 _ (Constructible.ofKind Any))
             eq_refl ltac:(discriminate) eq_refl).
  - exact (proj2 (proj2 (proj2 (proj2 (variables_are_looked_through Reference.evm
                    {[ "x" := Some (Reference.num "4") ]} ∅))))
             Examples.A (mkIdentifier Reference.here "x")
             (mkLiteral Reference.here Number "4" EmptyString)
             (Constructible.setMatchGroup 1 _ (Constructible.ofKind Constant))
             eq_refl ltac:(discriminate) eq_refl eq_refl eq_refl
             ltac:(discriminate)).
Defined.

(** ** What a match binds *)

Lemma bindsWithin_weaken {A} (S S' : Expression -> Prop) (m : M A) :
  (forall v, S v -> S' v) -> bindsWithin S m -> bindsWithin S' m.
Proof.
  intros I B mg r mg' E g v L. destruct (B mg r mg' E g v L); auto.
Qed.

Lemma bindsWithin_ret {A} S (a : A) : bindsWithin S (ret a).
Proof. intros mg r mg' [= <- <-] g v L. now left. Qed.

Lemma bindsWithin_throw {A} S x : bindsWithin S (@throw A x).
Proof. intros mg r mg' [= <- <-] g v L. now left. Qed.

Lemma bindsWithin_assertThrow S c msg : bindsWithin S (assertThrow c msg).
Proof. destruct c; [apply bindsWithin_ret | apply bindsWithin_throw]. Qed.

Lemma bindsWithin_bind {A B} S (m : M A) (k : A -> M B) :
  bindsWithin S m -> (forall a, bindsWithin S (k a)) -> bindsWithin S (bind m k).
Proof.
  intros Bm Bk mg r mg'. unfold bind.
  destruct (m mg) as [[a|x] mg1] eqn:E; intros R g v L.
  - destruct (Bk a mg1 r mg' R g v L) as [L1|]; [|now right].
    apply (Bm mg _ mg1 E g v L1).
  - injection R as <- <-. apply (Bm mg _ mg1 E g v L).
Qed.

Lemma bindsWithin_if {A} S (b : bool) (m1 m2 : M A) :
  bindsWithin S m1 -> bindsWithin S m2 -> bindsWithin S (if b then m1 else m2).
Proof. now destruct b. Qed.

Lemma bindsWithin_insert S g e :
  S e -> bindsWithin S (assign g e).
Proof.
  intros Se mg r mg' [= <- <-] g' v L.
  destruct (decide (g = g')) as [<-|NE].
  - rewrite lookup_insert_eq in L. injection L as <-. now right.
  - rewrite lookup_insert_ne in L by assumption. now left.
Qed.

Lemma bindsWithin_matchGroupCheck `{Collaborators} k g _e e d :
  bindsWithin (fun v => v = _e \/ v = e) (matchGroupCheck k g _e e d).
Proof.
  unfold matchGroupCheck.
  apply bindsWithin_if; [|apply bindsWithin_ret].
  intros mg r mg'. unfold bind at 1. unfold count.
  destruct (mg !! g) as [w|] eqn:L.
  - rewrite bool_decide_eq_true_2 by eauto.
    unfold bind, assertThrow, subscript.
    destruct (bool_decide (k = Any)); simpl; [|intros [= <- <-]; now left].
    rewrite L. destruct w; intros [= <- <-]; now left.
  - rewrite bool_decide_eq_false_2 by (intros [? ?]; discriminate).
    clear L. revert mg r mg'.
    apply bindsWithin_if.
    + apply bindsWithin_bind; [apply bindsWithin_insert; now left|].
      intros _. apply bindsWithin_ret.
    + apply bindsWithin_bind; [apply bindsWithin_assertThrow|]. intros _.
      apply bindsWithin_bind; [apply bindsWithin_insert; now right|].
      intros _. apply bindsWithin_ret.
Qed.

Section BoundSubexpressions.
Context `{Collaborators}.

Lemma resolveVariable_subexpression k e (ssa : SSAValues) :
  subexpression ssa e (resolveVariable k e ssa).
Proof.
  unfold resolveVariable. destruct (bool_decide (k <> Any)); [|constructor].
  destruct e as [| |i|]; try constructor.
  destruct (ssa !! name i) as [[w|]|] eqn:L; try constructor.
  eapply sub_ssa; [exact L | constructor].
Qed.

Lemma subexpression_trans ssa a b c :
  subexpression ssa a b -> subexpression ssa b c -> subexpression ssa a c.
Proof.
  induction 1; intros Hc; auto.
  - eapply sub_instruction; eauto.
  - eapply sub_call; eauto.
  - eapply sub_ssa; eauto.
Qed.

Lemma instructionAndArguments_subexpression d ssa e i args a :
  instructionAndArguments d e = Some (i, args) -> In a args -> subexpression ssa e a.
Proof.
  destruct e as [l j es|l f es| |]; simpl; try discriminate.
  - intros [= _ <-] I. eapply sub_instruction; [exact I | constructor].
  - destruct (isEVMDialect d); [|discriminate].
    destruct (builtin d (name f)) as [[[j|]]|]; try discriminate.
    intros [= _ <-] I. eapply sub_call; [exact I | constructor].
Qed.

Lemma bindsWithin_matchesAll d ssa ps :
  Forall (fun q => forall e,
            bindsWithin (subexpression ssa e) (Pattern.matches q e d ssa)) ps ->
  forall es,
    bindsWithin (fun v => exists a, In a es /\ subexpression ssa a v)
      (Pattern.matchesAll d ssa ps es).
Proof.
  induction 1 as [|q ps Hq _ IH]; intros es; simpl.
  - apply bindsWithin_ret.
  - destruct es as [|e es]; [apply bindsWithin_throw|].
    apply bindsWithin_bind.
    + eapply bindsWithin_weaken; [|apply Hq].
      intros v S. exists e. split; [now left | exact S].
    + intros b. apply bindsWithin_if; [|apply bindsWithin_ret].
      eapply bindsWithin_weaken; [|apply IH].
      intros v (a & I & S). exists a. split; [now right | exact S].
Qed.

Lemma bindsWithin_matches p :
  forall e d ssa, bindsWithin (subexpression ssa e) (Pattern.matches p e d ssa).
Proof.
  induction p as [p IH] using pattern_induction. intros e d ssa.
  rewrite matches_unfold. cbv zeta.
  apply bindsWithin_bind.
  - destruct (Pattern.m_kind p).
    + destruct (instructionAndArguments d _) as [[instr args]|] eqn:R;
        [|apply bindsWithin_ret].
      apply bindsWithin_if; [apply bindsWithin_ret|].
      apply bindsWithin_bind; [apply bindsWithin_assertThrow|]. intros _.
      eapply bindsWithin_weaken; [|apply bindsWithin_matchesAll].
      * intros v (a & I & S).
        eapply subexpression_trans; [apply resolveVariable_subexpression|].
        eapply subexpression_trans; [|exact S].
        eapply instructionAndArguments_subexpression; eassumption.
      * eapply Forall_impl; [exact IH|]. intros q Hq e'. apply Hq.
    + destruct (resolveVariable _ e ssa); try apply bindsWithin_ret.
      apply bindsWithin_if; [apply bindsWithin_ret|].
      destruct (Pattern.m_data p).
      * apply bindsWithin_if; [apply bindsWithin_ret|].
        apply bindsWithin_bind;
          [apply bindsWithin_assertThrow | intros _; apply bindsWithin_ret].
      * apply bindsWithin_bind;
          [apply bindsWithin_assertThrow | intros _; apply bindsWithin_ret].
    + apply bindsWithin_bind;
        [apply bindsWithin_assertThrow | intros _; apply bindsWithin_ret].
  - intros b. apply bindsWithin_if; [|apply bindsWithin_ret].
    eapply bindsWithin_weaken; [|apply bindsWithin_matchGroupCheck].
    intros v [->| ->]; [constructor | apply resolveVariable_subexpression].
Qed.

End BoundSubexpressions.

(** ** Reconstruction *)

Section Reconstruction.
Context `{Collaborators}.

Lemma noNullGroup_empty : noNullGroup ∅.
Proof. intros g. rewrite lookup_empty. discriminate. Qed.

Lemma matches_binds_expressions p e d ssa r mg' g :
  Pattern.matches p e d ssa ∅ = (r, mg') -> is_Some (mg' !! g) ->
  exists v, mg' !! g = Some (Some v).
Proof.
  intros S [[v|] L]; [now exists v|].
  destruct (grows_matches p e d ssa ∅ r mg' S) as [_ N].
  now destruct (N noNullGroup_empty g).
Qed.

Lemma matchGroupValue_bound q v (mg : MatchGroups) :
  Pattern.m_matchGroup q <> 0%N -> mg !! Pattern.m_matchGroup q = Some (Some v) ->
  Pattern.matchGroupValue q mg = (Ok v, mg).
Proof.
  intros G L. unfold Pattern.matchGroupValue, bind, subscript.
  replace (0 <? Pattern.m_matchGroup q)%N with true
    by (symmetry; apply N.ltb_lt; lia).
  simpl. now rewrite L.
Qed.

Lemma toExpression_bound q loc v (mg : MatchGroups) :
  Pattern.m_matchGroup q <> 0%N -> mg !! Pattern.m_matchGroup q = Some (Some v) ->
  Pattern.toExpression q loc mg = (Ok (translate v), mg).
Proof.
  intros G L. destruct q as [k i dt args g]; simpl in *.
  unfold Pattern.matchGroup. simpl.
  rewrite (bool_decide_eq_true_2 _ G). unfold bind.
  now rewrite (matchGroupValue_bound (Pattern.mk k i dt args g) v mg G L).
Qed.

End Reconstruction.

(** ** Where a group is bound *)

Lemma bindsAt_weaken {A} (S S' : N -> Expression -> Prop) (m : M A) :
  (forall g v, S g v -> S' g v) -> bindsAt S m -> bindsAt S' m.
Proof.
  intros I B mg r mg' E g v L. destruct (B mg r mg' E g v L); auto.
Qed.

Lemma bindsAt_ret {A} S (a : A) : bindsAt S (ret a).
Proof. intros mg r mg' [= <- <-] g v L. now left. Qed.

Lemma bindsAt_throw {A} S x : bindsAt S (@throw A x).
Proof. intros mg r mg' [= <- <-] g v L. now left. Qed.

Lemma bindsAt_assertThrow S c msg : bindsAt S (assertThrow c msg).
Proof. destruct c; [apply bindsAt_ret | apply bindsAt_throw]. Qed.

Lemma bindsAt_bind {A B} S (m : M A) (k : A -> M B) :
  bindsAt S m -> (forall a, bindsAt S (k a)) -> bindsAt S (bind m k).
Proof.
  intros Bm Bk mg r mg'. unfold bind.
  destruct (m mg) as [[a|x] mg1] eqn:E; intros R g v L.
  - destruct (Bk a mg1 r mg' R g v L) as [L1|]; [|now right].
    apply (Bm mg _ mg1 E g v L1).
  - injection R as <- <-. apply (Bm mg _ mg1 E g v L).
Qed.

Lemma bindsAt_if {A} S (b : bool) (m1 m2 : M A) :
  bindsAt S m1 -> bindsAt S m2 -> bindsAt S (if b then m1 else m2).
Proof. now destruct b. Qed.

Lemma bindsAt_assign (S : N -> Expression -> Prop) g e :
  S g e -> bindsAt S (assign g e).
Proof.
  intros Se mg r mg' [= <- <-] g' v L.
  destruct (decide (g = g')) as [<-|NE].
  - rewrite lookup_insert_eq in L. injection L as <-. now right.
  - rewrite lookup_insert_ne in L by assumption. now left.
Qed.

Lemma bindsAt_matchGroupCheck `{Collaborators} k g _e e d :
  bindsAt (fun g' v => g' = g /\ k <> Operation /\
                       v = if bool_decide (k = Any) then _e else e)
    (matchGroupCheck k g _e e d).
Proof.
  unfold matchGroupCheck.
  apply bindsAt_if; [|apply bindsAt_ret].
  intros mg r mg'. unfold bind at 1. unfold count.
  destruct (mg !! g) as [w|] eqn:L.
  - rewrite bool_decide_eq_true_2 by eauto.
    unfold bind, assertThrow, subscript.
    destruct (bool_decide (k = Any)); simpl; [|intros [= <- <-]; now left].
    rewrite L. destruct w; intros [= <- <-]; now left.
  - rewrite bool_decide_eq_false_2 by (intros [? ?]; discriminate).
    clear L. revert mg r mg'.
    destruct (bool_decide (k = Any)) eqn:KA.
    + apply bool_decide_eq_true_1 in KA.
      apply bindsAt_bind; [|intros _; apply bindsAt_ret].
      apply bindsAt_assign. repeat split. congruence.
    + destruct (bool_decide (k = Constant)) eqn:KC.
      * apply bool_decide_eq_true_1 in KC.
        apply bindsAt_bind; [apply bindsAt_assertThrow|]. intros _.
        apply bindsAt_bind; [|intros _; apply bindsAt_ret].
        apply bindsAt_assign. repeat split. congruence.
      * intros mg r mg'. unfold bind, assertThrow, throw.
        intros [= <- <-]. now left.
Qed.

Section CapturedGroups.
Context `{Collaborators}.

Lemma bindsAt_matchesAll d ssa ps :
  Forall (fun q => forall e,
            bindsAt (fun g v => captured d ssa g q e v) (Pattern.matches q e d ssa)) ps ->
  forall es,
    bindsAt (fun g v => exists q a, In (q, a) (combine ps es) /\ captured d ssa g q a v)
      (Pattern.matchesAll d ssa ps es).
Proof.
  induction 1 as [|q ps Hq _ IH]; intros es; simpl.
  - apply bindsAt_ret.
  - destruct es as [|e es]; [apply bindsAt_throw|].
    apply bindsAt_bind.
    + eapply bindsAt_weaken; [|apply Hq].
      intros g v C. exists q, e. split; [now left | exact C].
    + intros b. apply bindsAt_if; [|apply bindsAt_ret].
      eapply bindsAt_weaken; [|apply IH].
      intros g v (q' & a & I & C). exists q', a. split; [now right | exact C].
Qed.

Lemma bindsAt_matches p :
  forall e d ssa,
    bindsAt (fun g v => captured d ssa g p e v) (Pattern.matches p e d ssa).
Proof.
  induction p as [p IH] using pattern_induction. intros e d ssa.
  rewrite matches_unfold. cbv zeta.
  apply bindsAt_bind.
  - destruct (Pattern.m_kind p) eqn:K.
    + destruct (instructionAndArguments d _) as [[instr args]|] eqn:R;
        [|apply bindsAt_ret].
      destruct (bool_decide (Pattern.m_instruction p <> instr)) eqn:I;
        [apply bindsAt_ret|].
      apply bool_decide_eq_false_1 in I. apply dec_stable in I. subst instr.
      apply bindsAt_bind; [apply bindsAt_assertThrow|]. intros _.
      eapply bindsAt_weaken; [|apply bindsAt_matchesAll].
      * intros g v (q & a & In & C). eapply captured_below; eassumption.
      * eapply Forall_impl; [exact IH|]. intros q Hq e'. apply Hq.
    + destruct (resolveVariable _ e ssa); try apply bindsAt_ret.
      apply bindsAt_if; [apply bindsAt_ret|].
      destruct (Pattern.m_data p).
      * apply bindsAt_if; [apply bindsAt_ret|].
        apply bindsAt_bind;
          [apply bindsAt_assertThrow | intros _; apply bindsAt_ret].
      * apply bindsAt_bind;
          [apply bindsAt_assertThrow | intros _; apply bindsAt_ret].
    + apply bindsAt_bind;
        [apply bindsAt_assertThrow | intros _; apply bindsAt_ret].
  - intros b. apply bindsAt_if; [|apply bindsAt_ret].
    eapply bindsAt_weaken; [|apply bindsAt_matchGroupCheck].
    intros g v (-> & KO & ->).
    replace (if bool_decide (Pattern.m_kind p = Any) then e
             else resolveVariable (Pattern.m_kind p) e ssa)
      with (resolveVariable (Pattern.m_kind p) e ssa).
    + now apply captured_here.
    + destruct (bool_decide (Pattern.m_kind p = Any)) eqn:KA; [|reflexivity].
      apply bool_decide_eq_true_1 in KA. now rewrite KA.
Qed.

Lemma matches_captures p e d ssa mg' g v :
  Pattern.matches p e d ssa ∅ = (Ok true, mg') -> mg' !! g = Some (Some v) ->
  captured d ssa g p e v.
Proof.
  intros S L.
  destruct (bindsAt_matches p e d ssa ∅ _ mg' S g v L) as [E|C]; [|exact C].
  rewrite lookup_empty in E. discriminate E.
Qed.

End CapturedGroups.

(** C9, as the code has it: after a successful match from a reset table,
    every group the table binds holds an expression (no null), and
    [toExpression] on a pattern with such a group returns the copy of
    exactly that expression, leaving the table as it is.  The expression
    held is the one the group captured: the sub-expression standing where a
    pattern of the group sits in the tree, as it is when that pattern is
    [Any], and with the variable replaced by its SSA value when that pattern
    is [Constant].  So an [Any] pattern with a group gives back the copy of
    the very expression it was matched against, while a [Constant] pattern
    with a group, matched against a variable that stands for a number
    literal, gives back the copy of the literal, not of the variable.  With
    a copier whose copies are syntactically equal to their originals, the
    result is syntactically equal to the expression held. *)
Theorem toExpression_copies_the_bound_expression `{Collaborators}
    (d : Dialect) (ssa : SSAValues) :
  (forall x, SyntacticallyEqual (translate x) x = true) ->
  (forall p e mg' q loc,
     Pattern.matches p e d ssa ∅ = (Ok true, mg') ->
     Pattern.m_matchGroup q <> 0%N -> is_Some (mg' !! Pattern.m_matchGroup q) ->
     exists v c,
       mg' !! Pattern.m_matchGroup q = Some (Some v) /\
       captured d ssa (Pattern.m_matchGroup q) p e v /\
       subexpression ssa e v /\
       Pattern.toExpression q loc mg' = (Ok c, mg') /\
       c = translate v /\ SyntacticallyEqual c v = true) /\
  (forall p e loc,
     Constructible.pattern p -> Pattern.m_kind p = Any -> Pattern.m_matchGroup p <> 0%N ->
     exists mg' c,
       Pattern.matches p e d ssa ∅ = (Ok true, mg') /\
       Pattern.toExpression p loc mg' = (Ok c, mg') /\
       c = translate e /\ SyntacticallyEqual c e = true) /\
  (forall p i l loc,
     Constructible.pattern p -> Pattern.m_kind p = Constant ->
     Pattern.m_matchGroup p <> 0%N ->
     ssa !! name i = Some (Some (ELiteral l)) -> kind l = Number ->
     (forall v, Pattern.m_data p = Some v -> v = u256_of_string (value l)) ->
     exists mg' c,
       Pattern.matches p (EIdentifier i) d ssa ∅ = (Ok true, mg') /\
       Pattern.toExpression p loc mg' = (Ok c, mg') /\
       c = translate (ELiteral l) /\ SyntacticallyEqual c (ELiteral l) = true).
Proof.
  intros Copy. split; [|split].
  - intros p e mg' q loc S G B.
    destruct (matches_binds_expressions p e d ssa _ mg' _ S B) as [v L].
    exists v, (translate v). repeat split; auto.
    + eapply matches_captures; eassumption.
    + destruct (bindsWithin_matches p e d ssa ∅ _ mg' S _ v L) as [E|Sub];
        [|exact Sub].
      rewrite lookup_empty in E. discriminate E.
    + now apply toExpression_bound.
  - intros p e loc C K G.
    exists (<[Pattern.m_matchGroup p := Some e]> ∅), (translate e).
    repeat split; auto.
    + rewrite matches_Any by (auto; apply constructible_arguments; congruence).
      apply groupCheck_unbound_Any; [assumption | apply lookup_empty].
    + apply toExpression_bound; [assumption | apply lookup_insert_eq].
  - intros p i l loc C K G S KN D.
    exists (<[Pattern.m_matchGroup p := Some (ELiteral l)]> ∅), (translate (ELiteral l)).
    repeat split; auto.
    + rewrite matches_Constant by (auto; apply constructible_arguments; congruence).
      rewrite (resolveVariable_known Constant i _ ssa ltac:(discriminate) S).
      rewrite bool_decide_eq_false_2 by (intros N; now apply N).
      destruct (Pattern.m_data p) as [v|].
      * rewrite bool_decide_eq_false_2 by (intros N; apply N; now apply D).
        apply groupCheck_unbound_Constant; [assumption | apply lookup_empty].
      * apply groupCheck_unbound_Constant; [assumption | apply lookup_empty].
    + apply toExpression_bound; [assumption | apply lookup_insert_eq].
Qed.

(** ADD(X, A) against add(y, k), where k stands for the literal 4: group 1
    captured the literal, so [toExpression] on A gives a copy of the literal;
    A alone against [k] gives back the literal as well, X alone against [y]
    gives back [y]. *)
Lemma toExpression_witness :
  (exists v c,
     ({[ 1%N := Some (Reference.num "4"); 5%N := Some (Reference.var "y") ]} : MatchGroups)
       !! Pattern.m_matchGroup Examples.A = Some (Some v) /\
     captured Reference.evm {[ "k" := Some (Reference.num "4") ]}
       (Pattern.m_matchGroup Examples.A)
       (Pattern.ofInstruction Instr.ADD [Examples.X; Examples.A])
       (Examples.add (Reference.var "y") (Reference.var "k")) v /\
     subexpression {[ "k" := Some (Reference.num "4") ]}
       (Examples.add (Reference.var "y") (Reference.var "k")) v /\
     Pattern.toExpression Examples.A Reference.there
       {[ 1%N := Some (Reference.num "4"); 5%N := Some (Reference.var "y") ]}
       = (Ok c, {[ 1%N := Some (Reference.num "4"); 5%N := Some (Reference.var "y") ]}) /\
     c = translate v /\ SyntacticallyEqual c v = true) /\
  (exists mg' c,
     Pattern.matches Examples.X (Reference.var "y") Reference.evm ∅ ∅ = (Ok true, mg') /\
     Pattern.toExpression Examples.X Reference.there mg' = (Ok c, mg') /\
     c = translate (Reference.var "y") /\
     SyntacticallyEqual c (Reference.var "y") = true) /\
  (exists mg' c,
     Pattern.matches Examples.A (Reference.var "k") Reference.evm
       {[ "k" := Some (Reference.num "4") ]} ∅ = (Ok true, mg') /\
     Pattern.toExpression Examples.A Reference.there mg' = (Ok c, mg') /\
     c = translate (Reference.num "4") /\
     SyntacticallyEqual c (Reference.num "4") = true).
Proof.
  pose (ssa := ({[ "k" := Some (Reference.num "4") ]} : SSAValues)).
  split; [|split].
  - apply (proj1 (@toExpression_copies_the_bound_expression Reference.collaborators
                    Reference.evm ssa reference_copy_equal)
             (Pattern.ofInstruction Instr.ADD [Examples.X; Examples.A])
             (Examples.add (Reference.var "y") (Reference.var "k")));
      [vm_compute; reflexivity | discriminate | vm_compute; eauto].
  - apply (proj1 (proj2 (@toExpression_copies_the_bound_expression
                           Reference.collaborators Reference.evm ∅
                           reference_copy_equal)));
      [repeat constructor | reflexivity | discriminate].
  - apply (proj2 (proj2 (@toExpression_copies_the_bound_expression
                           Reference.collaborators Reference.evm ssa
                           reference_copy_equal))
             Examples.A (mkIdentifier Reference.here "k")
             (mkLiteral Reference.here Number "4" EmptyString));
      [repeat constructor | reflexivity | discriminate | reflexivity | reflexivity
      | discriminate].
Defined.

(** The round trip does not reproduce the matched sub-expression verbatim:
    ADD(X, A) matches add(y, k) when the variable k stands for the literal
    4; the sub-expression at the place of A is the variable k, yet
    [toExpression] on A returns the literal 4, which is not syntactically
    equal to k. *)
Lemma toExpression_gives_the_value_not_the_variable :
  Pattern.matches (Pattern.ofInstruction Instr.ADD [Examples.X; Examples.A])
    (Examples.add (Reference.var "y") (Reference.var "k")) Reference.evm
    {[ "k" := Some (Reference.num "4") ]} ∅ =
  (Ok true, {[ 1%N := Some (Reference.num "4"); 5%N := Some (Reference.var "y") ]}) /\
  Pattern.toExpression Examples.A Reference.there
    {[ 1%N := Some (Reference.num "4"); 5%N := Some (Reference.var "y") ]} =
  (Ok (Reference.num "4"),
   {[ 1%N := Some (Reference.num "4"); 5%N := Some (Reference.var "y") ]}) /\
  SyntacticallyEqual (Reference.num "4") (Reference.var "k") = false /\
  Reference.num "4" <> translate (Reference.var "k").
Proof. repeat split; try (vm_compute; reflexivity). discriminate. Qed.

(** ** Rules without an eWasm name *)







Lemma construct_initialized `{Collaborators} list1 list2 rules :
  SimplificationRules.construct list1 list2 = Ok rules ->
  SimplificationRules.isInitialized rules = true.
Proof.
  unfold SimplificationRules.construct.
  destruct (SimplificationRules.addRules _ _) as [rules1|]; [|discriminate].
  destruct (SimplificationRules.addRulesEWasm _ _) as [rules2|]; [|discriminate].
  destruct (SimplificationRules.isInitialized rules2) eqn:I; [|discriminate].
  now intros [= <-].
Qed.





(** * More of the engine *)

(** ** The table during a match *)

(** X1: [matches] only adds to the match-group table: every binding the
    table held before is still there with the same expression afterwards,
    whatever the result (true, false or a throw), and a table without null
    pointers is left without null pointers.  Both pattern classes. *)
Theorem matches_keeps_bindings `{Collaborators}
    (e : Expression) (d : Dialect) (ssa : SSAValues) (mg mg' : MatchGroups) :
  (forall p r, Pattern.matches p e d ssa mg = (r, mg') ->
     (forall g v, mg !! g = Some v -> mg' !! g = Some v) /\
     (noNullGroup mg -> noNullGroup mg')) /\
  (forall p r, PatternEWasm.matches p e d ssa mg = (r, mg') ->
     (forall g v, mg !! g = Some v -> mg' !! g = Some v) /\
     (noNullGroup mg -> noNullGroup mg')).
Proof.
  split; intros p r S.
  - destruct (grows_matches p e d ssa mg r mg' S) as [Sub N]. split; [|exact N].
    intros g v L. eapply lookup_weaken; eassumption.
  - destruct (grows_matchesEWasm p e d ssa mg r mg' S) as [Sub N]. split; [|exact N].
    intros g v L. eapply lookup_weaken; eassumption.
Qed.

Lemma matches_keeps_bindings_witness :
  ({[ 1%N := Some (Reference.num "3"); 7%N := Some (Reference.var "z") ]} : MatchGroups)
    !! 7%N = Some (Some (Reference.var "z")) /\
  noNullGroup
    ({[ 1%N := Some (Reference.num "3"); 7%N := Some (Reference.var "z") ]} : MatchGroups).
Proof.
  assert (S : Pattern.matches
                (Pattern.ofInstruction Instr.ADD [Examples.A; Examples.A])
                (Examples.add (Reference.num "3") (Reference.var "x"))
                Reference.evm ∅
                ({[ 7%N := Some (Reference.var "z") ]} : MatchGroups) =
              (Ok false,
               ({[ 1%N := Some (Reference.num "3");
                   7%N := Some (Reference.var "z") ]} : MatchGroups)))
    by (vm_compute; reflexivity).
  destruct (proj1 (matches_keeps_bindings _ _ _ _ _) _ _ S) as [K N].
  split.
  - apply K. reflexivity.
  - apply N. intros g L.
    apply lookup_singleton_Some in L as [_ L]. discriminate.
Defined.

(** X2: whatever [Pattern::matches] adds to the table comes from the
    expression it was given: every expression the table binds afterwards
    was bound before or is reached from the matched expression through
    arguments and SSA values of variables. *)
Theorem matches_binds_subexpressions `{Collaborators}
    (p : Pattern.t) (e : Expression) (d : Dialect) (ssa : SSAValues)
    (mg mg' : MatchGroups) (r : Result bool) :
  Pattern.matches p e d ssa mg = (r, mg') ->
  forall g v, mg' !! g = Some (Some v) ->
    mg !! g = Some (Some v) \/ subexpression ssa e v.
Proof. intros S g v L. exact (bindsWithin_matches p e d ssa mg r mg' S g v L). Qed.

Lemma matches_binds_subexpressions_witness :
  ((∅ : MatchGroups) !! 1%N = Some (Some (Reference.num "2"))) \/
  subexpression {[ "s" := Some (Examples.add (Reference.var "y") (Reference.num "2")) ]}
    (Reference.var "s") (Reference.num "2").
Proof.
  apply (matches_binds_subexpressions
           (Pattern.ofInstruction Instr.ADD [Examples.X; Examples.A])
           (Reference.var "s") Reference.evm
           {[ "s" := Some (Examples.add (Reference.var "y") (Reference.num "2")) ]}
           ∅ {[ 1%N := Some (Reference.num "2"); 5%N := Some (Reference.var "y") ]}
           (Ok true));
    vm_compute; reflexivity.
Defined.

(** X3: an [Operation] pattern that carries a group id never matches: where
    the pattern without its group id would match, [matches] throws, with
    the message of the repetition when the group is bound by then and with
    the message that a group is set for an operation when it is not; where
    the pattern without its group id returns false, so does the pattern.
    Both pattern classes. *)
Theorem operation_with_group_never_matches `{Collaborators}
    (e : Expression) (d : Dialect) (ssa : SSAValues) (mg : MatchGroups) :
  (forall p, Pattern.m_kind p = Operation -> Pattern.m_matchGroup p <> 0%N ->
     (forall mg1,
        Pattern.matches (Pattern.setMatchGroup 0 p) e d ssa mg = (Ok true, mg1) ->
        Pattern.matches p e d ssa mg =
        (Throw (OptimizerException
                  (if bool_decide (is_Some (mg1 !! Pattern.m_matchGroup p))
                   then "Match group repetition for non-any."
                   else "Match group set for operation.")), mg1)) /\
     (forall mg1,
        Pattern.matches (Pattern.setMatchGroup 0 p) e d ssa mg = (Ok false, mg1) ->
        Pattern.matches p e d ssa mg = (Ok false, mg1)) /\
     (forall mg1, Pattern.matches p e d ssa mg <> (Ok true, mg1))) /\
  (forall p, PatternEWasm.m_kind p = Operation -> PatternEWasm.m_matchGroup p <> 0%N ->
     (forall mg1,
        PatternEWasm.matches (PatternEWasm.setMatchGroup 0 p) e d ssa mg = (Ok true, mg1) ->
        PatternEWasm.matches p e d ssa mg =
        (Throw (OptimizerException
                  (if bool_decide (is_Some (mg1 !! PatternEWasm.m_matchGroup p))
                   then "Match group repetition for non-any."
                   else "Match group set for operation.")), mg1)) /\
     (forall mg1,
        PatternEWasm.matches (PatternEWasm.setMatchGroup 0 p) e d ssa mg = (Ok false, mg1) ->
        PatternEWasm.matches p e d ssa mg = (Ok false, mg1)) /\
     (forall mg1, PatternEWasm.matches p e d ssa mg <> (Ok true, mg1))).
Proof.
  assert (Q : forall g _e x (mg1 : MatchGroups), g <> 0%N ->
    matchGroupCheck Operation g _e x d mg1 =
    (Throw (OptimizerException
              (if bool_decide (is_Some (mg1 !! g))
               then "Match group repetition for non-any."
               else "Match group set for operation.")), mg1)).
  { intros g _e x mg1 G. destruct (mg1 !! g) as [v|] eqn:L.
    - rewrite bool_decide_eq_true_2 by eauto.
      apply groupCheck_bound_other; [assumption | rewrite L; eauto | discriminate].
    - rewrite bool_decide_eq_false_2 by (intros [? ?]; discriminate).
      now apply groupCheck_unbound_Operation. }
  split; intros p K G.
  - assert (T : forall mg1,
        Pattern.matches (Pattern.setMatchGroup 0 p) e d ssa mg = (Ok true, mg1) ->
        Pattern.matches p e d ssa mg =
        (Throw (OptimizerException
                  (if bool_decide (is_Some (mg1 !! Pattern.m_matchGroup p))
                   then "Match group repetition for non-any."
                   else "Match group set for operation.")), mg1)).
    { intros mg1 S. rewrite matches_split, S, K. now apply Q. }
    split; [exact T|]. split.
    + intros mg1 S. now rewrite matches_split, S.
    + intros mg1 E.
      destruct (Pattern.matches (Pattern.setMatchGroup 0 p) e d ssa mg)
        as [[[|]|x] mg2] eqn:S.
      * rewrite (T mg2 eq_refl) in E. discriminate E.
      * rewrite matches_split, S in E. discriminate E.
      * rewrite matches_split, S in E. discriminate E.
  - assert (T : forall mg1,
        PatternEWasm.matches (PatternEWasm.setMatchGroup 0 p) e d ssa mg = (Ok true, mg1) ->
        PatternEWasm.matches p e d ssa mg =
        (Throw (OptimizerException
                  (if bool_decide (is_Some (mg1 !! PatternEWasm.m_matchGroup p))
                   then "Match group repetition for non-any."
                   else "Match group set for operation.")), mg1)).
    { intros mg1 S. rewrite matchesEWasm_split, S, K. now apply Q. }
    split; [exact T|]. split.
    + intros mg1 S. now rewrite matchesEWasm_split, S.
    + intros mg1 E.
      destruct (PatternEWasm.matches (PatternEWasm.setMatchGroup 0 p) e d ssa mg)
        as [[[|]|x] mg2] eqn:S.
      * rewrite (T mg2 eq_refl) in E. discriminate E.
      * rewrite matchesEWasm_split, S in E. discriminate E.
      * rewrite matchesEWasm_split, S in E. discriminate E.
Qed.

Lemma operation_with_group_witness :
  Pattern.matches
    (Pattern.setMatchGroup 3 (Pattern.ofInstruction Instr.ADD [Examples.X; Examples.X]))
    (Examples.add (Reference.var "a") (Reference.var "a")) Reference.evm ∅ ∅ =
  (Throw (OptimizerException "Match group set for operation."),
   {[ 5%N := Some (Reference.var "a") ]}).
Proof.
  pose (mg1 := ({[ 5%N := Some (Reference.var "a") ]} : MatchGroups)).
  assert (S : Pattern.matches
                (Pattern.setMatchGroup 0
                   (Pattern.setMatchGroup 3
                      (Pattern.ofInstruction Instr.ADD [Examples.X; Examples.X])))
                (Examples.add (Reference.var "a") (Reference.var "a"))
                Reference.evm ∅ ∅ = (Ok true, mg1))
    by (vm_compute; reflexivity).
  exact (proj1 (proj1 (operation_with_group_never_matches
                         (Examples.add (Reference.var "a") (Reference.var "a"))
                         Reference.evm ∅ ∅)
                  (Pattern.setMatchGroup 3
                     (Pattern.ofInstruction Instr.ADD [Examples.X; Examples.X]))
                  eq_refl ltac:(discriminate)) mg1 S).
Defined.

(** ** What a successful match says about the expression *)

Lemma assertThrow_inv_ok c msg (mg mg' : MatchGroups) :
  assertThrow c msg mg = (Ok tt, mg') -> c = true /\ mg' = mg.
Proof. destruct c; [intros [= <-]; auto | discriminate]. Qed.

Lemma constructible_children p :
  Constructible.pattern p -> Forall Constructible.pattern (Pattern.m_arguments p).
Proof. induction 1; simpl; auto. Qed.

Section ShapeFacts.
Context `{Collaborators}.
Variables (d : Dialect) (ssa : SSAValues).

Lemma matchesAll_shape ps :
  Forall (fun q => forall e mg mg',
            Pattern.matches q e d ssa mg = (Ok true, mg') -> shape d ssa q e) ps ->
  forall es mg mg',
    length ps = length es ->
    Pattern.matchesAll d ssa ps es mg = (Ok true, mg') ->
    Forall2 (shape d ssa) ps es.
Proof.
  induction 1 as [|q ps Hq _ IH]; intros [|e es] mg mg'; simpl; try discriminate.
  - constructor.
  - intros [= L] S. apply bind_inv_ok in S as (b & mg1 & S1 & S2).
    destruct b; [|discriminate S2].
    constructor; [eapply Hq, S1 | eapply IH; eassumption].
Qed.

Lemma matches_shape p :
  forall e mg mg', Pattern.matches p e d ssa mg = (Ok true, mg') -> shape d ssa p e.
Proof.
  induction p as [p IH] using pattern_induction. intros e mg mg'.
  rewrite matches_unfold. cbv zeta. intros S.
  apply bind_inv_ok in S as (s & mg1 & S1 & S2).
  destruct s; [clear S2 | discriminate S2].
  destruct (Pattern.m_kind p) eqn:K.
  - destruct (instructionAndArguments d _) as [[instr args]|] eqn:R; [|discriminate S1].
    destruct (bool_decide (Pattern.m_instruction p <> instr)) eqn:I; [discriminate S1|].
    apply bool_decide_eq_false_1 in I. apply dec_stable in I. subst instr.
    apply bind_inv_ok in S1 as ([] & mg2 & A & S1).
    apply assertThrow_inv_ok in A as [A ->]. apply Nat.eqb_eq in A.
    eapply shape_Operation; [exact K | exact R |].
    eapply matchesAll_shape; eassumption.
  - destruct (resolveVariable Constant e ssa) as [| | |l] eqn:R; try discriminate S1.
    destruct (bool_decide (kind l <> Number)) eqn:KN; [discriminate S1|].
    apply bool_decide_eq_false_1 in KN. apply dec_stable in KN.
    eapply shape_Constant; [exact K | exact R | exact KN |].
    intros v D. rewrite D in S1.
    destruct (bool_decide (v <> u256_of_string (value l))) eqn:V; [discriminate S1|].
    apply bool_decide_eq_false_1 in V. now apply dec_stable in V.
  - now apply shape_Any.
Qed.

End ShapeFacts.

(** X4: a successful [Pattern::matches] is sound for the shape the pattern
    describes: if it returns true, from whatever table, then the expression
    has the pattern's operator with as many arguments as the pattern has
    children, each of them matching its child in the same sense, constants
    are numeric literals of the fixed value, and so on down the tree. *)
Theorem matches_true_implies_shape `{Collaborators}
    (p : Pattern.t) (e : Expression) (d : Dialect) (ssa : SSAValues)
    (mg mg' : MatchGroups) :
  Pattern.matches p e d ssa mg = (Ok true, mg') -> shape d ssa p e.
Proof. apply matches_shape. Qed.

Lemma matches_true_implies_shape_witness :
  shape Reference.evm {[ "k" := Some (Reference.num "0") ]}
    (Pattern.ofInstruction Instr.ADD [Examples.X; Pattern.ofValue 0])
    (Examples.add (Reference.var "y") (Reference.var "k")).
Proof.
  apply (matches_true_implies_shape _ _ _ _ ∅
           ({[ 5%N := Some (Reference.var "y") ]} : MatchGroups)).
  vm_compute. reflexivity.
Defined.

(** ** Patterns without groups *)

Lemma readsOnly_ret {A} (a : A) : readsOnly (ret a).
Proof. now intros mg r mg' [= _ <-]. Qed.

Lemma readsOnly_throw {A} x : readsOnly (@throw A x).
Proof. now intros mg r mg' [= _ <-]. Qed.

Lemma readsOnly_assertThrow c msg : readsOnly (assertThrow c msg).
Proof. destruct c; [apply readsOnly_ret | apply readsOnly_throw]. Qed.

Lemma readsOnly_bind {A B} (m : M A) (k : A -> M B) :
  readsOnly m -> (forall a, readsOnly (k a)) -> readsOnly (bind m k).
Proof.
  intros Rm Rk mg r mg'. unfold bind.
  destruct (m mg) as [[a|x] mg1] eqn:E; intros R.
  - rewrite (Rm mg _ mg1 E) in R. exact (Rk a mg r mg' R).
  - injection R as <- <-. exact (Rm mg _ mg1 E).
Qed.

Lemma readsOnly_if {A} (b : bool) (m1 m2 : M A) :
  readsOnly m1 -> readsOnly m2 -> readsOnly (if b then m1 else m2).
Proof. now destruct b. Qed.

Lemma groupFree_inv p :
  groupFree p ->
  Pattern.m_matchGroup p = 0%N /\ Forall groupFree (Pattern.m_arguments p).
Proof. now destruct 1. Qed.

Section GroupFree.
Context `{Collaborators}.
Variables (d : Dialect) (ssa : SSAValues).

Lemma readsOnly_matchesAll ps :
  Forall (fun q => groupFree q -> forall e, readsOnly (Pattern.matches q e d ssa)) ps ->
  Forall groupFree ps ->
  forall es, readsOnly (Pattern.matchesAll d ssa ps es).
Proof.
  induction 1 as [|q ps Hq _ IH]; intros G es; simpl.
  - apply readsOnly_ret.
  - destruct es as [|e es]; [apply readsOnly_throw|].
    apply Forall_cons_1 in G as [Gq Gps].
    apply readsOnly_bind; [now apply Hq|].
    intros b. apply readsOnly_if; [now apply IH | apply readsOnly_ret].
Qed.

Lemma readsOnly_matches p :
  groupFree p -> forall e, readsOnly (Pattern.matches p e d ssa).
Proof.
  induction p as [p IH] using pattern_induction. intros G e.
  apply groupFree_inv in G as [G0 Gc].
  rewrite matches_unfold. cbv zeta. rewrite G0.
  apply readsOnly_bind;
    [|intros b; apply readsOnly_if; [|apply readsOnly_ret];
      intros mg r mg'; rewrite groupCheck_none; now intros [= _ <-]].
  destruct (Pattern.m_kind p).
  - destruct (instructionAndArguments d _) as [[instr args]|]; [|apply readsOnly_ret].
    apply readsOnly_if; [apply readsOnly_ret|].
    apply readsOnly_bind; [apply readsOnly_assertThrow|]. intros _.
    now apply readsOnly_matchesAll.
  - destruct (resolveVariable _ e ssa); try apply readsOnly_ret.
    apply readsOnly_if; [apply readsOnly_ret|].
    destruct (Pattern.m_data p).
    + apply readsOnly_if; [apply readsOnly_ret|].
      apply readsOnly_bind; [apply readsOnly_assertThrow | intros _; apply readsOnly_ret].
    + apply readsOnly_bind; [apply readsOnly_assertThrow | intros _; apply readsOnly_ret].
  - apply readsOnly_bind; [apply readsOnly_assertThrow | intros _; apply readsOnly_ret].
Qed.

Lemma shape_matchesAll ps :
  Forall (fun q => Constructible.pattern q -> groupFree q ->
            forall e mg, shape d ssa q e ->
                         Pattern.matches q e d ssa mg = (Ok true, mg)) ps ->
  Forall Constructible.pattern ps -> Forall groupFree ps ->
  forall es mg, Forall2 (shape d ssa) ps es ->
                Pattern.matchesAll d ssa ps es mg = (Ok true, mg).
Proof.
  induction 1 as [|q ps Hq _ IH]; intros C G es mg S; inversion S; subst; simpl.
  - reflexivity.
  - apply Forall_cons_1 in C as [Cq Cps]. apply Forall_cons_1 in G as [Gq Gps].
    unfold bind. rewrite (Hq Cq Gq _ mg) by assumption. now apply IH.
Qed.

Lemma shape_matches p :
  Constructible.pattern p -> groupFree p ->
  forall e mg, shape d ssa p e -> Pattern.matches p e d ssa mg = (Ok true, mg).
Proof.
  induction p as [p IH] using pattern_induction. intros C G e mg S.
  apply groupFree_inv in G as [G0 Gc].
  inversion S as [p0 e0 K|p0 e0 l K R KN D|p0 e0 args K R Sub]; subst.
  - rewrite matches_Any, G0 by (auto; apply constructible_arguments; congruence).
    apply groupCheck_none.
  - rewrite matches_Constant, R, G0
      by (auto; apply constructible_arguments; congruence).
    rewrite bool_decide_eq_false_2 by (intros N; now apply N).
    destruct (Pattern.m_data p) as [v|]; [|apply groupCheck_none].
    rewrite bool_decide_eq_false_2 by (intros N; apply N; now apply D).
    apply groupCheck_none.
  - rewrite matches_Operation, R by assumption.
    rewrite bool_decide_eq_false_2 by (intros N; now apply N).
    rewrite (Forall2_length _ _ _ Sub), Nat.eqb_refl.
    rewrite (shape_matchesAll _ IH (constructible_children p C) Gc args mg Sub), G0.
    apply groupCheck_none.
Qed.

End GroupFree.

(** X5: a pattern tree that carries no group id never writes the table,
    whatever [matches] returns; and for such a pattern, built by the
    constructors of the class, [matches] returns true exactly on the
    expressions of the shape the pattern describes. *)
Theorem groupless_pattern_decides_its_shape `{Collaborators}
    (p : Pattern.t) (e : Expression) (d : Dialect) (ssa : SSAValues) (mg : MatchGroups) :
  groupFree p ->
  (forall r mg', Pattern.matches p e d ssa mg = (r, mg') -> mg' = mg) /\
  (Constructible.pattern p ->
   (Pattern.matches p e d ssa mg = (Ok true, mg) <-> shape d ssa p e)).
Proof.
  intros G. split.
  - intros r mg'. now apply readsOnly_matches.
  - intros C. split; [apply matches_shape | now apply shape_matches].
Qed.

Lemma groupless_pattern_witness :
  Pattern.matches
    (Pattern.ofInstruction Instr.ADD [Pattern.ofKind Any; Pattern.ofValue 0])
    (Examples.add (Reference.var "y") (Reference.num "0")) Reference.evm ∅
    {[ 5%N := Some (Reference.var "z") ]} =
  (Ok true, {[ 5%N := Some (Reference.var "z") ]}) <->
  shape Reference.evm ∅
    (Pattern.ofInstruction Instr.ADD [Pattern.ofKind Any; Pattern.ofValue 0])
    (Examples.add (Reference.var "y") (Reference.num "0")).
Proof.
  apply (proj2 (groupless_pattern_decides_its_shape
                  (Pattern.ofInstruction Instr.ADD [Pattern.ofKind Any; Pattern.ofValue 0])
                  _ _ _ _
                  ltac:(repeat (constructor; simpl; try reflexivity)))).
  repeat constructor.
Defined.

(** ** Reading a group that is not bound *)

(** X6: reading the group of a pattern that the table does not bind, through
    [matchGroupValue], [toExpression] or [d], throws and leaves a null
    pointer under that group id in the table; on such a table an [Any]
    pattern of the same group throws (Match set but to null) instead of
    binding the group. *)
Theorem reading_an_unbound_group_leaves_a_null `{Collaborators}
    (q : Pattern.t) (mg : MatchGroups) :
  Pattern.m_matchGroup q <> 0%N -> mg !! Pattern.m_matchGroup q = None ->
  Pattern.matchGroupValue q mg =
    (Throw (OptimizerException EmptyString), <[Pattern.m_matchGroup q := None]> mg) /\
  (forall loc, Pattern.toExpression q loc mg =
    (Throw (OptimizerException EmptyString), <[Pattern.m_matchGroup q := None]> mg)) /\
  Pattern.d q mg =
    (Throw (OptimizerException EmptyString), <[Pattern.m_matchGroup q := None]> mg) /\
  (forall p e d ssa,
     Constructible.pattern p -> Pattern.m_kind p = Any ->
     Pattern.m_matchGroup p = Pattern.m_matchGroup q ->
     Pattern.matches p e d ssa (<[Pattern.m_matchGroup q := None]> mg) =
     (Throw (OptimizerException "Match set but to null."),
      <[Pattern.m_matchGroup q := None]> mg)).
Proof.
  intros G L.
  assert (V : Pattern.matchGroupValue q mg =
    (Throw (OptimizerException EmptyString), <[Pattern.m_matchGroup q := None]> mg)).
  { unfold Pattern.matchGroupValue, bind, subscript.
    replace (0 <? Pattern.m_matchGroup q)%N with true
      by (symmetry; apply N.ltb_lt; lia).
    simpl. now rewrite L. }
  split; [exact V|]. split; [|split].
  - intros loc. destruct q as [k i dt args g]; simpl in *.
    unfold Pattern.matchGroup. simpl. rewrite (bool_decide_eq_true_2 _ G).
    unfold bind. now rewrite V.
  - unfold Pattern.d, bind. now rewrite V.
  - intros p e d ssa C K E.
    rewrite matches_Any by (auto; apply constructible_arguments; congruence).
    rewrite E. unfold matchGroupCheck.
    rewrite (bool_decide_eq_true_2 _ G). unfold bind, count, subscript.
    rewrite lookup_insert_eq.
    rewrite bool_decide_eq_true_2 by eauto. simpl. now rewrite lookup_insert_eq.
Qed.

Lemma reading_an_unbound_group_witness :
  Pattern.toExpression Examples.X Reference.here ∅ =
    (Throw (OptimizerException EmptyString), {[ 5%N := None ]}) /\
  Pattern.matches Examples.X (Reference.var "y") Reference.evm ∅ {[ 5%N := None ]} =
    (Throw (OptimizerException "Match set but to null."), {[ 5%N := None ]}).
Proof.
  destruct (reading_an_unbound_group_leaves_a_null Examples.X ∅
              ltac:(discriminate) eq_refl) as (_ & T & _ & S).
  split.
  - exact (T Reference.here).
  - exact (S Examples.X (Reference.var "y") Reference.evm ∅
             (Constructible.setMatchGroup 5 _ (Constructible.ofKind Any))
             eq_refl eq_refl).
Defined.

(** ** Reconstruction of whole patterns *)

Section Grounded.
Context `{Collaborators}.
Variable loc : SourceLocation.

Lemma toExpression_unfold q :
  Pattern.toExpression q loc =
  (if bool_decide (Pattern.matchGroup q <> 0%N) then
     e <- Pattern.matchGroupValue q ;; ret (translate e)
   else
     match Pattern.m_kind q with
     | Constant =>
         match Pattern.m_data q with
         | None =>
             throw (OptimizerException "No match group and no constant value given.")
         | Some data =>
             ret (ELiteral (mkLiteral loc Number (formatNumber data) EmptyString))
         end
     | Operation =>
         arguments <- toExpressionAll loc (Pattern.m_arguments q) ;;
         ret (FunctionCall loc
                (mkIdentifier loc
                   (lowercase (instructionInfo_name (Pattern.m_instruction q))))
                arguments)
     | Any =>
         throw (OptimizerException "Pattern of kind 'any', but no match group.")
     end)%M.
Proof. destruct q; reflexivity. Qed.

Lemma toExpression_with_group q (mg : MatchGroups) :
  Pattern.m_matchGroup q <> 0%N ->
  Pattern.toExpression q loc mg =
  match mg !! Pattern.m_matchGroup q with
  | Some (Some v) => (Ok (translate v), mg)
  | Some None => (Throw (OptimizerException EmptyString), mg)
  | None => (Throw (OptimizerException EmptyString), <[Pattern.m_matchGroup q := None]> mg)
  end.
Proof.
  intros G. rewrite toExpression_unfold. unfold Pattern.matchGroup.
  rewrite (bool_decide_eq_true_2 _ G).
  unfold bind, Pattern.matchGroupValue, bind, subscript.
  replace (0 <? Pattern.m_matchGroup q)%N with true
    by (symmetry; apply N.ltb_lt; lia).
  simpl. destruct (mg !! Pattern.m_matchGroup q) as [[v|]|]; reflexivity.
Qed.

Lemma toExpression_without_group q :
  Pattern.m_matchGroup q = 0%N ->
  Pattern.toExpression q loc =
  match Pattern.m_kind q with
  | Constant =>
      match Pattern.m_data q with
      | None =>
          throw (OptimizerException "No match group and no constant value given.")
      | Some data =>
          ret (ELiteral (mkLiteral loc Number (formatNumber data) EmptyString))
      end
  | Operation =>
      (arguments <- toExpressionAll loc (Pattern.m_arguments q) ;;
       ret (FunctionCall loc
              (mkIdentifier loc
                 (lowercase (instructionInfo_name (Pattern.m_instruction q))))
              arguments))%M
  | Any =>
      throw (OptimizerException "Pattern of kind 'any', but no match group.")
  end.
Proof.
  intros G. rewrite toExpression_unfold. unfold Pattern.matchGroup. now rewrite G.
Qed.

Lemma toExpressionAll_ok args :
  Forall (fun q => forall mg c mg',
            Pattern.toExpression q loc mg = (Ok c, mg') ->
            mg' = mg /\ grounded mg q) args ->
  forall mg cs mg',
    toExpressionAll loc args mg = (Ok cs, mg') ->
    mg' = mg /\ Forall (grounded mg) args /\
    Forall2 (fun q c => Pattern.toExpression q loc mg = (Ok c, mg)) args cs.
Proof.
  induction 1 as [|q args Hq _ IH]; intros mg cs mg'; simpl.
  - intros [= <- <-]. repeat split; constructor.
  - intros S. apply bind_inv_ok in S as (a & mg1 & S1 & S).
    apply bind_inv_ok in S as (r & mg2 & S2 & S).
    injection S as <- <-.
    destruct (Hq _ _ _ S1) as [-> Gq].
    destruct (IH _ _ _ S2) as (-> & Ga & F).
    repeat split; constructor; assumption.
Qed.

Lemma toExpression_ok q :
  forall mg c mg',
    Pattern.toExpression q loc mg = (Ok c, mg') -> mg' = mg /\ grounded mg q.
Proof.
  induction q as [q IH] using pattern_induction. intros mg c mg' S.
  destruct (decide (Pattern.m_matchGroup q = 0%N)) as [G|G].
  - rewrite (toExpression_without_group q G) in S.
    destruct (Pattern.m_kind q) eqn:K.
    + apply bind_inv_ok in S as (cs & mg1 & S1 & S). injection S as _ <-.
      destruct (toExpressionAll_ok _ IH _ _ _ S1) as (-> & Ga & _).
      split; [reflexivity | now apply grounded_operation].
    + destruct (Pattern.m_data q) as [v|] eqn:D; [|discriminate S].
      injection S as _ <-. split; [reflexivity | now apply (grounded_constant mg q v)].
    + discriminate S.
  - rewrite (toExpression_with_group q mg G) in S.
    destruct (mg !! Pattern.m_matchGroup q) as [[v|]|] eqn:L; try discriminate S.
    injection S as _ <-. split; [reflexivity | now apply (grounded_group mg q v)].
Qed.

Lemma grounded_toExpressionAll (mg : MatchGroups) args :
  Forall (fun q => grounded mg q ->
            exists c, Pattern.toExpression q loc mg = (Ok c, mg)) args ->
  Forall (grounded mg) args ->
  exists cs, toExpressionAll loc args mg = (Ok cs, mg).
Proof.
  induction 1 as [|q args Hq _ IH]; intros G; simpl.
  - now exists [].
  - apply Forall_cons_1 in G as [Gq Ga].
    destruct (Hq Gq) as [c S]. destruct (IH Ga) as [cs Ss].
    exists (c :: cs). unfold bind. now rewrite S, Ss.
Qed.

Lemma grounded_toExpression (mg : MatchGroups) q :
  grounded mg q -> exists c, Pattern.toExpression q loc mg = (Ok c, mg).
Proof.
  induction q as [q IH] using pattern_induction. intros G.
  inversion G as [q0 v Gr L|q0 v Gr K D|q0 Gr K Ga]; subst.
  - exists (translate v). now rewrite (toExpression_with_group q mg Gr), L.
  - rewrite (toExpression_without_group q Gr), K, D. eauto.
  - rewrite (toExpression_without_group q Gr), K.
    destruct (grounded_toExpressionAll mg _ IH Ga) as [cs S].
    unfold bind. rewrite S. eauto.
Qed.

End Grounded.

(** X7: [Pattern::toExpression] returns an expression exactly for the
    patterns that are grounded in the table: a bound group, or without a
    group a constant with a fixed value or an operation with grounded
    children; every other pattern throws.  A successful call leaves the
    table as it was.  For an operation without a group the result is a call
    of the lower-cased instruction name whose arguments are the results for
    the children, one for each and in order. *)
Theorem toExpression_succeeds_on_grounded_patterns `{Collaborators}
    (q : Pattern.t) (loc : SourceLocation) (mg : MatchGroups) :
  (grounded mg q <-> exists c, Pattern.toExpression q loc mg = (Ok c, mg)) /\
  (forall c mg', Pattern.toExpression q loc mg = (Ok c, mg') -> mg' = mg) /\
  (forall c mg',
     Pattern.m_matchGroup q = 0%N -> Pattern.m_kind q = Operation ->
     Pattern.toExpression q loc mg = (Ok c, mg') ->
     exists cs,
       c = FunctionCall loc
             (mkIdentifier loc
                (lowercase (instructionInfo_name (Pattern.m_instruction q)))) cs /\
       Forall2 (fun a c' => Pattern.toExpression a loc mg = (Ok c', mg))
         (Pattern.m_arguments q) cs).
Proof.
  split; [split|split].
  - apply grounded_toExpression.
  - intros [c S]. exact (proj2 (toExpression_ok loc q mg c mg S)).
  - intros c mg' S. exact (proj1 (toExpression_ok loc q mg c mg' S)).
  - intros c mg' G K S. rewrite (toExpression_without_group loc q G), K in S.
    apply bind_inv_ok in S as (cs & mg1 & S1 & S). injection S as <- <-.
    exists cs. split; [reflexivity|].
    assert (F : Forall (fun a => forall mg0 c0 mg0',
                Pattern.toExpression a loc mg0 = (Ok c0, mg0') ->
                mg0' = mg0 /\ grounded mg0 a) (Pattern.m_arguments q))
      by (apply Forall_forall; intros a _; apply toExpression_ok).
    exact (proj2 (proj2 (toExpressionAll_ok loc _ F _ _ _ S1))).
Qed.

Lemma toExpression_grounded_witness :
  exists cs,
    FunctionCall Reference.there (mkIdentifier Reference.there "add")
      [Reference.var "y"; ELiteral (mkLiteral Reference.there Number "0" EmptyString)] =
    FunctionCall Reference.there
      (mkIdentifier Reference.there
         (lowercase (instructionInfo_name
                       (Pattern.m_instruction
                          (Pattern.ofInstruction Instr.ADD
                             [Examples.X; Pattern.ofValue 0]))))) cs /\
    Forall2 (fun a c' =>
               Pattern.toExpression a Reference.there
                 {[ 5%N := Some (Reference.var "y") ]} =
               (Ok c', {[ 5%N := Some (Reference.var "y") ]}))
      (Pattern.m_arguments
         (Pattern.ofInstruction Instr.ADD [Examples.X; Pattern.ofValue 0])) cs.
Proof.
  apply (proj2 (proj2 (toExpression_succeeds_on_grounded_patterns
                         (Pattern.ofInstruction Instr.ADD [Examples.X; Pattern.ofValue 0])
                         Reference.there
                         ({[ 5%N := Some (Reference.var "y") ]} : MatchGroups)))
           _ ({[ 5%N := Some (Reference.var "y") ]} : MatchGroups)
           eq_refl eq_refl).
  vm_compute. reflexivity.
Defined.

(** ** The value of a constant group *)

Section GroupValue.
Context `{Collaborators}.

Lemma matchGroupValueEWasm_inv p (mg mg' : MatchGroups) e :
  PatternEWasm.matchGroupValue p mg = (Ok e, mg') ->
  mg' = mg /\ PatternEWasm.m_matchGroup p <> 0%N /\
  mg !! PatternEWasm.m_matchGroup p = Some (Some e).
Proof.
  unfold PatternEWasm.matchGroupValue. intros S.
  apply bind_inv_ok in S as ([] & mg1 & A & S).
  apply assertThrow_inv_ok in A as [A ->]. apply N.ltb_lt in A.
  apply bind_inv_ok in S as (v & mg2 & S1 & S). unfold subscript in S1.
  destruct (mg !! PatternEWasm.m_matchGroup p) as [w|] eqn:L.
  - injection S1 as <- <-. destruct w; [|discriminate S].
    injection S as <- <-. repeat split. lia.
  - injection S1 as <- <-. discriminate S.
Qed.

Lemma matchGroupValue_inv p (mg mg' : MatchGroups) e :
  Pattern.matchGroupValue p mg = (Ok e, mg') ->
  mg' = mg /\ Pattern.m_matchGroup p <> 0%N /\
  mg !! Pattern.m_matchGroup p = Some (Some e).
Proof.
  unfold Pattern.matchGroupValue. intros S.
  apply bind_inv_ok in S as ([] & mg1 & A & S).
  apply assertThrow_inv_ok in A as [A ->]. apply N.ltb_lt in A.
  apply bind_inv_ok in S as (v & mg2 & S1 & S). unfold subscript in S1.
  destruct (mg !! Pattern.m_matchGroup p) as [w|] eqn:L.
  - injection S1 as <- <-. destruct w; [|discriminate S].
    injection S as <- <-. repeat split. lia.
  - injection S1 as <- <-. discriminate S.
Qed.

Lemma d_bound p (mg : MatchGroups) l :
  Pattern.m_matchGroup p <> 0%N ->
  mg !! Pattern.m_matchGroup p = Some (Some (ELiteral l)) ->
  Pattern.d p mg =
  match valueOfNumberLiteral l with
  | Some v => (Ok v, mg)
  | None => (Throw (OptimizerException EmptyString), mg)
  end.
Proof.
  intros G L. unfold Pattern.d, bind.
  rewrite (matchGroupValue_bound p (ELiteral l) mg G L).
  now destruct (valueOfNumberLiteral l).
Qed.

Lemma matchGroupValueEWasm_bound q v (mg : MatchGroups) :
  PatternEWasm.m_matchGroup q <> 0%N ->
  mg !! PatternEWasm.m_matchGroup q = Some (Some v) ->
  PatternEWasm.matchGroupValue q mg = (Ok v, mg).
Proof.
  intros G L. unfold PatternEWasm.matchGroupValue, bind, subscript.
  replace (0 <? PatternEWasm.m_matchGroup q)%N with true
    by (symmetry; apply N.ltb_lt; lia).
  simpl. now rewrite L.
Qed.

Lemma dEWasm_bound p (mg : MatchGroups) l :
  PatternEWasm.m_matchGroup p <> 0%N ->
  mg !! PatternEWasm.m_matchGroup p = Some (Some (ELiteral l)) ->
  PatternEWasm.d p mg =
  match valueOfNumberLiteral l with
  | Some v => (Ok (uint64_t v), mg)
  | None => (Throw (OptimizerException EmptyString), mg)
  end.
Proof.
  intros G L. unfold PatternEWasm.d, bind.
  rewrite (matchGroupValueEWasm_bound p (ELiteral l) mg G L).
  now destruct (valueOfNumberLiteral l).
Qed.

Lemma valueOfNumberLiteral_Some l v :
  valueOfNumberLiteral l = Some v -> kind l = Number.
Proof.
  intros V. destruct (decide (kind l = Number)) as [K|K]; [exact K|].
  rewrite (valueOfNumberLiteral_kind l K) in V. discriminate V.
Qed.

End GroupValue.

(** X8: [d] returns a number exactly when the pattern's group is bound to a
    literal that [valueOfNumberLiteral] accepts, which is then of kind
    [Number], and leaves the table as it was: [Pattern::d] returns the value
    of that literal, [PatternEWasm::d] that value reduced modulo 2^64, so a
    number from 0 to 2^64 - 1.  With the group bound to a literal of another
    kind [d] throws [OptimizerException], with the group bound to an
    expression that is no literal it throws [bad_get]; the table is left as
    it was. *)
Theorem d_reads_the_bound_literal `{Collaborators} (mg : MatchGroups) :
  (forall p v mg',
     Pattern.d p mg = (Ok v, mg') <->
     mg' = mg /\ Pattern.m_matchGroup p <> 0%N /\
     exists l, mg !! Pattern.m_matchGroup p = Some (Some (ELiteral l)) /\
               kind l = Number /\ valueOfNumberLiteral l = Some v) /\
  (forall p v mg',
     PatternEWasm.d p mg = (Ok v, mg') <->
     mg' = mg /\ PatternEWasm.m_matchGroup p <> 0%N /\
     exists l n, mg !! PatternEWasm.m_matchGroup p = Some (Some (ELiteral l)) /\
                 kind l = Number /\ valueOfNumberLiteral l = Some n /\
                 v = n mod 2 ^ 64) /\
  (forall p v mg', PatternEWasm.d p mg = (Ok v, mg') -> 0 <= v < 2 ^ 64) /\
  (forall p l,
     Pattern.m_matchGroup p <> 0%N ->
     mg !! Pattern.m_matchGroup p = Some (Some (ELiteral l)) -> kind l <> Number ->
     Pattern.d p mg = (Throw (OptimizerException EmptyString), mg)) /\
  (forall p l,
     PatternEWasm.m_matchGroup p <> 0%N ->
     mg !! PatternEWasm.m_matchGroup p = Some (Some (ELiteral l)) -> kind l <> Number ->
     PatternEWasm.d p mg = (Throw (OptimizerException EmptyString), mg)) /\
  (forall p e,
     Pattern.m_matchGroup p <> 0%N ->
     mg !! Pattern.m_matchGroup p = Some (Some e) -> (forall l, e <> ELiteral l) ->
     Pattern.d p mg = (Throw bad_get, mg)) /\
  (forall p e,
     PatternEWasm.m_matchGroup p <> 0%N ->
     mg !! PatternEWasm.m_matchGroup p = Some (Some e) -> (forall l, e <> ELiteral l) ->
     PatternEWasm.d p mg = (Throw bad_get, mg)).
Proof.
  assert (E : forall p v mg',
     PatternEWasm.d p mg = (Ok v, mg') <->
     mg' = mg /\ PatternEWasm.m_matchGroup p <> 0%N /\
     exists l n, mg !! PatternEWasm.m_matchGroup p = Some (Some (ELiteral l)) /\
                 kind l = Number /\ valueOfNumberLiteral l = Some n /\
                 v = n mod 2 ^ 64).
  { intros p v mg'. split.
    - unfold PatternEWasm.d. intros S.
      apply bind_inv_ok in S as (e & mg1 & S1 & S).
      apply matchGroupValueEWasm_inv in S1 as (-> & G & L).
      destruct e as [| | |l]; try discriminate S.
      destruct (valueOfNumberLiteral l) as [n|] eqn:V; [|discriminate S].
      injection S as <- <-.
      repeat split; auto. exists l, n.
      repeat split; auto; [eapply valueOfNumberLiteral_Some, V | apply uint64_t_mod].
    - intros (-> & G & l & n & L & _ & V & ->).
      rewrite (dEWasm_bound p mg l G L), V. now rewrite uint64_t_mod. }
  split; [|split; [exact E|split; [|split; [|split; [|split]]]]].
  - intros p v mg'. split.
    + unfold Pattern.d. intros S.
      apply bind_inv_ok in S as (e & mg1 & S1 & S).
      apply matchGroupValue_inv in S1 as (-> & G & L).
      destruct e as [| | |l]; try discriminate S.
      destruct (valueOfNumberLiteral l) as [n|] eqn:V; [|discriminate S].
      injection S as <- <-.
      repeat split; auto. exists l.
      repeat split; auto. eapply valueOfNumberLiteral_Some, V.
    + intros (-> & G & l & L & _ & V). now rewrite (d_bound p mg l G L), V.
  - intros p v mg' S. apply E in S as (_ & _ & l & n & _ & _ & _ & ->).
    apply Z.mod_pos_bound. lia.
  - intros p l G L K.
    now rewrite (d_bound p mg l G L), (valueOfNumberLiteral_kind l K).
  - intros p l G L K.
    now rewrite (dEWasm_bound p mg l G L), (valueOfNumberLiteral_kind l K).
  - intros p e G L N. unfold Pattern.d, bind.
    rewrite (matchGroupValue_bound p e mg G L).
    destruct e as [| | |l]; try reflexivity. now destruct (N l).
  - intros p e G L N. unfold PatternEWasm.d, bind.
    rewrite (matchGroupValueEWasm_bound p e mg G L).
    destruct e as [| | |l]; try reflexivity. now destruct (N l).
Qed.

Lemma d_reads_the_bound_literal_witness :
  PatternEWasm.d Examples.AW {[ 1%N := Some (Reference.num Examples.big) ]} =
    (Ok 5, {[ 1%N := Some (Reference.num Examples.big) ]}) /\
  Pattern.d Examples.A
    {[ 1%N := Some (ELiteral (mkLiteral Reference.here Boolean "true" EmptyString)) ]} =
    (Throw (OptimizerException EmptyString),
     {[ 1%N := Some (ELiteral (mkLiteral Reference.here Boolean "true" EmptyString)) ]}).
Proof.
  split.
  - apply (proj2 (proj1 (proj2 (d_reads_the_bound_literal
                                  ({[ 1%N := Some (Reference.num Examples.big) ]}
                                     : MatchGroups)))
                    Examples.AW 5
                    ({[ 1%N := Some (Reference.num Examples.big) ]} : MatchGroups))).
    split; [reflexivity|]. split; [discriminate|].
    exists (mkLiteral Reference.here Number Examples.big EmptyString), (2 ^ 64 + 5).
    repeat split; vm_compute; reflexivity.
  - apply (proj1 (proj2 (proj2 (proj2 (d_reads_the_bound_literal
             ({[ 1%N := Some (ELiteral (mkLiteral Reference.here Boolean "true"
                                          EmptyString)) ]} : MatchGroups)))))
             Examples.A (mkLiteral Reference.here Boolean "true" EmptyString));
      [discriminate | reflexivity | discriminate].
Defined.

(** ** The rules the constructor states itself *)

Lemma shl_64 a b :
  0 <= b ->
  (if 64 <=? b then 0 else uint64_t (Z.shiftl a b)) = (a * 2 ^ b) mod 2 ^ 64.
Proof.
  intros Hb. destruct (64 <=? b) eqn:E.
  - apply Z.leb_le in E.
    replace b with (64 + (b - 64)) by lia.
    rewrite Z.pow_add_r by lia.
    replace (a * (2 ^ 64 * 2 ^ (b - 64))) with (a * 2 ^ (b - 64) * 2 ^ 64) by ring.
    now rewrite Z.mod_mul by lia.
  - now rewrite uint64_t_mod, Z.shiftl_mul_pow2.
Qed.

Lemma shr_64 a b :
  0 <= a < 2 ^ 64 -> 0 <= b ->
  (if 64 <=? b then 0 else Z.shiftr a b) = a / 2 ^ b.
Proof.
  intros Ha Hb. destruct (64 <=? b) eqn:E.
  - apply Z.leb_le in E. symmetry. apply Z.div_small.
    split; [lia|]. apply Z.lt_le_trans with (2 ^ 64); [lia|].
    apply Z.pow_le_mono_r; lia.
  - now rewrite Z.shiftr_div_pow2.
Qed.

(** X9: the seven eWasm rules of the constructor, run on a table that binds
    the constant groups A and B to number literals whose values, as
    [valueOfNumberLiteral] returns them, are a and b modulo 2^64: none has a
    feasibility predicate, every action succeeds and leaves the table as it
    was, and the actions yield, in order, the constant 0, the constant 1 or
    0 as a and b differ or not, X, X, the constant 1 or 0 as a >= b or not,
    the constant a * 2^b modulo 2^64, and the constant a / 2^b (rounded
    down). *)
Theorem own_eWasm_rules_fold_constants `{Collaborators}
    (mg : MatchGroups) (la lb : Literal) (na nb : Z) :
  let A := PatternEWasm.setMatchGroup 1 (PatternEWasm.ofKind Constant) in
  let B := PatternEWasm.setMatchGroup 2 (PatternEWasm.ofKind Constant) in
  let X := PatternEWasm.setMatchGroup 5 (PatternEWasm.ofKind Any) in
  let a := na mod 2 ^ 64 in
  let b := nb mod 2 ^ 64 in
  mg !! 1%N = Some (Some (ELiteral la)) -> valueOfNumberLiteral la = Some na ->
  mg !! 2%N = Some (Some (ELiteral lb)) -> valueOfNumberLiteral lb = Some nb ->
  map (fun r => action r mg) (SimplificationRules.ownRulesEWasm A B X) =
    [ (Ok (PatternEWasm.ofValue 0), mg);
      (Ok (PatternEWasm.ofValue (if bool_decide (a <> b) then 1 else 0)), mg);
      (Ok X, mg);
      (Ok X, mg);
      (Ok (PatternEWasm.ofValue (if b <=? a then 1 else 0)), mg);
      (Ok (PatternEWasm.ofValue ((a * 2 ^ b) mod 2 ^ 64)), mg);
      (Ok (PatternEWasm.ofValue (a / 2 ^ b)), mg) ] /\
  Forall (fun r => feasible r = None) (SimplificationRules.ownRulesEWasm A B X).
Proof.
  intros A B X a b LA VA LB VB.
  assert (DA : PatternEWasm.d A mg = (Ok a, mg)).
  { unfold a. rewrite <- uint64_t_mod.
    rewrite (dEWasm_bound A mg la ltac:(discriminate) LA). now rewrite VA. }
  assert (DB : PatternEWasm.d B mg = (Ok b, mg)).
  { unfold b. rewrite <- uint64_t_mod.
    rewrite (dEWasm_bound B mg lb ltac:(discriminate) LB). now rewrite VB. }
  assert (Ra : 0 <= a < 2 ^ 64) by (apply Z.mod_pos_bound; lia).
  assert (Rb : 0 <= b < 2 ^ 64) by (apply Z.mod_pos_bound; lia).
  split; [|repeat constructor].
  unfold SimplificationRules.ownRulesEWasm. cbv zeta.
  cbn [map action]. unfold bind.
  repeat (progress (rewrite ?DA, ?DB; cbn beta iota)).
  rewrite <- (shl_64 a b) by lia. rewrite <- (shr_64 a b) by lia.
  destruct (64 <=? b); cbn beta iota; repeat (progress (rewrite ?DA, ?DB; cbn beta iota));
    reflexivity.
Qed.

Lemma own_eWasm_rules_witness :
  nth_error
    (map (fun r => action r
            ({[ 1%N := Some (Reference.num "3"); 2%N := Some (Reference.num "64") ]}
               : MatchGroups))
       (SimplificationRules.ownRulesEWasm
          (PatternEWasm.setMatchGroup 1 (PatternEWasm.ofKind Constant))
          (PatternEWasm.setMatchGroup 2 (PatternEWasm.ofKind Constant))
          (PatternEWasm.setMatchGroup 5 (PatternEWasm.ofKind Any)))) 5 =
  Some (Ok (PatternEWasm.ofValue 0),
        ({[ 1%N := Some (Reference.num "3"); 2%N := Some (Reference.num "64") ]}
           : MatchGroups)).
Proof.
  pose (mg := ({[ 1%N := Some (Reference.num "3");
                  2%N := Some (Reference.num "64") ]} : MatchGroups)).
  assert (L1 : mg !! 1%N =
               Some (Some (ELiteral (mkLiteral Reference.here Number "3" EmptyString))))
    by (vm_compute; reflexivity).
  assert (L2 : mg !! 2%N =
               Some (Some (ELiteral (mkLiteral Reference.here Number "64" EmptyString))))
    by (vm_compute; reflexivity).
  pose proof (proj1 (own_eWasm_rules_fold_constants mg _ _ 3 64
                       L1 eq_refl L2 eq_refl)) as W.
  fold mg. rewrite W. reflexivity.
Defined.

(** ** Filling the buckets *)

Lemma addRule_step r rules rules' :
  length (SimplificationRules.m_rules rules) = 256%nat ->
  SimplificationRules.addRule r rules = Ok rules' ->
  Pattern.m_kind (pattern r) = Operation /\
  length (SimplificationRules.m_rules rules') = 256%nat /\
  SimplificationRules.m_matchGroups rules' = SimplificationRules.m_matchGroups rules /\
  SimplificationRules.m_rulesEWasm rules' = SimplificationRules.m_rulesEWasm rules /\
  forall i, (i < 256)%N ->
    SimplificationRules.bucket rules' (uint8_t i) =
    SimplificationRules.bucket rules (uint8_t i) ++
    (if bool_decide (Pattern.m_instruction (pattern r) = i) then [r] else []).
Proof.
  intros Len. unfold SimplificationRules.addRule, Pattern.instruction.
  destruct (bool_decide (Pattern.m_kind (pattern r) = Operation)) eqn:K; [|discriminate].
  apply bool_decide_eq_true_1 in K. intros [= <-]. simpl.
  repeat split; auto.
  - now rewrite length_insert.
  - intros i Hi. unfold SimplificationRules.bucket. simpl.
    destruct (bool_decide (Pattern.m_instruction (pattern r) = i)) eqn:E.
    + apply bool_decide_eq_true_1 in E. rewrite E.
      apply list_lookup_total_insert_eq. rewrite Len. unfold uint8_t. lia.
    + apply bool_decide_eq_false_1 in E. rewrite app_nil_r.
      apply list_lookup_total_insert_ne. unfold uint8_t. intros Q.
      apply E. now apply N2Nat.inj.
Qed.

Lemma addRule_throws r rules :
  Pattern.m_kind (pattern r) <> Operation ->
  SimplificationRules.addRule r rules = Throw (OptimizerException EmptyString).
Proof.
  intros K. unfold SimplificationRules.addRule, Pattern.instruction.
  now rewrite (bool_decide_eq_false_2 _ K).
Qed.

Lemma addRules_steps rs : forall rules rules',
  length (SimplificationRules.m_rules rules) = 256%nat ->
  SimplificationRules.addRules rs rules = Ok rules' ->
  Forall (fun r => Pattern.m_kind (pattern r) = Operation) rs /\
  length (SimplificationRules.m_rules rules') = 256%nat /\
  SimplificationRules.m_matchGroups rules' = SimplificationRules.m_matchGroups rules /\
  SimplificationRules.m_rulesEWasm rules' = SimplificationRules.m_rulesEWasm rules /\
  forall i, (i < 256)%N ->
    SimplificationRules.bucket rules' (uint8_t i) =
    SimplificationRules.bucket rules (uint8_t i) ++
    List.filter (fun r => bool_decide (Pattern.m_instruction (pattern r) = i)) rs.
Proof.
  induction rs as [|r rs IH]; simpl; intros rules rules' Len.
  - intros [= <-]. repeat split; auto. intros i _. now rewrite app_nil_r.
  - destruct (SimplificationRules.addRule r rules) as [rules1|] eqn:E; [|discriminate].
    intros R.
    destruct (addRule_step r rules rules1 Len E) as (K & Len1 & G1 & W1 & B1).
    destruct (IH rules1 rules' Len1 R) as (Ks & Len' & G' & W' & B').
    repeat split; auto; try congruence.
    intros i Hi. rewrite (B' i Hi), (B1 i Hi), <- app_assoc.
    now destruct (bool_decide (Pattern.m_instruction (pattern r) = i)).
Qed.

Lemma addRules_total rs : forall rules,
  Forall (fun r => Pattern.m_kind (pattern r) = Operation) rs ->
  exists rules', SimplificationRules.addRules rs rules = Ok rules'.
Proof.
  induction rs as [|r rs IH]; simpl; intros rules F.
  - eauto.
  - apply Forall_cons_1 in F as [K Ks].
    unfold SimplificationRules.addRule at 1. unfold Pattern.instruction.
    rewrite (bool_decide_eq_true_2 _ K). now apply IH.
Qed.

(** X10: [addRules] succeeds exactly when every rule's pattern is an
    operation (otherwise [instruction] throws); when it succeeds, the bucket
    of every opcode is the bucket it was followed by the rules of that
    opcode in the order of the list, and neither the match-group table nor
    the eWasm table is touched. *)
Theorem addRules_buckets_in_list_order
    (rs : list SimplificationRules.Rule) (rules : SimplificationRules.t) :
  length (SimplificationRules.m_rules rules) = 256%nat ->
  ((exists rules', SimplificationRules.addRules rs rules = Ok rules') <->
   Forall (fun r => Pattern.m_kind (pattern r) = Operation) rs) /\
  (forall rules',
     SimplificationRules.addRules rs rules = Ok rules' ->
     (forall i, (i < 256)%N ->
        SimplificationRules.bucket rules' (uint8_t i) =
        SimplificationRules.bucket rules (uint8_t i) ++
        List.filter (fun r => bool_decide (Pattern.m_instruction (pattern r) = i)) rs) /\
     SimplificationRules.m_matchGroups rules' = SimplificationRules.m_matchGroups rules /\
     SimplificationRules.m_rulesEWasm rules' = SimplificationRules.m_rulesEWasm rules).
Proof.
  intros Len. split.
  - split.
    + intros [rules' R]. exact (proj1 (addRules_steps rs rules rules' Len R)).
    + apply addRules_total.
  - intros rules' R.
    destruct (addRules_steps rs rules rules' Len R) as (_ & _ & G & W & B). auto.
Qed.

Lemma addRules_witness :
  exists rules',
    SimplificationRules.addRules
      [ExampleEngine.never; ExampleEngine.first; ExampleEngine.second]
      SimplificationRules.initial = Ok rules'.
Proof.
  apply (proj1 (addRules_buckets_in_list_order
                  [ExampleEngine.never; ExampleEngine.first; ExampleEngine.second]
                  SimplificationRules.initial eq_refl)).
  repeat constructor.
Defined.

Lemma addRuleEWasm_step r rules rules' :
  SimplificationRules.addRuleEWasm r rules = Ok rules' ->
  PatternEWasm.m_kind (pattern r) = Operation /\
  SimplificationRules.m_matchGroups rules' = SimplificationRules.m_matchGroups rules /\
  SimplificationRules.m_rules rules' = SimplificationRules.m_rules rules /\
  forall k,
    SimplificationRules.bucketEWasm rules' k =
    SimplificationRules.bucketEWasm rules k ++
    (if bool_decide (PatternEWasm.m_instruction (pattern r) = k)
        && negb (bool_decide (k = EmptyString))
     then [r] else []).
Proof.
  unfold SimplificationRules.addRuleEWasm, PatternEWasm.builtin.
  destruct (bool_decide (PatternEWasm.m_kind (pattern r) = Operation)) eqn:K;
    [|discriminate].
  apply bool_decide_eq_true_1 in K.
  destruct (bool_decide (PatternEWasm.m_instruction (pattern r) = EmptyString)) eqn:E;
    simpl; intros [= <-]; repeat split; auto; intros k.
  - apply bool_decide_eq_true_1 in E.
    destruct (bool_decide (PatternEWasm.m_instruction (pattern r) = k)) eqn:Q;
      simpl; [|now rewrite app_nil_r].
    apply bool_decide_eq_true_1 in Q.
    rewrite bool_decide_eq_true_2 by congruence. simpl. now rewrite app_nil_r.
  - apply bool_decide_eq_false_1 in E.
    unfold SimplificationRules.bucketEWasm at 1. simpl.
    destruct (bool_decide (PatternEWasm.m_instruction (pattern r) = k)) eqn:Q; simpl.
    + apply bool_decide_eq_true_1 in Q. subst k.
      rewrite (bool_decide_eq_false_2 _ E). simpl.
      now rewrite lookup_insert_eq.
    + apply bool_decide_eq_false_1 in Q.
      rewrite lookup_insert_ne by assumption. now rewrite app_nil_r.
Qed.

Lemma addRulesEWasm_steps rs : forall rules rules',
  SimplificationRules.addRulesEWasm rs rules = Ok rules' ->
  Forall (fun r => PatternEWasm.m_kind (pattern r) = Operation) rs /\
  SimplificationRules.m_matchGroups rules' = SimplificationRules.m_matchGroups rules /\
  SimplificationRules.m_rules rules' = SimplificationRules.m_rules rules /\
  forall k,
    SimplificationRules.bucketEWasm rules' k =
    SimplificationRules.bucketEWasm rules k ++
    List.filter (fun r => bool_decide (PatternEWasm.m_instruction (pattern r) = k)
                          && negb (bool_decide (k = EmptyString))) rs.
Proof.
  induction rs as [|r rs IH]; simpl; intros rules rules'.
  - intros [= <-]. repeat split; auto. intros k. now rewrite app_nil_r.
  - destruct (SimplificationRules.addRuleEWasm r rules) as [rules1|] eqn:E; [|discriminate].
    intros R.
    destruct (addRuleEWasm_step r rules rules1 E) as (K & G1 & W1 & B1).
    destruct (IH rules1 rules' R) as (Ks & G' & W' & B').
    repeat split; auto; try congruence.
    intros k. rewrite (B' k), (B1 k), <- app_assoc.
    now destruct (bool_decide (PatternEWasm.m_instruction (pattern r) = k)
                  && negb (bool_decide (k = EmptyString))).
Qed.

Lemma addRulesEWasm_total rs : forall rules,
  Forall (fun r => PatternEWasm.m_kind (pattern r) = Operation) rs ->
  exists rules', SimplificationRules.addRulesEWasm rs rules = Ok rules'.
Proof.
  induction rs as [|r rs IH]; simpl; intros rules F.
  - eauto.
  - apply Forall_cons_1 in F as [K Ks].
    unfold SimplificationRules.addRuleEWasm at 1. unfold PatternEWasm.builtin.
    rewrite (bool_decide_eq_true_2 _ K).
    destruct (negb (bool_decide (PatternEWasm.m_instruction (pattern r) = EmptyString)));
      now apply IH.
Qed.

Lemma filter_named (k : string) (rs : list SimplificationRules.RuleEWasm) :
  k <> EmptyString ->
  List.filter (fun r => bool_decide (PatternEWasm.m_instruction (pattern r) = k)
                        && negb (bool_decide (k = EmptyString))) rs =
  List.filter (fun r => bool_decide (PatternEWasm.m_instruction (pattern r) = k)) rs.
Proof.
  intros K. apply List.filter_ext. intros r.
  rewrite (bool_decide_eq_false_2 _ K). apply andb_true_r.
Qed.

Lemma filter_unnamed (rs : list SimplificationRules.RuleEWasm) :
  List.filter (fun r => bool_decide (PatternEWasm.m_instruction (pattern r) = EmptyString)
                        && negb (bool_decide (EmptyString = EmptyString))) rs = [].
Proof.
  induction rs as [|r rs IH]; simpl; [reflexivity|].
  now rewrite andb_false_r.
Qed.

(** X11: adding a list of eWasm rules one by one succeeds exactly when every
    rule's pattern is an operation; when it succeeds, the bucket of every
    non-empty builtin name is the bucket it was followed by the rules of
    that name in the order of the list, the bucket of the empty name is as
    it was, and neither the match-group table nor the EVM buckets are
    touched. *)
Theorem addRulesEWasm_buckets_in_list_order
    (rs : list SimplificationRules.RuleEWasm) (rules : SimplificationRules.t) :
  ((exists rules', SimplificationRules.addRulesEWasm rs rules = Ok rules') <->
   Forall (fun r => PatternEWasm.m_kind (pattern r) = Operation) rs) /\
  (forall rules',
     SimplificationRules.addRulesEWasm rs rules = Ok rules' ->
     (forall k, k <> EmptyString ->
        SimplificationRules.bucketEWasm rules' k =
        SimplificationRules.bucketEWasm rules k ++
        List.filter
          (fun r => bool_decide (PatternEWasm.m_instruction (pattern r) = k)) rs) /\
     SimplificationRules.bucketEWasm rules' EmptyString =
       SimplificationRules.bucketEWasm rules EmptyString /\
     SimplificationRules.m_matchGroups rules' = SimplificationRules.m_matchGroups rules /\
     SimplificationRules.m_rules rules' = SimplificationRules.m_rules rules).
Proof.
  split.
  - split.
    + intros [rules' R]. exact (proj1 (addRulesEWasm_steps rs rules rules' R)).
    + apply addRulesEWasm_total.
  - intros rules' R.
    destruct (addRulesEWasm_steps rs rules rules' R) as (_ & G & W & B).
    repeat split; auto.
    + intros k K. now rewrite (B k), filter_named.
    + now rewrite (B EmptyString), filter_unnamed, app_nil_r.
Qed.

Lemma addRulesEWasm_witness :
  exists rules',
    SimplificationRules.addRulesEWasm [ExampleEngine.neverW; ExampleEngine.firstW]
      SimplificationRules.initial = Ok rules'.
Proof.
  apply (proj1 (addRulesEWasm_buckets_in_list_order
                  [ExampleEngine.neverW; ExampleEngine.firstW]
                  SimplificationRules.initial)).
  repeat constructor.
Defined.

(** ** The constructed engine *)

Lemma filter_has {A} (f : A -> bool) (l : list A) :
  empty (List.filter f l) = false <-> Exists (fun x => f x = true) l.
Proof.
  induction l as [|x l IH]; simpl.
  - split; [discriminate | intros E; inversion E].
  - destruct (f x) eqn:F; simpl.
    + split; [intros _; now left | reflexivity].
    + rewrite IH. split; [intros E; now right|].
      intros E. inversion E as [? ? Fx|? ? El]; subst; [congruence | exact El].
Qed.

Lemma initial_bucket i : SimplificationRules.bucket SimplificationRules.initial i = [].
Proof.
  unfold SimplificationRules.bucket, SimplificationRules.initial.
  cbn [SimplificationRules.m_rules]. rewrite list_lookup_total_alt.
  destruct (replicate 256 ([] : list SimplificationRules.Rule) !! i) as [x|] eqn:L;
    [|reflexivity].
  apply lookup_replicate in L as [-> _]. reflexivity.
Qed.

(** X12: the constructor succeeds exactly when every pattern of the two rule
    lists is an operation and the EVM list holds a rule rooted at ADD;
    otherwise it throws.  The engine it builds has an empty match-group
    table, in the bucket of every opcode the EVM rules of that opcode in the
    order of the list, and in the bucket of every non-empty builtin name the
    constructor's own rules of that name followed by those of the shared
    list, each in order; the bucket of the empty name is empty. *)
Theorem construct_fills_the_buckets `{Collaborators}
    (list1 : Pattern.t -> Pattern.t -> Pattern.t -> Pattern.t -> Pattern.t ->
             Pattern.t -> Pattern.t -> list SimplificationRules.Rule)
    (list2 : PatternEWasm.t -> PatternEWasm.t -> PatternEWasm.t -> PatternEWasm.t ->
             PatternEWasm.t -> PatternEWasm.t -> PatternEWasm.t ->
             list SimplificationRules.RuleEWasm) :
  let evm :=
    list1 (Pattern.setMatchGroup 1 (Pattern.ofKind Constant))
      (Pattern.setMatchGroup 2 (Pattern.ofKind Constant))
      (Pattern.setMatchGroup 3 (Pattern.ofKind Constant))
      (Pattern.setMatchGroup 4 (Pattern.ofKind Any))
      (Pattern.setMatchGroup 5 (Pattern.ofKind Any))
      (Pattern.setMatchGroup 6 (Pattern.ofKind Any))
      (Pattern.setMatchGroup 7 (Pattern.ofKind Any)) in
  let own :=
    SimplificationRules.ownRulesEWasm
      (PatternEWasm.setMatchGroup 1 (PatternEWasm.ofKind Constant))
      (PatternEWasm.setMatchGroup 2 (PatternEWasm.ofKind Constant))
      (PatternEWasm.setMatchGroup 5 (PatternEWasm.ofKind Any)) in
  let shared :=
    list2 (PatternEWasm.setMatchGroup 1 (PatternEWasm.ofKind Constant))
      (PatternEWasm.setMatchGroup 2 (PatternEWasm.ofKind Constant))
      (PatternEWasm.setMatchGroup 3 (PatternEWasm.ofKind Constant))
      (PatternEWasm.setMatchGroup 4 (PatternEWasm.ofKind Any))
      (PatternEWasm.setMatchGroup 5 (PatternEWasm.ofKind Any))
      (PatternEWasm.setMatchGroup 6 (PatternEWasm.ofKind Any))
      (PatternEWasm.setMatchGroup 7 (PatternEWasm.ofKind Any)) in
  ((exists rules, SimplificationRules.construct list1 list2 = Ok rules) <->
   Forall (fun r => Pattern.m_kind (pattern r) = Operation) evm /\
   Forall (fun r => PatternEWasm.m_kind (pattern r) = Operation) shared /\
   Exists (fun r => Pattern.m_instruction (pattern r) = Instr.ADD) evm) /\
  (forall rules,
     SimplificationRules.construct list1 list2 = Ok rules ->
     SimplificationRules.m_matchGroups rules = ∅ /\
     (forall i, (i < 256)%N ->
        SimplificationRules.bucket rules (uint8_t i) =
        List.filter (fun r => bool_decide (Pattern.m_instruction (pattern r) = i)) evm) /\
     (forall k, k <> EmptyString ->
        SimplificationRules.bucketEWasm rules k =
        List.filter (fun r => bool_decide (PatternEWasm.m_instruction (pattern r) = k)) own
        ++ List.filter
             (fun r => bool_decide (PatternEWasm.m_instruction (pattern r) = k)) shared) /\
     SimplificationRules.bucketEWasm rules EmptyString = []).
Proof.
  intros evm own shared.
  assert (Own : Forall (fun r => PatternEWasm.m_kind (pattern r) = Operation) own)
    by (repeat constructor).
  assert (Len : length (SimplificationRules.m_rules SimplificationRules.initial) = 256%nat)
    by reflexivity.
  assert (Same : forall rules1 rules2,
    SimplificationRules.addRules evm SimplificationRules.initial = Ok rules1 ->
    SimplificationRules.addRulesEWasm (own ++ shared) rules1 = Ok rules2 ->
    SimplificationRules.m_matchGroups rules2 = ∅ /\
    (forall i, (i < 256)%N ->
       SimplificationRules.bucket rules2 (uint8_t i) =
       List.filter (fun r => bool_decide (Pattern.m_instruction (pattern r) = i)) evm) /\
    (forall k, k <> EmptyString ->
       SimplificationRules.bucketEWasm rules2 k =
       List.filter (fun r => bool_decide (PatternEWasm.m_instruction (pattern r) = k)) own
       ++ List.filter
            (fun r => bool_decide (PatternEWasm.m_instruction (pattern r) = k)) shared) /\
    SimplificationRules.bucketEWasm rules2 EmptyString = []).
  { intros rules1 rules2 R1 R2.
    destruct (addRules_steps evm _ rules1 Len R1) as (_ & _ & G1 & W1 & B1).
    destruct (addRulesEWasm_steps (own ++ shared) rules1 rules2 R2) as (_ & G2 & W2 & B2).
    assert (E : forall k, SimplificationRules.bucketEWasm rules1 k = []).
    { intros k. unfold SimplificationRules.bucketEWasm. rewrite W1. simpl.
      now rewrite lookup_empty. }
    repeat split.
    - now rewrite G2, G1.
    - intros i Hi. unfold SimplificationRules.bucket. rewrite W2.
      fold (SimplificationRules.bucket rules1 (uint8_t i)).
      now rewrite (B1 i Hi), initial_bucket.
    - intros k K. now rewrite (B2 k), E, filter_named, List.filter_app.
    - now rewrite (B2 EmptyString), E, filter_unnamed. }
  assert (Init : forall rules1 rules2,
    SimplificationRules.addRules evm SimplificationRules.initial = Ok rules1 ->
    SimplificationRules.addRulesEWasm (own ++ shared) rules1 = Ok rules2 ->
    (SimplificationRules.isInitialized rules2 = true <->
     Exists (fun r => Pattern.m_instruction (pattern r) = Instr.ADD) evm)).
  { intros rules1 rules2 R1 R2.
    destruct (Same rules1 rules2 R1 R2) as (_ & B & _).
    unfold SimplificationRules.isInitialized.
    rewrite (B Instr.ADD ltac:(reflexivity)), negb_true_iff, filter_has.
    split; intros E; (eapply Exists_impl; [exact E|]); intros r Q; simpl in *.
    - now apply bool_decide_eq_true_1 in Q.
    - now apply bool_decide_eq_true_2. }
  split.
  - unfold SimplificationRules.construct. fold evm own shared. split.
    + intros [rules C].
      destruct (SimplificationRules.addRules evm _) as [rules1|] eqn:R1; [|discriminate].
      destruct (SimplificationRules.addRulesEWasm (own ++ shared) rules1)
        as [rules2|] eqn:R2; [|discriminate].
      destruct (SimplificationRules.isInitialized rules2) eqn:I; [|discriminate].
      split; [exact (proj1 (addRules_steps evm _ rules1 Len R1))|].
      split; [|now apply (Init rules1 rules2)].
      pose proof (proj1 (addRulesEWasm_steps _ _ _ R2)) as F.
      now apply Forall_app in F as [_ F].
    + intros (F1 & F2 & E).
      destruct (addRules_total evm SimplificationRules.initial F1) as [rules1 R1].
      destruct (addRulesEWasm_total (own ++ shared) rules1) as [rules2 R2];
        [apply Forall_app; now split|].
      rewrite R1, R2. rewrite (proj2 (Init rules1 rules2 R1 R2) E). eauto.
  - intros rules C. unfold SimplificationRules.construct in C.
    fold evm own shared in C.
    destruct (SimplificationRules.addRules evm _) as [rules1|] eqn:R1; [|discriminate].
    destruct (SimplificationRules.addRulesEWasm (own ++ shared) rules1)
      as [rules2|] eqn:R2; [|discriminate].
    destruct (SimplificationRules.isInitialized rules2); [|discriminate].
    injection C as <-. now apply (Same rules1).
Qed.

Lemma construct_witness :
  SimplificationRules.m_matchGroups ExampleEngine.rules = ∅.
Proof.
  apply (proj2 (construct_fills_the_buckets ExampleEngine.ruleList
                  ExampleEngine.ruleListEWasm) ExampleEngine.rules eq_refl).
Defined.

(** ** What a lookup returns *)

Section LookupResult.
Context `{Collaborators}.
Variables (e : Expression) (d : Dialect) (ssa : SSAValues).

Lemma loop_result bucket : forall mg res mg',
  SimplificationRules.findFirstMatch_loop bucket e d ssa mg = (Ok res, mg') ->
  match res with
  | Some r =>
      exists pre post,
        bucket = pre ++ r :: post /\
        Forall (fun q => FirstMatch.rejects Pattern.matches q e d ssa) pre /\
        FirstMatch.accepts Pattern.matches r e d ssa mg'
  | None => Forall (fun q => FirstMatch.rejects Pattern.matches q e d ssa) bucket
  end.
Proof.
  induction bucket as [|q rest IH]; simpl; intros mg res mg'.
  - intros [= <- _]. constructor.
  - unfold bind; simpl.
    destruct (Pattern.matches (pattern q) e d ssa ∅) as [[[|]|x] mg1] eqn:S;
      [| |discriminate].
    + destruct (feasible q) as [f|] eqn:F.
      * destruct (f mg1) as [[[|]|x] mg2] eqn:Fr; [| |discriminate].
        -- intros [= <- <-]. exists [], rest. repeat split; [constructor|].
           exists mg1. split; [exact S|]. now rewrite F.
        -- intros R. specialize (IH _ _ _ R).
           assert (Rq : FirstMatch.rejects Pattern.matches q e d ssa)
             by (exists mg1; right; split; [exact S | eauto]).
           destruct res as [r|].
           ++ destruct IH as (pre & post & -> & Fp & A).
              exists (q :: pre), post. repeat split; [now constructor | exact A].
           ++ now constructor.
      * intros [= <- <-]. exists [], rest. repeat split; [constructor|].
        exists mg1. split; [exact S|]. now rewrite F.
    + intros R. specialize (IH _ _ _ R).
      assert (Rq : FirstMatch.rejects Pattern.matches q e d ssa)
        by (exists mg1; now left).
      destruct res as [r|].
      * destruct IH as (pre & post & -> & Fp & A).
        exists (q :: pre), post. repeat split; [now constructor | exact A].
      * now constructor.
Qed.

Lemma loopEWasm_result bucket : forall mg res mg',
  SimplificationRules.findFirstMatchEWasm_loop bucket e d ssa mg = (Ok res, mg') ->
  match res with
  | Some r =>
      exists pre post,
        bucket = pre ++ r :: post /\
        Forall (fun q => FirstMatch.rejects PatternEWasm.matches q e d ssa) pre /\
        FirstMatch.accepts PatternEWasm.matches r e d ssa mg'
  | None => Forall (fun q => FirstMatch.rejects PatternEWasm.matches q e d ssa) bucket
  end.
Proof.
  induction bucket as [|q rest IH]; simpl; intros mg res mg'.
  - intros [= <- _]. constructor.
  - unfold bind; simpl.
    destruct (PatternEWasm.matches (pattern q) e d ssa ∅) as [[[|]|x] mg1] eqn:S;
      [| |discriminate].
    + destruct (feasible q) as [f|] eqn:F.
      * destruct (f mg1) as [[[|]|x] mg2] eqn:Fr; [| |discriminate].
        -- intros [= <- <-]. exists [], rest. repeat split; [constructor|].
           exists mg1. split; [exact S|]. now rewrite F.
        -- intros R. specialize (IH _ _ _ R).
           assert (Rq : FirstMatch.rejects PatternEWasm.matches q e d ssa)
             by (exists mg1; right; split; [exact S | eauto]).
           destruct res as [r|].
           ++ destruct IH as (pre & post & -> & Fp & A).
              exists (q :: pre), post. repeat split; [now constructor | exact A].
           ++ now constructor.
      * intros [= <- <-]. exists [], rest. repeat split; [constructor|].
        exists mg1. split; [exact S|]. now rewrite F.
    + intros R. specialize (IH _ _ _ R).
      assert (Rq : FirstMatch.rejects PatternEWasm.matches q e d ssa)
        by (exists mg1; now left).
      destruct res as [r|].
      * destruct IH as (pre & post & -> & Fp & A).
        exists (q :: pre), post. repeat split; [now constructor | exact A].
      * now constructor.
Qed.

End LookupResult.

(** X13: whatever rule [findFirstMatch] returns is a rule of the bucket of
    the expression's opcode, every rule before it in the bucket rejects the
    expression, and the rule accepts it, leaving in the engine exactly the
    table its pattern (and predicate) produced from a reset table; the rule
    buckets are as before.  The same for [findFirstMatchEWasm] and the
    bucket of the called builtin's name. *)
Theorem returned_rule_is_first_acceptable `{Collaborators}
    (rules rules' : SimplificationRules.t) (e : Expression) (d : Dialect)
    (ssa : SSAValues) :
  (forall r,
     SimplificationRules.findFirstMatch rules e d ssa = (Ok (Some r), rules') ->
     exists instr args pre post,
       instructionAndArguments d e = Some (instr, args) /\
       SimplificationRules.bucket rules (uint8_t instr) = pre ++ r :: post /\
       Forall (fun q => FirstMatch.rejects Pattern.matches q e d ssa) pre /\
       FirstMatch.accepts Pattern.matches r e d ssa
         (SimplificationRules.m_matchGroups rules') /\
       SimplificationRules.m_rules rules' = SimplificationRules.m_rules rules /\
       SimplificationRules.m_rulesEWasm rules' = SimplificationRules.m_rulesEWasm rules) /\
  (forall r,
     SimplificationRules.findFirstMatchEWasm rules e d ssa = (Ok (Some r), rules') ->
     exists l f args pre post,
       e = FunctionCall l f args /\ is_Some (builtin d (name f)) /\
       SimplificationRules.bucketEWasm rules (name f) = pre ++ r :: post /\
       Forall (fun q => FirstMatch.rejects PatternEWasm.matches q e d ssa) pre /\
       FirstMatch.accepts PatternEWasm.matches r e d ssa
         (SimplificationRules.m_matchGroups rules') /\
       SimplificationRules.m_rules rules' = SimplificationRules.m_rules rules /\
       SimplificationRules.m_rulesEWasm rules' = SimplificationRules.m_rulesEWasm rules).
Proof.
  split; intros r.
  - unfold SimplificationRules.findFirstMatch.
    destruct (negb (SimplificationRules.isInitialized rules)); [discriminate|].
    destruct (instructionAndArguments d e) as [[instr args]|] eqn:R; [|discriminate].
    destruct (SimplificationRules.findFirstMatch_loop _ e d ssa _) as [res mg] eqn:L.
    intros [= -> <-]. apply loop_result in L as (pre & post & B & Fp & A).
    exists instr, args, pre, post. repeat split; assumption.
  - unfold SimplificationRules.findFirstMatchEWasm.
    destruct (negb (SimplificationRules.isInitialized rules)); [discriminate|].
    destruct e as [l i args|l f args|i|l]; try discriminate.
    destruct (builtin d (name f)) as [b|] eqn:B; [|discriminate].
    destruct (SimplificationRules.findFirstMatchEWasm_loop _ _ d ssa _)
      as [res mg] eqn:L.
    intros [= -> <-]. apply loopEWasm_result in L as (pre & post & Bk & Fp & A).
    exists l, f, args, pre, post. repeat split; eauto. simpl.
    unfold SimplificationRules.bucketEWasm in Bk.
    destruct (SimplificationRules.m_rulesEWasm rules !! name f); [reflexivity|].
    destruct pre; discriminate Bk.
Qed.

Lemma returned_rule_witness :
  exists instr args pre post,
    instructionAndArguments Reference.evm
      (Examples.add (Reference.var "y") (Reference.num "0")) = Some (instr, args) /\
    SimplificationRules.bucket ExampleEngine.ordered (uint8_t instr)
      = pre ++ ExampleEngine.first :: post /\
    Forall (fun q => FirstMatch.rejects Pattern.matches q
                       (Examples.add (Reference.var "y") (Reference.num "0"))
                       Reference.evm ∅) pre /\
    FirstMatch.accepts Pattern.matches ExampleEngine.first
      (Examples.add (Reference.var "y") (Reference.num "0")) Reference.evm ∅
      {[ 5%N := Some (Reference.var "y") ]} /\
    SimplificationRules.m_rules ExampleEngine.ordered
      = SimplificationRules.m_rules ExampleEngine.ordered /\
    SimplificationRules.m_rulesEWasm ExampleEngine.ordered
      = SimplificationRules.m_rulesEWasm ExampleEngine.ordered.
Proof.
  assert (S : SimplificationRules.findFirstMatch ExampleEngine.ordered
                (Examples.add (Reference.var "y") (Reference.num "0")) Reference.evm ∅ =
              (Ok (Some ExampleEngine.first),
               SimplificationRules.mk {[ 5%N := Some (Reference.var "y") ]}
                 (SimplificationRules.m_rules ExampleEngine.ordered)
                 (SimplificationRules.m_rulesEWasm ExampleEngine.ordered)))
    by (vm_compute; reflexivity).
  exact (proj1 (returned_rule_is_first_acceptable _ _ _ _ _) ExampleEngine.first S).
Defined.

(** ** What a lookup leaves behind *)

(** X14: a lookup never reads the bindings an earlier lookup left: with any
    other table in the engine both lookups return the same result, and when
    the bucket looked at is not empty the engine they leave is the same as
    well.  With an empty bucket no rule is tried, so the table is not reset
    and the old bindings stay; [findFirstMatchEWasm] then still creates the
    empty bucket of a name the table did not hold. *)
Theorem lookup_ignores_stale_bindings `{Collaborators}
    (rules : SimplificationRules.t) (e : Expression) (d : Dialect) (ssa : SSAValues)
    (mg0 : MatchGroups) :
  let stale :=
    SimplificationRules.mk mg0 (SimplificationRules.m_rules rules)
      (SimplificationRules.m_rulesEWasm rules) in
  fst (SimplificationRules.findFirstMatch stale e d ssa) =
    fst (SimplificationRules.findFirstMatch rules e d ssa) /\
  fst (SimplificationRules.findFirstMatchEWasm stale e d ssa) =
    fst (SimplificationRules.findFirstMatchEWasm rules e d ssa) /\
  (forall instr args,
     SimplificationRules.isInitialized rules = true ->
     instructionAndArguments d e = Some (instr, args) ->
     (SimplificationRules.bucket rules (uint8_t instr) <> [] ->
      SimplificationRules.findFirstMatch stale e d ssa =
      SimplificationRules.findFirstMatch rules e d ssa) /\
     (SimplificationRules.bucket rules (uint8_t instr) = [] ->
      SimplificationRules.findFirstMatch stale e d ssa = (Ok None, stale))) /\
  (forall l f args,
     SimplificationRules.isInitialized rules = true ->
     e = FunctionCall l f args -> is_Some (builtin d (name f)) ->
     (SimplificationRules.bucketEWasm rules (name f) <> [] ->
      SimplificationRules.findFirstMatchEWasm stale e d ssa =
      SimplificationRules.findFirstMatchEWasm rules e d ssa) /\
     (SimplificationRules.bucketEWasm rules (name f) = [] ->
      SimplificationRules.findFirstMatchEWasm stale e d ssa =
      (Ok None,
       SimplificationRules.mk mg0 (SimplificationRules.m_rules rules)
         (match SimplificationRules.m_rulesEWasm rules !! name f with
          | Some _ => SimplificationRules.m_rulesEWasm rules
          | None => <[name f := []]> (SimplificationRules.m_rulesEWasm rules)
          end)))).
Proof.
  intros stale.
  assert (I : SimplificationRules.isInitialized stale =
              SimplificationRules.isInitialized rules) by reflexivity.
  assert (L : forall b mg mg', b <> [] ->
    SimplificationRules.findFirstMatch_loop b e d ssa mg =
    SimplificationRules.findFirstMatch_loop b e d ssa mg').
  { intros [|q rest] mg mg' N; [congruence | reflexivity]. }
  assert (LW : forall b mg mg',
    fst (SimplificationRules.findFirstMatchEWasm_loop b e d ssa mg) =
    fst (SimplificationRules.findFirstMatchEWasm_loop b e d ssa mg')).
  { intros [|q rest] mg mg'; reflexivity. }
  assert (LE : forall b mg mg', b <> [] ->
    SimplificationRules.findFirstMatchEWasm_loop b e d ssa mg =
    SimplificationRules.findFirstMatchEWasm_loop b e d ssa mg').
  { intros [|q rest] mg mg' N; [congruence | reflexivity]. }
  split; [|split; [|split]].
  - unfold SimplificationRules.findFirstMatch. rewrite I.
    destruct (negb (SimplificationRules.isInitialized rules)); [reflexivity|].
    destruct (instructionAndArguments d e) as [[instr args]|]; [|reflexivity].
    change (SimplificationRules.bucket stale (uint8_t instr))
      with (SimplificationRules.bucket rules (uint8_t instr)).
    destruct (SimplificationRules.bucket rules (uint8_t instr)) as [|q rest] eqn:B;
      [reflexivity|].
    cbn [SimplificationRules.m_matchGroups stale].
    rewrite (L (q :: rest) mg0 (SimplificationRules.m_matchGroups rules))
      by discriminate.
    now destruct (SimplificationRules.findFirstMatch_loop _ e d ssa _).
  - unfold SimplificationRules.findFirstMatchEWasm. rewrite I.
    destruct (negb (SimplificationRules.isInitialized rules)); [reflexivity|].
    destruct e as [l i args|l f args|i|l]; try reflexivity.
    destruct (builtin d (name f)); [|reflexivity].
    change (SimplificationRules.bucketEWasm stale (name f))
      with (SimplificationRules.bucketEWasm rules (name f)).
    pose proof (LW (SimplificationRules.bucketEWasm rules (name f)) mg0
                  (SimplificationRules.m_matchGroups rules)) as Q.
    cbn [SimplificationRules.m_matchGroups stale].
    destruct (SimplificationRules.findFirstMatchEWasm_loop _ _ d ssa mg0).
    destruct (SimplificationRules.findFirstMatchEWasm_loop _ _ d ssa
                (SimplificationRules.m_matchGroups rules)).
    exact Q.
  - intros instr args In R. unfold SimplificationRules.findFirstMatch.
    rewrite I, In, R. simpl.
    change (SimplificationRules.bucket stale (uint8_t instr))
      with (SimplificationRules.bucket rules (uint8_t instr)).
    split; intros B.
    + now rewrite (L _ mg0 (SimplificationRules.m_matchGroups rules) B).
    + now rewrite B.
  - intros l f args In -> [b Bi]. unfold SimplificationRules.findFirstMatchEWasm.
    rewrite I, In, Bi. simpl.
    change (SimplificationRules.bucketEWasm stale (name f))
      with (SimplificationRules.bucketEWasm rules (name f)).
    split; intros B.
    + now rewrite (LE _ mg0 (SimplificationRules.m_matchGroups rules) B).
    + now rewrite B.
Qed.

Lemma lookup_ignores_stale_witness :
  SimplificationRules.findFirstMatch
    (SimplificationRules.mk {[ 9%N := Some (Reference.num "1") ]}
       (SimplificationRules.m_rules ExampleEngine.ordered)
       (SimplificationRules.m_rulesEWasm ExampleEngine.ordered))
    (Examples.add (Reference.var "y") (Reference.num "0")) Reference.evm ∅ =
  SimplificationRules.findFirstMatch ExampleEngine.ordered
    (Examples.add (Reference.var "y") (Reference.num "0")) Reference.evm ∅ /\
  SimplificationRules.findFirstMatchEWasm
    (SimplificationRules.mk {[ 9%N := Some (Reference.num "1") ]}
       (SimplificationRules.m_rules ExampleEngine.ordered)
       (SimplificationRules.m_rulesEWasm ExampleEngine.ordered))
    (Examples.i64add (Reference.var "y") (Reference.num "0")) Reference.wasm ∅ =
  SimplificationRules.findFirstMatchEWasm ExampleEngine.ordered
    (Examples.i64add (Reference.var "y") (Reference.num "0")) Reference.wasm ∅ /\
  SimplificationRules.findFirstMatchEWasm
    (SimplificationRules.mk {[ 9%N := Some (Reference.num "1") ]}
       (SimplificationRules.m_rules ExampleEngine.ordered)
       (SimplificationRules.m_rulesEWasm ExampleEngine.ordered))
    (FunctionCall Reference.here (mkIdentifier Reference.here "i64.ne")
       [Reference.var "a"; Reference.var "b"]) Reference.wasm ∅ =
  (Ok None,
   SimplificationRules.mk {[ 9%N := Some (Reference.num "1") ]}
     (SimplificationRules.m_rules ExampleEngine.ordered)
     (<["i64.ne" := []]> (SimplificationRules.m_rulesEWasm ExampleEngine.ordered))).
Proof.
  pose (mg0 := ({[ 9%N := Some (Reference.num "1") ]} : MatchGroups)).
  split; [|split].
  - apply (proj1 (proj1 (proj2 (proj2 (lookup_ignores_stale_bindings ExampleEngine.ordered
                                  (Examples.add (Reference.var "y") (Reference.num "0"))
                                  Reference.evm ∅ mg0)))
                    Instr.ADD [Reference.var "y"; Reference.num "0"] eq_refl eq_refl)).
    discriminate.
  - apply (proj1 (proj2 (proj2 (proj2 (lookup_ignores_stale_bindings ExampleEngine.ordered
                                  (Examples.i64add (Reference.var "y") (Reference.num "0"))
                                  Reference.wasm ∅ mg0)))
                    Reference.here (mkIdentifier Reference.here "i64.add")
                    [Reference.var "y"; Reference.num "0"] eq_refl eq_refl
                    ltac:(vm_compute; eauto))).
    discriminate.
  - exact (proj2 (proj2 (proj2 (proj2 (lookup_ignores_stale_bindings ExampleEngine.ordered
                                  (FunctionCall Reference.here
                                     (mkIdentifier Reference.here "i64.ne")
                                     [Reference.var "a"; Reference.var "b"])
                                  Reference.wasm ∅ mg0)))
                    Reference.here (mkIdentifier Reference.here "i64.ne")
                    [Reference.var "a"; Reference.var "b"] eq_refl eq_refl
                    ltac:(vm_compute; eauto))
             eq_refl).
Defined.

(** X15: no lookup changes what a bucket holds, whatever it returns (a rule,
    null or a throw): [findFirstMatch] leaves both rule tables as they are;
    [findFirstMatchEWasm] leaves the EVM buckets as they are and every
    eWasm bucket with the same rules, the only change to the eWasm table
    being a new, empty bucket for the name of a called builtin that had
    none. *)
Theorem lookup_keeps_the_buckets `{Collaborators}
    (rules rules' : SimplificationRules.t) (e : Expression) (d : Dialect)
    (ssa : SSAValues) :
  (forall r,
     SimplificationRules.findFirstMatch rules e d ssa = (r, rules') ->
     SimplificationRules.m_rules rules' = SimplificationRules.m_rules rules /\
     SimplificationRules.m_rulesEWasm rules' = SimplificationRules.m_rulesEWasm rules) /\
  (forall r,
     SimplificationRules.findFirstMatchEWasm rules e d ssa = (r, rules') ->
     SimplificationRules.m_rules rules' = SimplificationRules.m_rules rules /\
     (forall k, SimplificationRules.bucketEWasm rules' k =
                SimplificationRules.bucketEWasm rules k) /\
     (SimplificationRules.m_rulesEWasm rules' = SimplificationRules.m_rulesEWasm rules \/
      exists l f args,
        e = FunctionCall l f args /\ is_Some (builtin d (name f)) /\
        SimplificationRules.m_rulesEWasm rules !! name f = None /\
        SimplificationRules.m_rulesEWasm rules' =
        <[name f := []]> (SimplificationRules.m_rulesEWasm rules))).
Proof.
  split; intros r.
  - unfold SimplificationRules.findFirstMatch.
    destruct (negb (SimplificationRules.isInitialized rules)); [now intros [= _ <-]|].
    destruct (instructionAndArguments d e) as [[instr args]|]; [|now intros [= _ <-]].
    destruct (SimplificationRules.findFirstMatch_loop _ e d ssa _) as [res mg].
    now intros [= _ <-].
  - unfold SimplificationRules.findFirstMatchEWasm.
    destruct (negb (SimplificationRules.isInitialized rules));
      [intros [= _ <-]; auto|].
    destruct e as [l i args|l f args|i|l]; try (intros [= _ <-]; auto).
    destruct (builtin d (name f)) as [b|] eqn:B; [|intros [= _ <-]; auto].
    destruct (SimplificationRules.findFirstMatchEWasm_loop _ _ d ssa _) as [res mg].
    intros [= _ <-]. simpl.
    destruct (SimplificationRules.m_rulesEWasm rules !! name f) as [rs|] eqn:L;
      [auto|].
    repeat split.
    + intros k. unfold SimplificationRules.bucketEWasm. simpl.
      destruct (decide (name f = k)) as [<-|NE].
      * now rewrite lookup_insert_eq, L.
      * now rewrite lookup_insert_ne.
    + right. exists l, f, args. repeat split; eauto.
Qed.

Lemma lookup_keeps_the_buckets_witness :
  SimplificationRules.m_rules ExampleEngine.ordered
    = SimplificationRules.m_rules ExampleEngine.ordered /\
  (forall k, SimplificationRules.bucketEWasm
               (SimplificationRules.mk ∅
                  (SimplificationRules.m_rules ExampleEngine.ordered)
                  (<["i64.ne" := []]>
                     (SimplificationRules.m_rulesEWasm ExampleEngine.ordered))) k =
             SimplificationRules.bucketEWasm ExampleEngine.ordered k).
Proof.
  assert (S : SimplificationRules.findFirstMatchEWasm ExampleEngine.ordered
                (FunctionCall Reference.here (mkIdentifier Reference.here "i64.ne")
                   [Reference.var "a"; Reference.var "b"]) Reference.wasm ∅ =
              (Ok None,
               SimplificationRules.mk ∅
                 (SimplificationRules.m_rules ExampleEngine.ordered)
                 (<["i64.ne" := []]>
                    (SimplificationRules.m_rulesEWasm ExampleEngine.ordered))))
    by (vm_compute; reflexivity).
  destruct (proj2 (lookup_keeps_the_buckets _ _ _ _ _) _ S) as (R & B & _).
  split; [exact R | exact B].
Defined.

(** ** Which expressions reach a bucket *)

(** X16: the opcode of an expression resolves exactly for a functional
    instruction, and for a call of a builtin that an EVM dialect maps to an
    instruction; the arguments are the expression's own.  So under a dialect
    that is not an EVM dialect [findFirstMatch] returns null for every call,
    builtin or not, and [findFirstMatchEWasm] returns null for every
    functional instruction, under any dialect. *)
Theorem lookups_by_expression_kind `{Collaborators}
    (rules : SimplificationRules.t) (e : Expression) (d : Dialect) (ssa : SSAValues) :
  (forall i args,
     instructionAndArguments d e = Some (i, args) <->
     (exists l, e = FunctionalInstruction l i args) \/
     (exists l f b, e = FunctionCall l f args /\ isEVMDialect d = true /\
                    builtin d (name f) = Some b /\ builtin_instruction b = Some i)) /\
  (SimplificationRules.isInitialized rules = true ->
   (isEVMDialect d = false ->
    forall l f args, e = FunctionCall l f args ->
      SimplificationRules.findFirstMatch rules e d ssa = (Ok None, rules)) /\
   (forall l i args, e = FunctionalInstruction l i args ->
      SimplificationRules.findFirstMatchEWasm rules e d ssa = (Ok None, rules))).
Proof.
  split.
  - intros i args. split.
    + destruct e as [l j es|l f es| |]; simpl; try discriminate.
      * intros [= <- <-]. left. eauto.
      * destruct (isEVMDialect d) eqn:V; [|discriminate].
        destruct (builtin d (name f)) as [b|] eqn:B; [|discriminate].
        destruct (builtin_instruction b) as [j|] eqn:J; [|discriminate].
        intros [= <- <-]. right. exists l, f, b. auto.
    + intros [[l ->]|(l & f & b & -> & V & B & J)]; simpl; [reflexivity|].
      now rewrite V, B, J.
  - intros I. split.
    + intros V l f args ->. unfold SimplificationRules.findFirstMatch.
      rewrite I. simpl. now rewrite V.
    + intros l i args ->. unfold SimplificationRules.findFirstMatchEWasm.
      now rewrite I.
Qed.

Lemma lookups_by_expression_kind_witness :
  SimplificationRules.findFirstMatch ExampleEngine.ordered
    (Examples.i64add (Reference.var "y") (Reference.num "0")) Reference.wasm ∅ =
  (Ok None, ExampleEngine.ordered).
Proof.
  apply (proj1 (proj2 (lookups_by_expression_kind ExampleEngine.ordered
                         (Examples.i64add (Reference.var "y") (Reference.num "0"))
                         Reference.wasm ∅) eq_refl) eq_refl
           Reference.here (mkIdentifier Reference.here "i64.add")
           [Reference.var "y"; Reference.num "0"] eq_refl).
Defined.

(** ** Operator names *)

Lemma tolower_code c :
  N_of_ascii (tolower c) =
  (if (65 <=? N_of_ascii c) && (N_of_ascii c <=? 90)
   then N_of_ascii c + 32 else N_of_ascii c)%N.
Proof.
  unfold tolower.
  destruct ((65 <=? N_of_ascii c) && (N_of_ascii c <=? 90))%N eqn:U; [|reflexivity].
  apply andb_true_iff in U as [U1 U2].
  apply N.leb_le in U1. apply N.leb_le in U2.
  apply N_ascii_embedding. lia.
Qed.

Lemma tolower_not_upper c : ~ (65 <= N_of_ascii (tolower c) <= 90)%N.
Proof.
  rewrite tolower_code.
  destruct ((65 <=? N_of_ascii c) && (N_of_ascii c <=? 90))%N eqn:U.
  - apply andb_true_iff in U as [U1 U2]. apply N.leb_le in U1. lia.
  - apply andb_false_iff in U as [U|U]; apply N.leb_gt in U; lia.
Qed.

Lemma lowercase_length s : String.length (lowercase s) = String.length s.
Proof. induction s as [|c s IH]; simpl; [reflexivity | now rewrite IH]. Qed.

Lemma lowercase_get s : forall n,
  String.get n (lowercase s) = option_map tolower (String.get n s).
Proof.
  induction s as [|c s IH]; intros n; simpl; [reflexivity|].
  destruct n as [|n]; [reflexivity | apply IH].
Qed.

(** X17: the call that [toExpression] builds for an operation pattern
    without a group is named by the instruction's name put in lower case,
    [tolower] being that of the C locale: the name of the call has the
    length of the instruction's name, holds no letter from A to Z, and has
    at each position the character of the instruction's name, 32 added to
    its code when it is a letter from A to Z. *)
Theorem toExpression_names_the_call_in_lower_case `{Collaborators}
    (p : Pattern.t) (loc : SourceLocation) (mg mg' : MatchGroups) (c : Expression) :
  Pattern.m_matchGroup p = 0%N -> Pattern.m_kind p = Operation ->
  Pattern.toExpression p loc mg = (Ok c, mg') ->
  exists nm args,
    c = FunctionCall loc (mkIdentifier loc nm) args /\
    String.length nm = String.length (instructionInfo_name (Pattern.m_instruction p)) /\
    (forall n ch, String.get n nm = Some ch -> ~ (65 <= N_of_ascii ch <= 90)%N) /\
    (forall n ch,
       String.get n (instructionInfo_name (Pattern.m_instruction p)) = Some ch ->
       exists ch',
         String.get n nm = Some ch' /\
         N_of_ascii ch' =
         (if (65 <=? N_of_ascii ch) && (N_of_ascii ch <=? 90)
          then N_of_ascii ch + 32 else N_of_ascii ch)%N).
Proof.
  intros G K S. rewrite (toExpression_without_group loc p G), K in S.
  apply bind_inv_ok in S as (args & mg1 & _ & S). injection S as <- <-.
  exists (lowercase (instructionInfo_name (Pattern.m_instruction p))), args.
  split; [reflexivity|]. split; [apply lowercase_length|]. split.
  - intros n ch. rewrite lowercase_get.
    destruct (String.get n _) as [x|]; [|discriminate].
    intros [= <-]. apply tolower_not_upper.
  - intros n ch E. exists (tolower ch). split; [|apply tolower_code].
    now rewrite lowercase_get, E.
Qed.

Lemma toExpression_lower_case_witness :
  exists nm args,
    FunctionCall Reference.there (mkIdentifier Reference.there "add")
      [ELiteral (mkLiteral Reference.there Number "1" EmptyString);
       ELiteral (mkLiteral Reference.there Number "2" EmptyString)] =
    FunctionCall Reference.there (mkIdentifier Reference.there nm) args /\
    String.length nm = String.length (instructionInfo_name Instr.ADD) /\
    (forall n ch, String.get n nm = Some ch -> ~ (65 <= N_of_ascii ch <= 90)%N) /\
    (forall n ch,
       String.get n (instructionInfo_name Instr.ADD) = Some ch ->
       exists ch',
         String.get n nm = Some ch' /\
         N_of_ascii ch' =
         (if (65 <=? N_of_ascii ch) && (N_of_ascii ch <=? 90)
          then N_of_ascii ch + 32 else N_of_ascii ch)%N).
Proof.
  apply (toExpression_names_the_call_in_lower_case
           (Pattern.ofInstruction Instr.ADD [Pattern.ofValue 1; Pattern.ofValue 2])
           Reference.there ∅ ∅);
    [reflexivity | reflexivity | vm_compute; reflexivity].
Defined.

(** ** Reconstruction of whole eWasm patterns *)

Section GroundedEWasm.
Context `{Collaborators}.
Variable loc : SourceLocation.

Lemma toExpressionEWasm_unfold q :
  PatternEWasm.toExpression q loc =
  (if bool_decide (PatternEWasm.matchGroup q <> 0%N) then
     e <- PatternEWasm.matchGroupValue q ;; ret (translate e)
   else
     match PatternEWasm.m_kind q with
     | Constant =>
         match PatternEWasm.m_data q with
         | None =>
             throw (OptimizerException "No match group and no constant value given.")
         | Some data =>
             ret (ELiteral (mkLiteral loc Number (formatNumber data) EmptyString))
         end
     | Operation =>
         arguments <- toExpressionAllEWasm loc (PatternEWasm.m_arguments q) ;;
         ret (FunctionCall loc
                (mkIdentifier loc
                   (PatternEWasm.m_instruction q))
                arguments)
     | Any =>
         throw (OptimizerException "Pattern of kind 'any', but no match group.")
     end)%M.
Proof. destruct q; reflexivity. Qed.

Lemma toExpressionEWasm_with_group q (mg : MatchGroups) :
  PatternEWasm.m_matchGroup q <> 0%N ->
  PatternEWasm.toExpression q loc mg =
  match mg !! PatternEWasm.m_matchGroup q with
  | Some (Some v) => (Ok (translate v), mg)
  | Some None => (Throw (OptimizerException EmptyString), mg)
  | None => (Throw (OptimizerException EmptyString), <[PatternEWasm.m_matchGroup q := None]> mg)
  end.
Proof.
  intros G. rewrite toExpressionEWasm_unfold. unfold PatternEWasm.matchGroup.
  rewrite (bool_decide_eq_true_2 _ G).
  unfold bind, PatternEWasm.matchGroupValue, bind, subscript.
  replace (0 <? PatternEWasm.m_matchGroup q)%N with true
    by (symmetry; apply N.ltb_lt; lia).
  simpl. destruct (mg !! PatternEWasm.m_matchGroup q) as [[v|]|]; reflexivity.
Qed.

Lemma toExpressionEWasm_without_group q :
  PatternEWasm.m_matchGroup q = 0%N ->
  PatternEWasm.toExpression q loc =
  match PatternEWasm.m_kind q with
  | Constant =>
      match PatternEWasm.m_data q with
      | None =>
          throw (OptimizerException "No match group and no constant value given.")
      | Some data =>
          ret (ELiteral (mkLiteral loc Number (formatNumber data) EmptyString))
      end
  | Operation =>
      (arguments <- toExpressionAllEWasm loc (PatternEWasm.m_arguments q) ;;
       ret (FunctionCall loc
              (mkIdentifier loc
                 (PatternEWasm.m_instruction q))
              arguments))%M
  | Any =>
      throw (OptimizerException "Pattern of kind 'any', but no match group.")
  end.
Proof.
  intros G. rewrite toExpressionEWasm_unfold. unfold PatternEWasm.matchGroup. now rewrite G.
Qed.

Lemma toExpressionAllEWasm_ok args :
  Forall (fun q => forall mg c mg',
            PatternEWasm.toExpression q loc mg = (Ok c, mg') ->
            mg' = mg /\ groundedEWasm mg q) args ->
  forall mg cs mg',
    toExpressionAllEWasm loc args mg = (Ok cs, mg') ->
    mg' = mg /\ Forall (groundedEWasm mg) args /\
    Forall2 (fun q c => PatternEWasm.toExpression q loc mg = (Ok c, mg)) args cs.
Proof.
  induction 1 as [|q args Hq _ IH]; intros mg cs mg'; simpl.
  - intros [= <- <-]. repeat split; constructor.
  - intros S. apply bind_inv_ok in S as (a & mg1 & S1 & S).
    apply bind_inv_ok in S as (r & mg2 & S2 & S).
    injection S as <- <-.
    destruct (Hq _ _ _ S1) as [-> Gq].
    destruct (IH _ _ _ S2) as (-> & Ga & F).
    repeat split; constructor; assumption.
Qed.

Lemma toExpressionEWasm_ok q :
  forall mg c mg',
    PatternEWasm.toExpression q loc mg = (Ok c, mg') -> mg' = mg /\ groundedEWasm mg q.
Proof.
  induction q as [q IH] using patternEWasm_induction. intros mg c mg' S.
  destruct (decide (PatternEWasm.m_matchGroup q = 0%N)) as [G|G].
  - rewrite (toExpressionEWasm_without_group q G) in S.
    destruct (PatternEWasm.m_kind q) eqn:K.
    + apply bind_inv_ok in S as (cs & mg1 & S1 & S). injection S as _ <-.
      destruct (toExpressionAllEWasm_ok _ IH _ _ _ S1) as (-> & Ga & _).
      split; [reflexivity | now apply groundedEWasm_operation].
    + destruct (PatternEWasm.m_data q) as [v|] eqn:D; [|discriminate S].
      injection S as _ <-. split; [reflexivity | now apply (groundedEWasm_constant mg q v)].
    + discriminate S.
  - rewrite (toExpressionEWasm_with_group q mg G) in S.
    destruct (mg !! PatternEWasm.m_matchGroup q) as [[v|]|] eqn:L; try discriminate S.
    injection S as _ <-. split; [reflexivity | now apply (groundedEWasm_group mg q v)].
Qed.

Lemma groundedEWasm_toExpressionAll (mg : MatchGroups) args :
  Forall (fun q => groundedEWasm mg q ->
            exists c, PatternEWasm.toExpression q loc mg = (Ok c, mg)) args ->
  Forall (groundedEWasm mg) args ->
  exists cs, toExpressionAllEWasm loc args mg = (Ok cs, mg).
Proof.
  induction 1 as [|q args Hq _ IH]; intros G; simpl.
  - now exists [].
  - apply Forall_cons_1 in G as [Gq Ga].
    destruct (Hq Gq) as [c S]. destruct (IH Ga) as [cs Ss].
    exists (c :: cs). unfold bind. now rewrite S, Ss.
Qed.

Lemma groundedEWasm_toExpression (mg : MatchGroups) q :
  groundedEWasm mg q -> exists c, PatternEWasm.toExpression q loc mg = (Ok c, mg).
Proof.
  induction q as [q IH] using patternEWasm_induction. intros G.
  inversion G as [q0 v Gr L|q0 v Gr K D|q0 Gr K Ga]; subst.
  - exists (translate v). now rewrite (toExpressionEWasm_with_group q mg Gr), L.
  - rewrite (toExpressionEWasm_without_group q Gr), K, D. eauto.
  - rewrite (toExpressionEWasm_without_group q Gr), K.
    destruct (groundedEWasm_toExpressionAll mg _ IH Ga) as [cs S].
    unfold bind. rewrite S. eauto.
Qed.

End GroundedEWasm.

(** X18: [PatternEWasm::toExpression] returns an expression exactly for the
    patterns that are grounded in the table: a bound group, or without a
    group a constant with a fixed value or an operation with grounded
    children; every other pattern throws.  A successful call leaves the
    table as it was.  For an operation without a group the result is a call
    of the pattern's builtin name, unchanged, whose arguments are the
    results for the children, one for each and in order. *)
Theorem toExpressionEWasm_succeeds_on_grounded_patterns `{Collaborators}
    (q : PatternEWasm.t) (loc : SourceLocation) (mg : MatchGroups) :
  (groundedEWasm mg q <-> exists c, PatternEWasm.toExpression q loc mg = (Ok c, mg)) /\
  (forall c mg', PatternEWasm.toExpression q loc mg = (Ok c, mg') -> mg' = mg) /\
  (forall c mg',
     PatternEWasm.m_matchGroup q = 0%N -> PatternEWasm.m_kind q = Operation ->
     PatternEWasm.toExpression q loc mg = (Ok c, mg') ->
     exists cs,
       c = FunctionCall loc (mkIdentifier loc (PatternEWasm.m_instruction q)) cs /\
       Forall2 (fun a c' => PatternEWasm.toExpression a loc mg = (Ok c', mg))
         (PatternEWasm.m_arguments q) cs).
Proof.
  split; [split|split].
  - apply groundedEWasm_toExpression.
  - intros [c S]. exact (proj2 (toExpressionEWasm_ok loc q mg c mg S)).
  - intros c mg' S. exact (proj1 (toExpressionEWasm_ok loc q mg c mg' S)).
  - intros c mg' G K S. rewrite (toExpressionEWasm_without_group loc q G), K in S.
    apply bind_inv_ok in S as (cs & mg1 & S1 & S). injection S as <- <-.
    exists cs. split; [reflexivity|].
    assert (F : Forall (fun a => forall mg0 c0 mg0',
                PatternEWasm.toExpression a loc mg0 = (Ok c0, mg0') ->
                mg0' = mg0 /\ groundedEWasm mg0 a) (PatternEWasm.m_arguments q))
      by (apply Forall_forall; intros a _; apply toExpressionEWasm_ok).
    exact (proj2 (proj2 (toExpressionAllEWasm_ok loc _ F _ _ _ S1))).
Qed.

Lemma toExpressionEWasm_grounded_witness :
  exists c,
    PatternEWasm.toExpression
      (PatternEWasm.ofBuiltin "i64.add" [Examples.XW; PatternEWasm.ofValue 0])
      Reference.there {[ 5%N := Some (Reference.var "y") ]} =
    (Ok c, {[ 5%N := Some (Reference.var "y") ]}).
Proof.
  apply (proj1 (proj1 (toExpressionEWasm_succeeds_on_grounded_patterns
                         (PatternEWasm.ofBuiltin "i64.add"
                            [Examples.XW; PatternEWasm.ofValue 0])
                         Reference.there
                         ({[ 5%N := Some (Reference.var "y") ]} : MatchGroups)))).
  apply groundedEWasm_operation; [reflexivity | reflexivity|].
  apply List.Forall_cons; [|apply List.Forall_cons; [|apply List.Forall_nil]].
  - eapply groundedEWasm_group; [discriminate | vm_compute; reflexivity].
  - eapply groundedEWasm_constant; reflexivity.
Defined.
